(** * TaskMate: timeline layout, mutation guard and event loading

    A shallow embedding of the parts of [static/js/script.js] (the third and
    last iteration of the script, whose declarations are the ones in force)
    that position events on the 24-hour timeline, guard completion and
    deletion requests against duplicates, and load the event list with a
    bounded retry.

    JavaScript numbers are IEEE 754 binary64 values and are embedded as
    Rocq's primitive [float]; strings are embedded as [string], one
    character per code unit below 256. *)

From stdpp Require Import gmap.
From Stdlib Require Import ZArith QArith Qabs Floats String Ascii List Bool Lia.
From Stdlib Require Import DecimalString DecimalZ Sorted Permutation.
Import ListNotations.

Local Open Scope Z_scope.

(** ** JavaScript primitives used by the script *)

Module JS.

Abbreviation number := float (only parsing).

(** The number value of a mathematical integer (round to nearest, ties to
    even, as in the specification of number conversion). *)
Definition of_Z (z : Z) : number :=
  SF2Prim (binary_normalize prec emax z 0 false).

(** Exact rational value of a finite number; [0] for infinities and NaN. *)
Definition to_Q (x : number) : Q :=
  match Prim2SF x with
  | S754_finite s m e =>
      let q := (inject_Z (Z.pos m) * Qpower (2 # 1) e)%Q in
      if s then Qopp q else q
  | _ => 0%Q
  end.

(** White space and line terminators among the code units below 256. *)
Definition isWhiteSpace (c : ascii) : bool :=
  let n := N_of_ascii c in
  ((9 <=? n) && (n <=? 13) || (n =? 32) || (n =? 160))%N.

(** [String.prototype.trimStart], [trimEnd] and [trim]. *)
Fixpoint trimStart (s : string) : string :=
  match s with
  | String c r => if isWhiteSpace c then trimStart r else s
  | EmptyString => EmptyString
  end.

Fixpoint trimEnd (s : string) : string :=
  match s with
  | String c r =>
      match trimEnd r with
      | EmptyString => if isWhiteSpace c then EmptyString else String c EmptyString
      | r' => String c r'
      end
  | EmptyString => EmptyString
  end.

Definition trim (s : string) : string := trimEnd (trimStart s).

(** [String.prototype.split] with a one-character separator: always at
    least one part; the empty string splits into one empty part. *)
Fixpoint split (sep : ascii) (s : string) : list string :=
  match s with
  | EmptyString => [EmptyString]
  | String c r =>
      if Ascii.eqb c sep then EmptyString :: split sep r
      else match split sep r with
           | p :: ps => String c p :: ps
           | [] => [String c EmptyString]
           end
  end.

(** Array indexing: [undefined] is [None]. *)
Definition index (parts : list string) (i : nat) : option string :=
  nth_error parts i.

(** Interpolation of an array element in a template literal. *)
Definition interpolate (o : option string) : string :=
  match o with
  | Some s => s
  | None => "undefined"%string
  end.

(** Truthiness of a string: only the empty string is falsy. *)
Definition truthy (s : string) : bool :=
  match s with EmptyString => false | _ => true end.

(** Value of a digit in the given radix. *)
Definition digitValue (radix : Z) (c : ascii) : option Z :=
  let n := Z.of_N (N_of_ascii c) in
  let v :=
    if (48 <=? n) && (n <=? 57) then n - 48
    else if (97 <=? n) && (n <=? 122) then n - 87
    else if (65 <=? n) && (n <=? 90) then n - 55
    else radix in
  if v <? radix then Some v else None.

(** The longest prefix of digits, as their values. *)
Fixpoint digits (radix : Z) (s : string) : list Z :=
  match s with
  | String c r =>
      match digitValue radix c with
      | Some v => v :: digits radix r
      | None => []
      end
  | EmptyString => []
  end.

(** [parseInt(string)] with no radix argument, in two steps as in the
    language specification. First the sign and the mathematical integer:
    leading white space is skipped, a sign is read, a [0x] or [0X] prefix
    selects radix 16, and the longest prefix of digits is the value; there
    being no digit gives [None]. *)
Definition parseIntMath (input : string) : option (bool * Z) :=
  let s := trimStart input in
  let '(negative, s1) :=
    match s with
    | String "-"%char r => (true, r)
    | String "+"%char r => (false, r)
    | _ => (false, s)
    end in
  let '(radix, s2) :=
    match s1 with
    | String "0"%char (String "x"%char r) => (16, r)
    | String "0"%char (String "X"%char r) => (16, r)
    | _ => (10, s1)
    end in
  match digits radix s2 with
  | [] => None
  | ds => Some (negative, fold_left (fun acc d => acc * radix + d) ds 0)
  end.

(** Then the number: NaN without digits, [-0] for a negated zero. *)
Definition parseInt (input : string) : number :=
  match parseIntMath input with
  | None => nan
  | Some (negative, mathInt) =>
      if negative then (- of_Z mathInt)%float else of_Z mathInt
  end.

(** [String.prototype.startsWith] and [includes]. *)
Fixpoint startsWith (s p : string) : bool :=
  match p, s with
  | EmptyString, _ => true
  | String a p', String b s' => Ascii.eqb a b && startsWith s' p'
  | String _ _, EmptyString => false
  end.

Fixpoint includes (s sub : string) : bool :=
  startsWith s sub ||
  match s with
  | String _ r => includes r sub
  | EmptyString => false
  end.

(** Whether a character occurs in a string. *)
Fixpoint contains (c : ascii) (s : string) : bool :=
  match s with
  | EmptyString => false
  | String a r => Ascii.eqb a c || contains c r
  end.

End JS.

(** ** TimelineLayout *)

Module TimelineLayout.
Import JS.
Local Open Scope string_scope.

Record clock := { hour : number; minute : number }.

Record position := { top : number; height : number }.

(** [parseTimeString]: [parts[1] || 0] is the number [0] when the second
    part is absent or empty, and [parseInt(0)] reads the string ["0"]. *)
Definition parseTimeString (timeStr : string) : clock :=
  let parts := split ":" (trim timeStr) in
  let hour := parseInt (interpolate (index parts 0)) in
  let minute :=
    match index parts 1 with
    | Some p => if truthy p then parseInt p else parseInt "0"
    | None => parseInt "0"
    end in
  {| hour := hour; minute := minute |}.

Definition isOvernightEvent (timeRange : string) : bool :=
  if negb (truthy timeRange) || (String.length timeRange =? 0)%nat then false
  else
    let parts := split "-" timeRange in
    if negb (List.length parts =? 2)%nat then false
    else
      let startTime := parseTimeString (interpolate (index parts 0)) in
      let endTime := parseTimeString (interpolate (index parts 1)) in
      ((hour endTime <? hour startTime) ||
       ((hour endTime =? hour startTime) && (minute endTime <? minute startTime)))%float.

Definition getNextDayTimeRange (timeRange : string) : option string :=
  if negb (isOvernightEvent timeRange) then None
  else
    let parts := split "-" timeRange in
    Some ("00:00-" ++ interpolate (index parts 1)).

Definition getCurrentDayTimeRange (timeRange : string) : string :=
  if negb (isOvernightEvent timeRange) then timeRange
  else
    let parts := split "-" timeRange in
    interpolate (index parts 0) ++ "-24:00".

Definition calculateEventPosition (timeRange : string) : option position :=
  if negb (truthy timeRange) || (String.length timeRange =? 0)%nat then None
  else
    let parts := split "-" timeRange in
    if negb (List.length parts =? 2)%nat then None
    else
      let startTime := parseTimeString (interpolate (index parts 0)) in
      let endTime := parseTimeString (interpolate (index parts 1)) in
      let top := ((hour startTime + minute startTime / 60) * 40 + 30)%float in
      let durationHours :=
        (hour endTime - hour startTime
         + (minute endTime - minute startTime) / 60)%float in
      let durationHours :=
        if (durationHours <=? 0)%float
        then ((24 - hour startTime - minute startTime / 60)
              + (hour endTime + minute endTime / 60))%float
        else durationHours in
      let height := (durationHours * 40)%float in
      Some {| top := top; height := height |}.

(** *** Events and the timeline views *)

(** An event as delivered by the backend (the fields the views read). *)
Record event := {
  event_id : string;
  event_date : string;
  event_time_range : string;
  event_title : string;
  event_is_completed : bool;
  event_source : string
}.

(** The custom content of a timeline block: the time range and title on
    the event's own day, the title with a continuation prefix on the
    following day. *)
Inductive content :=
  | OwnDayLabel (timeRange title : string)
  | ContinuationLabel (title : string).

(** An event item placed on a day column: the result of [renderEventItem]
    with an absolute [top] and [height] style and a custom content. *)
Record block := {
  block_event : event;
  block_column : nat;
  block_top : number;
  block_height : number;
  block_content : content
}.

(** What a view rendering produces: the blocks appended to the columns, in
    order, and the alerts and notifications shown to the user (the
    timeline views show none). *)
Record rendering := {
  blocks : list block;
  shown : list string
}.

(** [calculateEventPosition] applied to a value that may be [null]. *)
Definition calculateEventPositionOrNull (timeRange : option string)
  : option position :=
  match timeRange with
  | None => None
  | Some r => calculateEventPosition r
  end.

(** [Array.prototype.indexOf]: [None] is [-1]. *)
Fixpoint indexOf (l : list string) (x : string) : option nat :=
  match l with
  | [] => None
  | y :: r => if String.eqb y x then Some 0%nat
              else option_map S (indexOf r x)
  end.

Definition placed (e : event) (column : nat) (label : content)
    (p : option position) : list block :=
  match p with
  | Some pos => [{| block_event := e; block_column := column;
                    block_top := top pos; block_height := height pos;
                    block_content := label |}]
  | None => []
  end.

Section Views.

(** The function from the date of an event to the date string that the
    second pass of [renderWeekView] computes for the following day with
    [new Date(event.date)], [setDate] and [formatDate]. That computation
    is [WeekDates.nextDateStr], which is defined with the calendar below;
    the views are defined for any such function. *)
Variable nextDate : string -> string.

(** First pass of [renderWeekView], for one event: the block on the event's
    own day and, for an overnight event not on the last column, the
    continuation on the next column. *)
Definition weekOwnDay (dayDates : list string) (e : event) : list block :=
  match indexOf dayDates (event_date e) with
  | None => []
  | Some dateIndex =>
      let isOvernight := isOvernightEvent (event_time_range e) in
      let currentDayTimeRange :=
        if isOvernight then getCurrentDayTimeRange (event_time_range e)
        else event_time_range e in
      let currentDayPosition := calculateEventPosition currentDayTimeRange in
      placed e dateIndex (OwnDayLabel (event_time_range e) (event_title e))
             currentDayPosition
      ++ (if isOvernight && (dateIndex <? 6)%nat
          then
            let nextDayTimeRange := getNextDayTimeRange (event_time_range e) in
            let nextDayPosition := calculateEventPositionOrNull nextDayTimeRange in
            placed e (dateIndex + 1) (ContinuationLabel (event_title e)) nextDayPosition
          else [])
  end.

(** Second pass of [renderWeekView], for one event: the continuation of an
    overnight event whose following day is in the week. *)
Definition weekFollowingDay (dayDates : list string) (e : event) : list block :=
  if negb (isOvernightEvent (event_time_range e)) then []
  else
    match indexOf dayDates (nextDate (event_date e)) with
    | None => []
    | Some nextDateIndex =>
        let nextDayTimeRange := getNextDayTimeRange (event_time_range e) in
        let position := calculateEventPositionOrNull nextDayTimeRange in
        placed e nextDateIndex (ContinuationLabel (event_title e)) position
    end.

Definition renderWeekView (dayDates : list string) (events : list event)
  : rendering :=
  {| blocks := flat_map (weekOwnDay dayDates) events
               ++ flat_map (weekFollowingDay dayDates) events;
     shown := [] |}.

(** [renderDayView]: the events of the current date, then the overnight
    events of the previous date. *)
Definition dayOwnDay (e : event) : list block :=
  let isOvernight := isOvernightEvent (event_time_range e) in
  let currentDayTimeRange :=
    if isOvernight then getCurrentDayTimeRange (event_time_range e)
    else event_time_range e in
  let position := calculateEventPosition currentDayTimeRange in
  placed e 0 (OwnDayLabel (event_time_range e) (event_title e)) position.

Definition dayPreviousDay (e : event) : list block :=
  if isOvernightEvent (event_time_range e)
  then
    let nextDayTimeRange := getNextDayTimeRange (event_time_range e) in
    let position := calculateEventPositionOrNull nextDayTimeRange in
    placed e 0 (ContinuationLabel (event_title e)) position
  else [].

Definition renderDayView (currentDateStr prevDateStr : string)
    (events : list event) : rendering :=
  let dayEvents :=
    List.filter (fun e => String.eqb (event_date e) currentDateStr) events in
  let prevDayEvents :=
    List.filter (fun e => String.eqb (event_date e) prevDateStr) events in
  {| blocks := flat_map dayOwnDay dayEvents
               ++ flat_map dayPreviousDay prevDayEvents;
     shown := [] |}.

End Views.

(** *** The time-range format of the data model

    A time range is ["HH:MM-HH:MM"] with zero-padded components. These
    definitions build the string from its four numeric fields, so that
    statements can range over all well-formed ranges. *)

Definition digitChar (d : Z) : ascii := ascii_of_N (Z.to_N (48 + d)).

Definition pad2 (n : Z) : string :=
  String (digitChar (n / 10)) (String (digitChar (n mod 10)) EmptyString).

Definition clockString (h m : Z) : string := pad2 h ++ ":" ++ pad2 m.

Definition rangeString (sh sm eh em : Z) : string :=
  clockString sh sm ++ "-" ++ clockString eh em.

Definition validClock (h m : Z) : Prop := 0 <= h <= 23 /\ 0 <= m <= 59.

(** Start and end compared as (hour, minute) pairs. *)
Definition clockLt (h1 m1 h2 m2 : Z) : Prop := h1 < h2 \/ (h1 = h2 /\ m1 < m2).

(** The height the testable properties ask for, first as they write it,
    evaluated left to right in number arithmetic, then as an exact
    rational. *)
Definition claimedHeight (sh sm eh em : Z) : number :=
  ((of_Z eh + of_Z em / 60 - of_Z sh - of_Z sm / 60) * 40)%float.

Definition exactHeight (sh sm eh em : Z) : Q :=
  ((inject_Z eh + inject_Z em / 60 - inject_Z sh - inject_Z sm / 60) * 40)%Q.

(** The wrap-around duration in pixels, [((24 - start) + end) * 40]. *)
Definition claimedWrapHeight (sh sm eh em : Z) : number :=
  (((24 - (of_Z sh + of_Z sm / 60)) + (of_Z eh + of_Z em / 60)) * 40)%float.

Definition exactWrapHeight (sh sm eh em : Z) : Q :=
  (((24 - (inject_Z sh + inject_Z sm / 60))
    + (inject_Z eh + inject_Z em / 60)) * 40)%Q.

(** Clock tokens including the end-of-day token ["24:00"]. *)
Definition wideClock (h m : Z) : Prop := 0 <= h <= 24 /\ 0 <= m <= 59.

(** What parsing a clock token has to yield for the layout functions to
    read its two fields. *)
Definition clockParses (h m : Z) : Prop :=
  split ":" (trim (clockString h m)) = [pad2 h; pad2 m] /\
  parseIntMath (pad2 h) = Some (false, h) /\
  parseIntMath (pad2 m) = Some (false, m) /\
  truthy (pad2 m) = true /\
  contains "-" (clockString h m) = false.

(** The integers from [a] to [b], for statements checked by evaluation. *)
Definition interval (a b : Z) : list Z :=
  map (fun i => a + Z.of_nat i) (seq 0 (Z.to_nat (b - a + 1))).

(** A time range that is empty or does not split into exactly two tokens
    on the separator. *)
Definition wrongTokenCount (timeRange : string) : Prop :=
  timeRange = EmptyString \/ List.length (split "-" timeRange) <> 2%nat.

(** Rounding tolerance for heights: [2^-40] pixels. *)
Definition tolerance : Q := 1 # 1099511627776.

Definition near (x : number) (q : Q) : Prop :=
  (Qabs (to_Q x - q) <= tolerance)%Q.

Definition nearb (x : number) (q : Q) : bool :=
  Qle_bool (Qabs (to_Q x - q)) tolerance.

End TimelineLayout.

(** ** MutationGuard *)

Module MutationGuard.
Import TimelineLayout.
Local Open Scope string_scope.

(** *** The rendered event items *)

Inductive buttonKind := CompleteButton | DeleteButton.

(** Button texts: the circle of a complete button, the cross of a delete
    button, and the dots of a disabled button. *)
Inductive label := Circle | Cross | Ellipsis.

Record button := {
  button_kind : buttonKind;
  button_disabled : bool;
  button_text : label
}.

(** An [.event-item] element. A node is identified by its position in the
    list of created elements; [el_inDocument] tells whether it still has a
    parent, which is what [document.querySelectorAll] sees. *)
Record element := {
  el_eventId : string;
  el_date : string;
  el_completing : bool;
  el_opacity : string;
  el_pointerEvents : string;
  el_transition : string;
  el_transform : string;
  el_button : option button;
  el_inDocument : bool
}.

(** The element that [renderEventItem] creates and appends. *)
Definition renderEventItem (e : event) (hideButtons : bool) : element :=
  let isCompleted :=
    event_is_completed e || String.eqb (event_source e) "completed_task" in
  {| el_eventId := event_id e;
     el_date := event_date e;
     el_completing := false;
     el_opacity := EmptyString; el_pointerEvents := EmptyString;
     el_transition := EmptyString; el_transform := EmptyString;
     el_button :=
       if hideButtons then None
       else if isCompleted
            then Some {| button_kind := DeleteButton; button_disabled := false;
                         button_text := Cross |}
            else Some {| button_kind := CompleteButton; button_disabled := false;
                         button_text := Circle |};
     el_inDocument := true |}.

(** *** Effects and state *)

(** The texts shown to the user, by the place that shows them. *)
Inductive message :=
  | ConfirmDelete
  | CompletedNotice
  | DeletedNotice
  | CompleteRejected (detail : string)
  | CompleteError
  | DeleteRejected (detail : string)
  | DeleteError.

Inductive timerCallback :=
  | RemoveElement (node : nat)
  | ReloadEvents.

Record completeBody := { body_completed : bool; body_date : string }.

Inductive effect :=
  | Fetch (method url : string) (body : option completeBody)
  | Confirm (m : message)
  | Alert (m : message)
  | Notification (m : message)
  | SetTimeout (callback : timerCallback) (delay : Z).

Record state := {
  processingEvents : gset string;
  completedEvents : gset string;
  document : list element;
  detailsHidden : bool;
  effects : list effect
}.

Definition initial : state :=
  {| processingEvents := ∅; completedEvents := ∅; document := [];
     detailsHidden := true; effects := [] |}.

(** [Set.prototype.has], [add] and [delete]. *)
Definition has (s : gset string) (x : string) : bool := bool_decide (x ∈ s).
Definition add (x : string) (s : gset string) : gset string := {[x]} ∪ s.
Definition delete (x : string) (s : gset string) : gset string := s ∖ {[x]}.

Definition setProcessing (f : gset string -> gset string) (st : state) : state :=
  {| processingEvents := f (processingEvents st);
     completedEvents := completedEvents st;
     document := document st;
     detailsHidden := detailsHidden st;
     effects := effects st |}.

Definition setCompleted (f : gset string -> gset string) (st : state) : state :=
  {| processingEvents := processingEvents st;
     completedEvents := f (completedEvents st);
     document := document st;
     detailsHidden := detailsHidden st;
     effects := effects st |}.

Definition setDocument (f : list element -> list element) (st : state) : state :=
  {| processingEvents := processingEvents st;
     completedEvents := completedEvents st;
     document := f (document st);
     detailsHidden := detailsHidden st;
     effects := effects st |}.

Definition hideDetails (st : state) : state :=
  {| processingEvents := processingEvents st;
     completedEvents := completedEvents st;
     document := document st;
     detailsHidden := true;
     effects := effects st |}.

Definition issueAll (es : list effect) (st : state) : state :=
  {| processingEvents := processingEvents st;
     completedEvents := completedEvents st;
     document := document st;
     detailsHidden := detailsHidden st;
     effects := effects st ++ es |}.

Definition issue (e : effect) (st : state) : state := issueAll [e] st.

(** *** DOM operations *)

(** The items of an event are selected with the selector
    [.event-item[data-event-id=...]], in which the id is pasted between
    two quotation marks as it is, without escaping. What the selector
    means depends on the characters of the id:
    - when every character stands for itself inside the quotation marks,
      the selector selects the items in the document whose attribute
      equals the id;
    - a quotation mark in the id ends the value early; when the character
      after it cannot go on an attribute selector (it is not white space,
      not the closing bracket, and starts neither an identifier nor a
      comment), the selector is not valid and [querySelectorAll] throws a
      [SyntaxError];
    - for every other id (one with a backslash, a line break or a null
      character, or with a quotation mark followed by text that may go on
      as a selector) the outcome depends on the rest of the selector
      grammar and is left to the engine. *)
Inductive idClass := PlainId | BreakingId | OtherId.

Definition quotationMark : ascii := "034"%char.

(** The characters that do not stand for themselves inside the quotation
    marks: the quotation mark, the backslash, the line breaks (line feed,
    form feed, carriage return) and the null character. *)
Definition specialInValue (c : ascii) : bool :=
  let n := N_of_ascii c in
  ((n =? 34) || (n =? 92) || (n =? 10) || (n =? 12) || (n =? 13)
   || (n =? 0))%N.

(** The characters with which a valid attribute selector can go on after
    the closing quotation mark of its value: white space, the closing
    bracket, the start of an identifier (a letter, an underscore, a dash,
    a backslash, a character that is not ASCII, the null character, which
    is read as one) and the slash that can start a comment. *)
Definition mayFollowValue (c : ascii) : bool :=
  let n := N_of_ascii c in
  ((n =? 32) || (n =? 9) || (n =? 10) || (n =? 12) || (n =? 13)
   || (n =? 93) || (n =? 47) || (n =? 92) || (n =? 45) || (n =? 95)
   || ((65 <=? n) && (n <=? 90)) || ((97 <=? n) && (n <=? 122))
   || (128 <=? n) || (n =? 0))%N.

Fixpoint selectorClass (eventId : string) : idClass :=
  match eventId with
  | EmptyString => PlainId
  | String c rest =>
      if Ascii.eqb c quotationMark then
        match rest with
        | EmptyString => BreakingId
        | String d _ => if mayFollowValue d then OtherId else BreakingId
        end
      else if specialInValue c then OtherId
      else selectorClass rest
  end.

(** What [document.querySelectorAll] returns for the selector of an id
    of the third kind on a document: the selected nodes, or [None] when
    it throws. *)
Class SelectorEngine :=
  selectOther : string -> list element -> option (list nat).

(** An engine that accepts no selector of the third kind. *)
Definition strictEngine : SelectorEngine := fun _ _ => None.

(** The items that the selector of a plain id selects. *)
Definition matchesEvent (eventId : string) (el : element) : bool :=
  el_inDocument el && String.eqb (el_eventId el) eventId.

(** The nodes selected by [.event-item.completing]. *)
Definition matchesCompleting (el : element) : bool :=
  el_inDocument el && el_completing el.

Fixpoint selectFrom (i : nat) (p : element -> bool) (doc : list element)
  : list nat :=
  match doc with
  | [] => []
  | el :: r => if p el then i :: selectFrom (S i) p r else selectFrom (S i) p r
  end.

Definition querySelectorAll (p : element -> bool) (doc : list element)
  : list nat := selectFrom 0 p doc.

Definition updateAll (p : element -> bool) (f : element -> element)
    (doc : list element) : list element :=
  map (fun el => if p el then f el else el) doc.

Fixpoint updateNode (node : nat) (f : element -> element) (doc : list element)
  : list element :=
  match doc, node with
  | [], _ => []
  | el :: r, O => f el :: r
  | el :: r, S n => el :: updateNode n f r
  end.

Definition disableButton (b : button) : button :=
  {| button_kind := button_kind b; button_disabled := true;
     button_text := Ellipsis |}.

(** The style written by the optimistic update, with the [completing]
    class when the update is a completion, and every button disabled. *)
Definition fade (completing : bool) (el : element) : element :=
  {| el_eventId := el_eventId el;
     el_date := el_date el;
     el_completing := completing || el_completing el;
     el_opacity := "0.3";
     el_pointerEvents := "none";
     el_transition := "all 0.5s ease";
     el_transform := "translateX(100%)";
     el_button := option_map disableButton (el_button el);
     el_inDocument := el_inDocument el |}.

(** The style written by the click handler of a delete button on its own
    item: the button disabled, the item faded. *)
Definition fadeOwn (el : element) : element := fade false el.

(** The restoration done after a failed completion. *)
Definition restore (el : element) : element :=
  {| el_eventId := el_eventId el;
     el_date := el_date el;
     el_completing := false;
     el_opacity := "1";
     el_pointerEvents := "auto";
     el_transition := el_transition el;
     el_transform := "translateX(0)";
     el_button :=
       match el_button el with
       | Some b =>
           match button_kind b with
           | CompleteButton =>
               Some {| button_kind := CompleteButton; button_disabled := false;
                       button_text := Circle |}
           | DeleteButton => Some b
           end
       | None => None
       end;
     el_inDocument := el_inDocument el |}.

(** The callback of the 500 ms timer: the element leaves the document if
    it still has a parent. *)
Definition detach (el : element) : element :=
  {| el_eventId := el_eventId el;
     el_date := el_date el;
     el_completing := el_completing el;
     el_opacity := el_opacity el;
     el_pointerEvents := el_pointerEvents el;
     el_transition := el_transition el;
     el_transform := el_transform el;
     el_button := el_button el;
     el_inDocument := false |}.

Definition updateNodes (f : element -> element) (nodes : list nat)
    (doc : list element) : list element :=
  fold_left (fun d node => updateNode node f d) nodes doc.

(** The [forEach] of the optimistic update: every selected element is
    faded and gets a removal timer. *)
Definition fadeNodes (completing : bool) (eventElements : list nat)
    (st : state) : state :=
  let st := setDocument (updateNodes (fade completing) eventElements) st in
  issueAll (map (fun node => SetTimeout (RemoveElement node) 500) eventElements) st.

Definition restoreCompleting (st : state) : state :=
  setDocument (updateAll matchesCompleting restore) st.

Section Handlers.

(** The selector engine of the browser. *)
Context {engine : SelectorEngine}.

(** [formatDate(new Date())] at the time of the call. *)
Variable currentDateStr : string.

(** [document.querySelectorAll] with the selector of an event id; [None]
    is the [SyntaxError] that it throws for a selector that is not
    valid. *)
Definition querySelectorAllEvent (eventId : string) (doc : list element)
  : option (list nat) :=
  match selectorClass eventId with
  | PlainId => Some (querySelectorAll (matchesEvent eventId) doc)
  | BreakingId => None
  | OtherId => selectOther eventId doc
  end.

(** [document.querySelector] with the same selector: the first of the
    selected nodes, if any. *)
Definition querySelectorEvent (eventId : string) (doc : list element)
  : option (option element) :=
  match querySelectorAllEvent eventId doc with
  | None => None
  | Some [] => Some None
  | Some (node :: _) => Some (nth_error doc node)
  end.

(** The ids whose selector is a valid selector: the selection throws on
    no document. *)
Definition validSelector (eventId : string) : Prop :=
  forall doc, querySelectorAllEvent eventId doc <> None.

(** The optimistic update of the two operations; [None] when the
    selection throws, which is before any element is changed. *)
Definition fadeMatching (completing : bool) (eventId : string) (st : state)
  : option state :=
  match querySelectorAllEvent eventId (document st) with
  | None => None
  | Some eventElements => Some (fadeNodes completing eventElements st)
  end.

(** *** markEventCompleted and its continuations

    An exception thrown by the selection is not caught: the call ends
    there, and so does the click handler that made it, with the state as
    it is at that point. *)

Definition markEventCompleted (eventId : string) (completed : bool)
    (st : state) : state :=
  if has (completedEvents st) eventId then st
  else if has (processingEvents st) eventId then st
  else
    let st := setProcessing (add eventId) st in
    match fadeMatching true eventId st with
    | None => st
    | Some st =>
        let st := hideDetails st in
        let st := setCompleted (add eventId) st in
        match querySelectorEvent eventId (document st) with
        | None => st
        | Some found =>
            let eventDate :=
              match found with
              | Some el =>
                  if JS.truthy (el_date el) then el_date el else currentDateStr
              | None => currentDateStr
              end in
            issue (Fetch "POST" ("/api/events/" ++ eventId ++ "/complete")
                         (Some {| body_completed := completed;
                                  body_date := eventDate |}))
                  st
        end
    end.

(** The outcome of a request: a JSON body with its [status] and [message],
    or a rejected promise (transport error, or a body that is not JSON). *)
Inductive outcome :=
  | Json (status message : string)
  | Rejected.

Definition markEventCompleted_then (eventId status message : string)
    (st : state) : state :=
  let st := setProcessing (delete eventId) st in
  if String.eqb status "success" then
    let st := issue (Notification CompletedNotice) st in
    issue (SetTimeout ReloadEvents 700) st
  else
    let st := setCompleted (delete eventId) st in
    let st := issue (Alert (CompleteRejected message)) st in
    restoreCompleting st.

Definition markEventCompleted_catch (eventId : string) (st : state) : state :=
  let st := setProcessing (delete eventId) st in
  let st := setCompleted (delete eventId) st in
  let st := issue (Alert CompleteError) st in
  restoreCompleting st.

(** *** deleteCompletedTask and its continuations *)

Definition deleteCompletedTask (taskId : string) (st : state) : state :=
  if has (processingEvents st) taskId then st
  else
    let st := setProcessing (add taskId) st in
    match fadeMatching false taskId st with
    | None => st
    | Some st =>
        let st := hideDetails st in
        issue (Fetch "DELETE" ("/api/completed-tasks/" ++ taskId) None) st
    end.

Definition deleteCompletedTask_then (taskId status message : string)
    (st : state) : state :=
  let st := setProcessing (delete taskId) st in
  if String.eqb status "success" then
    let st := issue (Notification DeletedNotice) st in
    issue (SetTimeout ReloadEvents 500) st
  else
    let st := setCompleted (delete taskId) st in
    issue (Alert (DeleteRejected message)) st.

Definition deleteCompletedTask_catch (taskId : string) (st : state) : state :=
  let st := setProcessing (delete taskId) st in
  let st := setCompleted (delete taskId) st in
  issue (Alert DeleteError) st.

(** *** The click handlers *)

(** The delete button that [renderEventItem] puts on a completed event;
    [answer] is what the user answers if the confirmation is shown. *)
Definition deleteButtonClick (node : nat) (answer : bool) (st : state)
  : state :=
  match nth_error (document st) node with
  | None => st
  | Some eventItem =>
      let eventId := el_eventId eventItem in
      if has (completedEvents st) eventId then st
      else
        let st := issue (Confirm ConfirmDelete) st in
        if negb answer then st
        else
          let st := setCompleted (add eventId) st in
          let st := setDocument (updateNode node fadeOwn) st in
          deleteCompletedTask eventId st
  end.

(** The complete button that [renderEventItem] puts on an open event. *)
Definition completeButtonClick (node : nat) (st : state) : state :=
  match nth_error (document st) node with
  | None => st
  | Some eventItem =>
      let eventId := el_eventId eventItem in
      if has (completedEvents st) eventId then st
      else markEventCompleted eventId true st
  end.

(** The buttons of the details panel built by [showEventDetails]: both
    call the operation directly, the delete button with no confirmation. *)
Definition detailsDeleteClick (eventId : string) (st : state) : state :=
  deleteCompletedTask eventId st.

Definition detailsCompleteClick (eventId : string) (st : state) : state :=
  markEventCompleted eventId true st.

(** The callback of a removal timer. *)
Definition removeElement (node : nat) (st : state) : state :=
  setDocument (updateNode node detach) st.

(** *** The event loop *)

Inductive action :=
  | ClickComplete (node : nat)
  | ClickDelete (node : nat) (answer : bool)
  | DetailsComplete (eventId : string)
  | DetailsDelete (eventId : string)
  | Complete (eventId : string) (completed : bool)
  | CompleteSettled (eventId : string) (o : outcome)
  | DeleteSettled (taskId : string) (o : outcome)
  | TimerRemove (node : nat).

Definition step (st : state) (a : action) : state :=
  match a with
  | ClickComplete node => completeButtonClick node st
  | ClickDelete node answer => deleteButtonClick node answer st
  | DetailsComplete eventId => detailsCompleteClick eventId st
  | DetailsDelete eventId => detailsDeleteClick eventId st
  | Complete eventId completed => markEventCompleted eventId completed st
  | CompleteSettled eventId (Json status message) =>
      markEventCompleted_then eventId status message st
  | CompleteSettled eventId Rejected => markEventCompleted_catch eventId st
  | DeleteSettled taskId (Json status message) =>
      deleteCompletedTask_then taskId status message st
  | DeleteSettled taskId Rejected => deleteCompletedTask_catch taskId st
  | TimerRemove node => removeElement node st
  end.

Definition run (st : state) (actions : list action) : state :=
  fold_left step actions st.

End Handlers.

(** A failure response (a JSON status other than ["success"]) or a
    transport error. *)
Definition failed (o : outcome) : bool :=
  match o with
  | Json status _ => negb (String.eqb status "success")
  | Rejected => true
  end.

Definition isConfirm (e : effect) : bool :=
  match e with Confirm _ => true | _ => false end.

(** An action that settles a request for the given id. *)
Definition settles (eventId : string) (a : action) : bool :=
  match a with
  | CompleteSettled i _ | DeleteSettled i _ => String.eqb i eventId
  | _ => false
  end.

Definition isCompletePost (eventId : string) (e : effect) : bool :=
  match e with
  | Fetch method url _ =>
      String.eqb method "POST"
      && String.eqb url ("/api/events/" ++ eventId ++ "/complete")
  | _ => false
  end.

Definition isFetch (e : effect) : bool :=
  match e with Fetch _ _ _ => true | _ => false end.

Definition countOf (p : effect -> bool) (es : list effect) : nat :=
  List.length (List.filter p es).

(** *** Scenarios *)

(** The scenario of the testable properties: event 42 rendered once, as an
    open task. *)
Definition task42 : event :=
  {| event_id := "42"; event_date := "2024-06-03";
     event_time_range := "09:00-10:00"; event_title := "Standup";
     event_is_completed := false; event_source := "backend" |}.

Definition page42 : state :=
  setDocument
    (fun _ => [renderEventItem task42 false])
    initial.

(** An event whose id is the character 4, a quotation mark and the
    character 2, rendered once, as an open task. *)
Definition quoted42 : string := String "4" (String quotationMark "2").

Definition taskQuoted : event :=
  {| event_id := quoted42; event_date := "2024-06-03";
     event_time_range := "09:00-10:00"; event_title := "Standup";
     event_is_completed := false; event_source := "backend" |}.

Definition pageQuoted : state :=
  setDocument
    (fun _ => [renderEventItem taskQuoted false])
    initial.

(** The same event shown as a completed task. *)
Definition doneQuoted : event :=
  {| event_id := quoted42; event_date := "2024-06-03";
     event_time_range := "09:00-10:00"; event_title := "Standup";
     event_is_completed := true; event_source := "backend" |}.

Definition pageDoneQuoted : state :=
  setDocument
    (fun _ => [renderEventItem doneQuoted false])
    initial.

(** Event 42 after it was completed in this session: it is shown as a
    completed task, and its id is still in the settled set. *)
Definition done42 : event :=
  {| event_id := "42"; event_date := "2024-06-03";
     event_time_range := "09:00-10:00"; event_title := "Standup";
     event_is_completed := true; event_source := "backend" |}.

Definition pageDone42 (settled : bool) : state :=
  {| processingEvents := ∅;
     completedEvents := if settled then {["42"%string]} else ∅;
     document := [renderEventItem done42 false];
     detailsHidden := false;
     effects := [] |}.

End MutationGuard.

(** ** Loading the event list *)

Module EventLoader.
Import TimelineLayout.
Local Open Scope string_scope.

Definition MAX_RETRY_COUNT : Z := 3.

(** A JavaScript error as the [catch] handler reads it. *)
Record error := { error_name : string; error_message : string }.

Inductive message :=
  | MaxRetriesReached
  | LoadFailed (detail : string).

Inductive timerCallback :=
  | Abort
  | Retry.

Inductive effect :=
  | Fetch (url : string)
  | SetTimeout (callback : timerCallback) (delay : Z)
  | Notification (m : message) (type : string).

Record state := {
  isLoadingEvents : bool;
  loadEventsRetryCount : Z;
  events : list event;
  detailsHidden : bool;
  indicatorShown : bool;
  effects : list effect
}.

Definition initial : state :=
  {| isLoadingEvents := false; loadEventsRetryCount := 0; events := [];
     detailsHidden := true; indicatorShown := false; effects := [] |}.

Definition issue (e : effect) (st : state) : state :=
  {| isLoadingEvents := isLoadingEvents st;
     loadEventsRetryCount := loadEventsRetryCount st;
     events := events st;
     detailsHidden := detailsHidden st;
     indicatorShown := indicatorShown st;
     effects := effects st ++ [e] |}.

Definition setLoading (b : bool) (st : state) : state :=
  {| isLoadingEvents := b;
     loadEventsRetryCount := loadEventsRetryCount st;
     events := events st;
     detailsHidden := detailsHidden st;
     indicatorShown := indicatorShown st;
     effects := effects st |}.

Definition setRetryCount (n : Z) (st : state) : state :=
  {| isLoadingEvents := isLoadingEvents st;
     loadEventsRetryCount := n;
     events := events st;
     detailsHidden := detailsHidden st;
     indicatorShown := indicatorShown st;
     effects := effects st |}.

Definition setEvents (data : list event) (st : state) : state :=
  {| isLoadingEvents := isLoadingEvents st;
     loadEventsRetryCount := loadEventsRetryCount st;
     events := data;
     detailsHidden := detailsHidden st;
     indicatorShown := indicatorShown st;
     effects := effects st |}.

Definition hideDetails (st : state) : state :=
  {| isLoadingEvents := isLoadingEvents st;
     loadEventsRetryCount := loadEventsRetryCount st;
     events := events st;
     detailsHidden := true;
     indicatorShown := indicatorShown st;
     effects := effects st |}.

Definition setIndicator (b : bool) (st : state) : state :=
  {| isLoadingEvents := isLoadingEvents st;
     loadEventsRetryCount := loadEventsRetryCount st;
     events := events st;
     detailsHidden := detailsHidden st;
     indicatorShown := b;
     effects := effects st |}.

Definition showLoadingIndicator := setIndicator true.
Definition hideLoadingIndicator := setIndicator false.

Section Loader.

(** The request URL, which the script builds from the current view and
    date. *)
Variable apiUrl : string.

Definition loadEvents (retry : bool) (st : state) : state :=
  if isLoadingEvents st && negb retry then st
  else
    let st := setLoading true st in
    let proceed (st : state) : state :=
      let st := hideDetails st in
      let st := showLoadingIndicator st in
      let st := issue (SetTimeout Abort 10000) st in
      issue (Fetch apiUrl) st in
    if retry then
      let st := setRetryCount (loadEventsRetryCount st + 1) st in
      if loadEventsRetryCount st >? MAX_RETRY_COUNT then
        let st := setLoading false st in
        let st := setRetryCount 0 st in
        let st := hideLoadingIndicator st in
        issue (Notification MaxRetriesReached "error") st
      else proceed st
    else
      let st := setRetryCount 0 st in
      proceed st.

(** The continuation for a response that is [ok] and parses. *)
Definition loadEvents_then (data : list event) (st : state) : state :=
  let st := setEvents data st in
  let st := hideLoadingIndicator st in
  let st := setLoading false st in
  setRetryCount 0 st.

(** The test that the [catch] handler applies before it retries. *)
Definition retryable (e : error) : bool :=
  String.eqb (error_name e) "AbortError"
  || JS.includes (error_message e) "network"
  || JS.includes (error_message e) "failed".

Definition loadEvents_catch (e : error) (st : state) : state :=
  if retryable e then issue (SetTimeout Retry 1000) st
  else
    let st := setLoading false st in
    let st := setRetryCount 0 st in
    let st := hideLoadingIndicator st in
    issue (Notification (LoadFailed (error_message e)) "error") st.

(** The callback of the retry timer. *)
Definition retryTimer (st : state) : state := loadEvents true st.

(** One failed attempt: the fetch fails with [e], and the retry timer, if
    one was set, fires. *)
Definition failedAttempt (st : state) (e : error) : state :=
  if retryable e then retryTimer (loadEvents_catch e st)
  else loadEvents_catch e st.

(** The effects of one retry round. *)
Definition retryRound (e : error) : list effect :=
  [SetTimeout Retry 1000; SetTimeout Abort 10000; Fetch apiUrl].

End Loader.

(** The error of a fetch aborted by the 10 s timeout. *)
Definition timeout : error :=
  {| error_name := "AbortError";
     error_message := "The user aborted a request." |}.

(** The errors with which [fetch] rejects when the network fails (the
    server cannot be reached, the connection is lost): a [TypeError] whose
    message is chosen by the browser, here by Chrome and by Firefox. *)
Definition chromeNetworkError : error :=
  {| error_name := "TypeError"; error_message := "Failed to fetch" |}.

Definition firefoxNetworkError : error :=
  {| error_name := "TypeError";
     error_message := "NetworkError when attempting to fetch resource." |}.

Definition isFetch (e : effect) : bool :=
  match e with Fetch _ => true | _ => false end.

Definition fetchCount (st : state) : nat :=
  List.length (List.filter isFetch (effects st)).

End EventLoader.

(** ** Further JavaScript primitives *)

Module JSText.

(** [Number.prototype.toString] on an integer (below [10^21] in magnitude,
    where the decimal digits are written out in full). *)
Definition numberToString (z : Z) : string :=
  NilEmpty.string_of_int (Z.to_int z).

Fixpoint repeatChar (c : ascii) (n : nat) : string :=
  match n with
  | O => EmptyString
  | S k => String c (repeatChar c k)
  end.

(** [String.prototype.padStart] with a one-character filler. *)
Definition padStart (targetLength : nat) (filler : ascii) (s : string) : string :=
  (repeatChar filler (targetLength - String.length s) ++ s)%string.

End JSText.

(** ** Time ranges as users write them, and exact geometry *)

Module Formats.
Import JS JSText TimelineLayout.
Local Open Scope string_scope.

(** A range with spaces around the separator, as ["09:00 - 17:30"]. *)
Definition spacedRangeString (sh sm eh em : Z) : string :=
  (clockString sh sm ++ " ") ++ "-" ++ (" " ++ clockString eh em).

(** A range of whole hours without minutes, as ["09-17"]. *)
Definition hourRangeString (sh eh : Z) : string := pad2 sh ++ "-" ++ pad2 eh.

(** A range without zero padding, as ["9:0-17:30"]. *)
Definition plainClockString (h m : Z) : string :=
  numberToString h ++ ":" ++ numberToString m.

Definition plainRangeString (sh sm eh em : Z) : string :=
  plainClockString sh sm ++ "-" ++ plainClockString eh em.

(** Two ranges that the layout functions cannot tell apart. *)
Definition sameLayout (r r' : string) : Prop :=
  isOvernightEvent r = isOvernightEvent r' /\
  calculateEventPosition r = calculateEventPosition r'.

(** The exact offset of a clock time on the timeline: 40 pixels an hour
    below a header of 30 pixels. *)
Definition exactTop (h m : Z) : Q :=
  ((inject_Z h + inject_Z m / 60) * 40 + 30)%Q.

Definition clockLtb (h1 m1 h2 m2 : Z) : bool :=
  (h1 <? h2)%Z || ((h1 =? h2)%Z && (m1 <? m2)%Z).

(** The exact height of the block on the event's own day: until the end
    time, or until midnight when the range is overnight. *)
Definition exactOwnDayHeight (sh sm eh em : Z) : Q :=
  if clockLtb sh sm eh em then exactHeight sh sm eh em
  else exactHeight sh sm 24 0.

(** The exact height of the continuation on the following day; a range
    that ends at midnight continues as the zero-length range
    ["00:00-00:00"], which is laid out as a full day. *)
Definition exactContinuationHeight (eh em : Z) : Q :=
  if (eh =? 0)%Z && (em =? 0)%Z then 960%Q else exactHeight 0 0 eh em.

(** The blocks that the views create. *)
Definition ownDayBlock (e : event) (column : nat) (pos : position) : block :=
  {| block_event := e; block_column := column;
     block_top := top pos; block_height := height pos;
     block_content := OwnDayLabel (event_time_range e) (event_title e) |}.

Definition continuationBlock (e : event) (column : nat) (pos : position) : block :=
  {| block_event := e; block_column := column;
     block_top := top pos; block_height := height pos;
     block_content := ContinuationLabel (event_title e) |}.

(** A time range of the data model: ["HH:MM-HH:MM"] with valid clock
    times. *)
Definition validRange (r : string) : Prop :=
  exists sh sm eh em,
    validClock sh sm /\ validClock eh em /\ r = rangeString sh sm eh em.

Definition onDate (d : string) (e : event) : bool := String.eqb (event_date e) d.

Definition isContinuation (b : block) : bool :=
  match block_content b with
  | ContinuationLabel _ => true
  | OwnDayLabel _ _ => false
  end.

End Formats.

(** ** Observations on the effects of the mutation guard *)

Module GuardQueries.
Import TimelineLayout MutationGuard.
Local Open Scope string_scope.

(** The DELETE request for a completed task. *)
Definition isDeleteRequest (taskId : string) (e : effect) : bool :=
  match e with
  | Fetch method url _ =>
      String.eqb method "DELETE"
      && String.eqb url ("/api/completed-tasks/" ++ taskId)
  | _ => false
  end.

(** The removal timers set for a list of nodes, and the actions of their
    callbacks. *)
Definition removalTimers (nodes : list nat) : list effect :=
  map (fun node => SetTimeout (RemoveElement node) 500) nodes.

Definition timersFire (nodes : list nat) : list action :=
  map TimerRemove nodes.

(** A page with two open tasks, 42 and 43, each rendered once. *)
Definition task43 : event :=
  {| event_id := "43"; event_date := "2024-06-03";
     event_time_range := "11:00-12:00"; event_title := "Review";
     event_is_completed := false; event_source := "backend" |}.

Definition page4243 : state :=
  setDocument
    (fun _ => [renderEventItem task42 false; renderEventItem task43 false])
    initial.

End GuardQueries.

(** ** The loader in its environment *)

Module LoaderSession.
Import TimelineLayout EventLoader.

(** What happens to the loader: something asks for the events (the user
    changes the view or the date, or a reload timer fires); the
    outstanding fetch fails or delivers the events; the retry timer
    fires. *)
Inductive occurrence :=
  | Asked
  | FetchFailed (e : error)
  | FetchLoaded (data : list event)
  | RetryTimerFired.

(** The loader together with the number of fetches that have not settled
    and of retry timers that have not fired. *)
Record session := {
  loader : state;
  outstanding : nat;
  pendingRetries : nat
}.

Definition isRetryTimer (e : effect) : bool :=
  match e with
  | SetTimeout Retry _ => true
  | _ => false
  end.

Definition retryTimerCount (st : state) : nat :=
  List.length (List.filter isRetryTimer (effects st)).

(** A handler has run and left the loader in [st']: the fetches and the
    retry timers that it issued are now outstanding. *)
Definition ran (s : session) (st' : state) : session :=
  {| loader := st';
     outstanding := outstanding s + (fetchCount st' - fetchCount (loader s));
     pendingRetries :=
       pendingRetries s + (retryTimerCount st' - retryTimerCount (loader s)) |}.

Definition settled (s : session) : session :=
  {| loader := loader s; outstanding := pred (outstanding s);
     pendingRetries := pendingRetries s |}.

Definition fired (s : session) : session :=
  {| loader := loader s; outstanding := outstanding s;
     pendingRetries := pred (pendingRetries s) |}.

Section Session.

Variable apiUrl : string.

(** One occurrence; [None] when it cannot happen: no fetch settles when
    none is outstanding, no timer fires when none is pending. *)
Definition react (s : session) (o : occurrence) : option session :=
  match o with
  | Asked => Some (ran s (loadEvents apiUrl false (loader s)))
  | FetchFailed e =>
      if (outstanding s =? 0)%nat then None
      else Some (ran (settled s) (loadEvents_catch e (loader s)))
  | FetchLoaded data =>
      if (outstanding s =? 0)%nat then None
      else Some (ran (settled s) (loadEvents_then data (loader s)))
  | RetryTimerFired =>
      if (pendingRetries s =? 0)%nat then None
      else Some (ran (fired s) (retryTimer apiUrl (loader s)))
  end.

Fixpoint reactAll (s : session) (os : list occurrence) : option session :=
  match os with
  | [] => Some s
  | o :: r =>
      match react s o with
      | Some s' => reactAll s' r
      | None => None
      end
  end.

End Session.

Definition start : session :=
  {| loader := initial; outstanding := 0; pendingRetries := 0 |}.

Definition isAsked (o : occurrence) : bool :=
  match o with Asked => true | _ => false end.

Definition asks (os : list occurrence) : nat :=
  List.length (List.filter isAsked os).

(** The invariant: while the loader is loading, exactly one fetch or one
    retry timer is outstanding; otherwise none is, and the retry count is
    zero. The fetches issued so far, with the retries still allowed, are
    at most four for each time the events were asked for. *)
Definition sessionInvariant (s : session) (asked : nat) : Prop :=
  0 <= loadEventsRetryCount (loader s) <= MAX_RETRY_COUNT /\
  if isLoadingEvents (loader s)
  then (outstanding s + pendingRetries s = 1)%nat /\
       Z.of_nat (fetchCount (loader s))
       + (MAX_RETRY_COUNT - loadEventsRetryCount (loader s))
       <= 4 * Z.of_nat asked
  else outstanding s = 0%nat /\ pendingRetries s = 0%nat /\
       loadEventsRetryCount (loader s) = 0 /\
       Z.of_nat (fetchCount (loader s)) <= 4 * Z.of_nat asked.

End LoaderSession.

(** ** Dates

    The day arithmetic of the language specification: days are counted
    from 1 January 1970, years follow the Gregorian rules. *)

Module Calendar.

Definition DayFromYear (y : Z) : Z :=
  365 * (y - 1970) + (y - 1969) / 4 - (y - 1901) / 100 + (y - 1601) / 400.

Definition DaysInYear (y : Z) : Z :=
  if negb (y mod 4 =? 0) then 365
  else if negb (y mod 100 =? 0) then 366
  else if negb (y mod 400 =? 0) then 365
  else 366.

Definition InLeapYear (y : Z) : Z := DaysInYear y - 365.

(** The largest year [y] with [DayFromYear y <= day], found from an
    estimate that is at most two years too early (the calendar repeats
    every 146097 days); see [YearFromDay_spec]. *)
Definition YearFromDay (day : Z) : Z :=
  let y := 1970 + 400 * (day / 146097) + (day mod 146097) / 366 in
  if DayFromYear (y + 2) <=? day then y + 2
  else if DayFromYear (y + 1) <=? day then y + 1
  else y.

Definition DayWithinYear (day : Z) : Z := day - DayFromYear (YearFromDay day).

(** The day within the year on which a month starts. *)
Definition monthStart (month leap : Z) : Z :=
  if month =? 0 then 0
  else if month =? 1 then 31
  else if month =? 2 then 59 + leap
  else if month =? 3 then 90 + leap
  else if month =? 4 then 120 + leap
  else if month =? 5 then 151 + leap
  else if month =? 6 then 181 + leap
  else if month =? 7 then 212 + leap
  else if month =? 8 then 243 + leap
  else if month =? 9 then 273 + leap
  else if month =? 10 then 304 + leap
  else 334 + leap.

Definition MonthFromDay (day : Z) : Z :=
  let d := DayWithinYear day in
  let leap := InLeapYear (YearFromDay day) in
  if d <? 31 then 0
  else if d <? 59 + leap then 1
  else if d <? 90 + leap then 2
  else if d <? 120 + leap then 3
  else if d <? 151 + leap then 4
  else if d <? 181 + leap then 5
  else if d <? 212 + leap then 6
  else if d <? 243 + leap then 7
  else if d <? 273 + leap then 8
  else if d <? 304 + leap then 9
  else if d <? 334 + leap then 10
  else 11.

Definition DateFromDay (day : Z) : Z :=
  DayWithinYear day
  - monthStart (MonthFromDay day) (InLeapYear (YearFromDay day)) + 1.

Definition WeekDay (day : Z) : Z := (day + 4) mod 7.

(** [MakeDay]: months beyond the year and dates beyond the month carry
    over. *)
Definition MakeDay (year month date : Z) : Z :=
  let ym := year + month / 12 in
  let mn := month mod 12 in
  DayFromYear ym + monthStart mn (InLeapYear ym) + date - 1.

(** The length of a month, for stating facts. *)
Definition DaysInMonth (year month : Z) : Z :=
  if month =? 1 then 28 + InLeapYear year
  else if (month =? 3) || (month =? 5) || (month =? 8) || (month =? 10) then 30
  else 31.

(** A [Date] object that holds a local time is modelled by its local day
    number: the operations below read and write the calendar fields only
    and keep the time of day. *)
Definition Date : Type := Z.

Definition getFullYear (d : Date) : Z := YearFromDay d.
Definition getMonth (d : Date) : Z := MonthFromDay d.
Definition getDate (d : Date) : Z := DateFromDay d.
Definition getDay (d : Date) : Z := WeekDay d.

(** [date.setDate(dt)], as the date it leaves in the object. *)
Definition setDate (dt : Z) (d : Date) : Date :=
  MakeDay (YearFromDay d) (MonthFromDay d) dt.

(** [new Date(year, month, date)]: a year from 0 to 99 stands for a year
    of the twentieth century. *)
Definition newDate (year month date : Z) : Date :=
  MakeDay (if (0 <=? year) && (year <=? 99) then 1900 + year else year)
          month date.

(** The dates from 1970 on that are far enough from the end of the range
    of time values (100,000,000 days) for the neighbouring weeks and
    months to exist. *)
Definition supported (d : Date) : Prop := 0 <= d <= 99999000.

End Calendar.

(** ** Date navigation and the requested date range *)

Module Navigation.
Import JS JSText Calendar.
Local Open Scope string_scope.

Definition formatDate (date : Date) : string :=
  let year := getFullYear date in
  let month := padStart 2 "0" (numberToString (getMonth date + 1)) in
  let day := padStart 2 "0" (numberToString (getDate date)) in
  numberToString year ++ "-" ++ month ++ "-" ++ day.

(** The date that each navigation function leaves in [currentDate]. *)
Definition previousMonth (currentDate : Date) : Date :=
  newDate (getFullYear currentDate) (getMonth currentDate - 1) 1.

Definition nextMonth (currentDate : Date) : Date :=
  newDate (getFullYear currentDate) (getMonth currentDate + 1) 1.

Definition previousWeek (currentDate : Date) : Date :=
  setDate (getDate currentDate - 7) currentDate.

Definition nextWeek (currentDate : Date) : Date :=
  setDate (getDate currentDate + 7) currentDate.

Definition previousDay (currentDate : Date) : Date :=
  setDate (getDate currentDate - 1) currentDate.

Definition nextDay (currentDate : Date) : Date :=
  setDate (getDate currentDate + 1) currentDate.

(** The Sunday that starts the week of the current date, as
    [renderWeekView], [updateDateDisplay] and [loadEvents] compute it. *)
Definition startOfWeek (currentDate : Date) : Date :=
  setDate (getDate currentDate - getDay currentDate) currentDate.

(** The dates of the seven day columns of [renderWeekView]. *)
Definition weekDay (currentDate : Date) (i : Z) : Date :=
  let startOfWeek := startOfWeek currentDate in
  setDate (getDate startOfWeek + i) startOfWeek.

Definition dayDates (currentDate : Date) : list string :=
  map (fun i => formatDate (weekDay currentDate i)) [0; 1; 2; 3; 4; 5; 6].

(** The two date strings that [renderDayView] compares with. *)
Definition currentDateStr (currentDate : Date) : string :=
  formatDate currentDate.

Definition prevDateStr (currentDate : Date) : string :=
  formatDate (setDate (getDate currentDate - 1) currentDate).

(** The date range that [loadEvents] asks for, by view: the view's days
    and the day before them; [None] is [undefined], which is what the two
    variables hold when no case of the [switch] applies. *)
Definition dateRange (currentView : string) (currentDate : Date)
  : option string * option string :=
  let monthRange :=
    let firstDay := newDate (getFullYear currentDate) (getMonth currentDate) 1 in
    let prevDayOfMonth := setDate (getDate firstDay - 1) firstDay in
    let lastDay :=
      newDate (getFullYear currentDate) (getMonth currentDate + 1) 0 in
    (Some (formatDate prevDayOfMonth), Some (formatDate lastDay)) in
  if String.eqb currentView "month" then monthRange
  else if String.eqb currentView "week" then
    let startOfWeek := startOfWeek currentDate in
    let prevDayOfWeek := setDate (getDate startOfWeek - 1) startOfWeek in
    let endOfWeek := setDate (getDate startOfWeek + 6) startOfWeek in
    (Some (formatDate prevDayOfWeek), Some (formatDate endOfWeek))
  else if String.eqb currentView "day" then
    let prevDay := setDate (getDate currentDate - 1) currentDate in
    (Some (formatDate prevDay), Some (formatDate currentDate))
  else if String.eqb currentView "list" || String.eqb currentView "completed"
  then monthRange
  else (None, None).

Definition apiUrl (currentView : string) (currentDate : Date) : string :=
  let '(dateFrom, dateTo) := dateRange currentView currentDate in
  "/api/events?date_from=" ++ interpolate dateFrom
  ++ "&date_to=" ++ interpolate dateTo.

(** The numbers that [renderMonthView] lays the grid out with. *)
Definition firstDayOfWeek (currentDate : Date) : Z :=
  getDay (newDate (getFullYear currentDate) (getMonth currentDate) 1).

Definition daysInMonth (currentDate : Date) : Z :=
  getDate (newDate (getFullYear currentDate) (getMonth currentDate + 1) 0).

End Navigation.

(** ** The following day of an event

    The second pass of [renderWeekView] computes the day after the date
    of an event with [new Date(event.date)], [setDate(getDate() + 1)] and
    [formatDate]. A date string of the date-only form [YYYY-MM-DD] is
    parsed as 00:00 UTC of that day, while [getDate], [setDate] and
    [formatDate] work in local time, so the result depends on the time
    zone. *)

Module WeekDates.
Import JS JSText Calendar Navigation.
Local Open Scope Z_scope.

Definition digitValue (c : ascii) : option Z :=
  let n := Z.of_N (N_of_ascii c) in
  if (48 <=? n) && (n <=? 57) then Some (n - 48) else None.

Definition number4 (a b c d : ascii) : option Z :=
  match digitValue a, digitValue b, digitValue c, digitValue d with
  | Some a, Some b, Some c, Some d => Some (((a * 10 + b) * 10 + c) * 10 + d)
  | _, _, _, _ => None
  end.

Definition number2 (a b : ascii) : option Z :=
  match digitValue a, digitValue b with
  | Some a, Some b => Some (a * 10 + b)
  | _, _ => None
  end.

(** [Date.parse] on the date-only form [YYYY-MM-DD] with a month from 01
    to 12 and a day that the month has: the day number of the time value,
    which is 00:00 UTC of that day. [None] is any other string; what
    [new Date] makes of those is not modelled here. *)
Definition parseDateOnly (s : string) : option Z :=
  match s with
  | String y1 (String y2 (String y3 (String y4 (String dash1
      (String m1 (String m2 (String dash2
        (String d1 (String d2 EmptyString))))))))) =>
      if Ascii.eqb dash1 "-" && Ascii.eqb dash2 "-" then
        match number4 y1 y2 y3 y4, number2 m1 m2, number2 d1 d2 with
        | Some year, Some month, Some day =>
            if (1 <=? month) && (month <=? 12) && (1 <=? day)
               && (day <=? DaysInMonth year (month - 1))
            then Some (MakeDay year (month - 1) day)
            else None
        | _, _, _ => None
        end
      else None
  | _ => None
  end.

(** The test that the four digits written for a year are read back as
    that year. *)
Definition yearReadsBack (y : Z) : bool :=
  match numberToString y with
  | String a (String b (String c (String d EmptyString))) =>
      match number4 a b c d with
      | Some v => v =? y
      | None => false
      end
  | _ => false
  end.

Section Zone.

(** The offset of local time from UTC in minutes, at 00:00 UTC of the
    given day: positive east of Greenwich, negative west of it. *)
Variable LocalTZA : Z -> Z.

(** What the three lines give for a date string that is not of the
    date-only form. *)
Variable otherDate : string -> string.

(** The [Date] object for 00:00 UTC of a day, by its local day. *)
Definition localDay (day : Z) : Date := (day * 1440 + LocalTZA day) / 1440.

Definition nextDateStr (date : string) : string :=
  match parseDateOnly date with
  | Some day =>
      let eventDate := localDay day in
      let eventDate := setDate (getDate eventDate + 1) eventDate in
      formatDate eventDate
  | None => otherDate date
  end.

(** [renderWeekView] as the script runs it: the columns are the days of
    the week of the current date, and the following day of an event is
    computed by the three lines above. *)
Definition renderWeekView (currentDate : Date)
    (events : list TimelineLayout.event) : TimelineLayout.rendering :=
  TimelineLayout.renderWeekView nextDateStr (dayDates currentDate) events.

End Zone.

(** Wednesday 5 June 2024, whose week runs from Sunday 2 June to Saturday
    8 June, and two overnight events: one on Monday 3 June, and one for a
    date to be given (Saturday 1 June, the day before the week, or
    Saturday 8 June, its last day). *)
Definition june5 : Date := MakeDay 2024 5 5.

Definition mondayNight : TimelineLayout.event :=
  {| TimelineLayout.event_id := "7"%string;
     TimelineLayout.event_date := "2024-06-03"%string;
     TimelineLayout.event_time_range := "22:00-02:00"%string;
     TimelineLayout.event_title := "Deploy"%string;
     TimelineLayout.event_is_completed := false;
     TimelineLayout.event_source := "backend"%string |}.

Definition saturdayNight (date : string) : TimelineLayout.event :=
  {| TimelineLayout.event_id := "8"%string;
     TimelineLayout.event_date := date;
     TimelineLayout.event_time_range := "23:00-01:30"%string;
     TimelineLayout.event_title := "Deploy"%string;
     TimelineLayout.event_is_completed := false;
     TimelineLayout.event_source := "backend"%string |}.

End WeekDates.

(** ** The month grid *)

Module MonthView.
Import JS JSText TimelineLayout MutationGuard Calendar Navigation.
Local Open Scope string_scope.

(** The children of the month grid: the seven weekday headers, the empty
    placeholder cells, and the day cells with their number and their
    event items. *)
Inductive cell :=
  | HeaderCell (weekday : nat)
  | EmptyCell
  | DayCell (day : Z) (items : list element).

(** The date string that a day cell compares the events with. *)
Definition cellDateStr (currentDate : Date) (day : Z) : string :=
  numberToString (getFullYear currentDate) ++ "-"
  ++ padStart 2 "0" (numberToString (getMonth currentDate + 1)) ++ "-"
  ++ padStart 2 "0" (numberToString day).

Definition dayCell (currentDate : Date) (events : list event) (day : Z) : cell :=
  let currentDateStr := cellDateStr currentDate day in
  let dayEvents :=
    List.filter (fun e => String.eqb (event_date e) currentDateStr) events in
  DayCell day (map (fun e => renderEventItem e false) dayEvents).

(** [renderMonthView]; a loop whose bound is not positive adds nothing. *)
Definition renderMonthView (currentDate : Date) (events : list event)
  : list cell :=
  let firstDayOfWeek := firstDayOfWeek currentDate in
  let daysInMonth := daysInMonth currentDate in
  let totalCells := 42 in
  let remainingCells := totalCells - (firstDayOfWeek + daysInMonth) in
  map HeaderCell (seq 0 7)
  ++ repeat EmptyCell (Z.to_nat firstDayOfWeek)
  ++ map (dayCell currentDate events) (interval 1 daysInMonth)
  ++ repeat EmptyCell (Z.to_nat remainingCells).

Definition isDayCell (c : cell) : bool :=
  match c with DayCell _ _ => true | _ => false end.

End MonthView.

(** ** The page: current date, current view and loader *)

Module Page.
Import JS TimelineLayout Calendar EventLoader.
Local Open Scope string_scope.

Record page := {
  currentDate : Date;
  currentView : string;
  loading : state
}.

Definition setLoader (f : state -> state) (pg : page) : page :=
  {| currentDate := currentDate pg; currentView := currentView pg;
     loading := f (loading pg) |}.

Definition setDate (f : Date -> Date) (pg : page) : page :=
  {| currentDate := f (currentDate pg); currentView := currentView pg;
     loading := loading pg |}.

Definition setView (viewType : string) (pg : page) : page :=
  {| currentDate := currentDate pg; currentView := viewType;
     loading := loading pg |}.

(** [loadEvents] with the request URL that it builds from the current
    view and date at the time of the call. *)
Definition loadEvents (retry : bool) (pg : page) : page :=
  setLoader
    (EventLoader.loadEvents
       (Navigation.apiUrl (currentView pg) (currentDate pg)) retry)
    pg.

(** The six navigation buttons: the date is changed, the details panel is
    hidden, the date display is refreshed, and the events are asked
    for. *)
Definition navigate (f : Date -> Date) (pg : page) : page :=
  let pg := setDate f pg in
  let pg := setLoader hideDetails pg in
  loadEvents false pg.

Definition previousMonth : page -> page := navigate Navigation.previousMonth.
Definition nextMonth : page -> page := navigate Navigation.nextMonth.
Definition previousWeek : page -> page := navigate Navigation.previousWeek.
Definition nextWeek : page -> page := navigate Navigation.nextWeek.
Definition previousDay : page -> page := navigate Navigation.previousDay.
Definition nextDay : page -> page := navigate Navigation.nextDay.

(** [renderCompletedView] clears its grid and fetches the completed
    events; it neither reads nor sets the loading flag. *)
Definition renderCompletedView (pg : page) : page :=
  setLoader (issue (Fetch "/api/events/completed")) pg.

Definition switchView (viewType : string) (pg : page) : page :=
  let pg := setView viewType pg in
  if String.eqb viewType "completed" then renderCompletedView pg
  else if negb (String.eqb viewType "llm") then loadEvents false pg
  else pg.

(** The continuation of [loadEvents] for a response that is [ok] and
    parses: the events are stored and the current view is rendered, and in
    the completed view the completed events are fetched again. *)
Definition loadEvents_then (data : list event) (pg : page) : page :=
  let pg :=
    if String.eqb (currentView pg) "completed" then renderCompletedView pg
    else pg in
  setLoader (EventLoader.loadEvents_then data) pg.

(** The callback of the retry timer. *)
Definition retryTimer (pg : page) : page := loadEvents true pg.

(** The URLs of the fetches issued so far. *)
Definition fetchedUrls (pg : page) : list string :=
  flat_map (fun e => match e with Fetch url => [url] | _ => [] end)
           (effects (loading pg)).

Definition knownViews : list string :=
  ["month"; "week"; "day"; "list"; "completed"].

(** The navigation buttons with the change of date that each one makes. *)
Definition navigationButtons : list ((page -> page) * (Date -> Date)) :=
  [(previousMonth, Navigation.previousMonth);
   (nextMonth, Navigation.nextMonth);
   (previousWeek, Navigation.previousWeek);
   (nextWeek, Navigation.nextWeek);
   (previousDay, Navigation.previousDay);
   (nextDay, Navigation.nextDay)].

(** The page on 5 June 2024 in the month view, before anything is
    loaded. *)
Definition june5 : page :=
  {| currentDate := MakeDay 2024 5 5; currentView := "month";
     loading := initial |}.

End Page.

(** ** The list view and the completed view *)

Module ListViews.
Import JS TimelineLayout MutationGuard.
Local Open Scope string_scope.

(** The property names that every object inherits. Read on the object
    [eventsByDate], each of them gives a function or an object, which is
    truthy and has no [push]. *)
Definition inheritedNames : list string :=
  ["constructor"; "hasOwnProperty"; "isPrototypeOf"; "propertyIsEnumerable";
   "toLocaleString"; "toString"; "valueOf"; "__proto__";
   "__defineGetter__"; "__defineSetter__"; "__lookupGetter__";
   "__lookupSetter__"].

Definition inherited (key : string) : bool :=
  existsb (String.eqb key) inheritedNames.

(** The object [eventsByDate]: its own properties, in the order in which
    they were created, each with its array of events. *)
Definition groups : Type := list (string * list event).

Fixpoint own (key : string) (g : groups) : option (list event) :=
  match g with
  | [] => None
  | (k, es) :: r => if String.eqb k key then Some es else own key r
  end.

Fixpoint push (key : string) (e : event) (g : groups) : groups :=
  match g with
  | [] => []
  | (k, es) :: r =>
      if String.eqb k key then (k, (es ++ [e])%list) :: r
      else (k, es) :: push key e r
  end.

(** One step of the grouping loop; [None] is the [TypeError] of calling
    [push] on an inherited value. *)
Definition addEvent (acc : option groups) (e : event) : option groups :=
  match acc with
  | None => None
  | Some g =>
      match own (event_date e) g with
      | Some _ => Some (push (event_date e) e g)
      | None =>
          if inherited (event_date e) then None
          else Some (g ++ [(event_date e, [e])])%list
      end
  end.

Definition groupByDate (events : list event) : option groups :=
  fold_left addEvent events (Some []).

(** [Array.prototype.sort] without a comparison function, on strings: the
    order of the code units. *)
Fixpoint insert (x : string) (l : list string) : list string :=
  match l with
  | [] => [x]
  | y :: r => if String.leb x y then x :: l else y :: insert x r
  end.

Definition sortStrings (l : list string) : list string :=
  fold_right insert [] l.

(** The events of a date, [[]] for a date that has none. *)
Definition eventsOf (g : groups) (date : string) : list event :=
  match own date g with
  | Some es => es
  | None => []
  end.

Section Sorting.

(** [String.prototype.localeCompare], which depends on the locale: a
    negative number, zero or a positive number. *)
Variable localeCompare : string -> string -> Z.

Definition getStartTime (timeRange : string) : string :=
  trim (interpolate (index (split "-" timeRange) 0)).

Definition compareEvents (a b : event) : Z :=
  localeCompare (getStartTime (event_time_range a))
                (getStartTime (event_time_range b)).

(** [Array.prototype.sort] with a comparison function: a stable sort. *)
Fixpoint insertEvent (x : event) (l : list event) : list event :=
  match l with
  | [] => [x]
  | y :: r =>
      if (compareEvents x y <=? 0)%Z then x :: l else y :: insertEvent x r
  end.

Definition sortEvents (l : list event) : list event :=
  fold_right insertEvent [] l.

(** What a list grid shows: the message for an empty list, or the date
    groups with their date and their items. *)
Record dateGroup := {
  group_date : string;
  group_events : list event;
  group_items : list element
}.

Inductive listGrid :=
  | EmptyMessage
  | DateGroups (shown : list dateGroup).

Definition listGroup (g : groups) (date : string) : dateGroup :=
  let sorted := sortEvents (eventsOf g date) in
  {| group_date := date;
     group_events := sorted;
     group_items := map (fun e => renderEventItem e false) sorted |}.

(** [renderListView]; [None] when the grouping throws. *)
Definition renderListView (events : list event) : option listGrid :=
  match events with
  | [] => Some EmptyMessage
  | _ =>
      match groupByDate events with
      | None => None
      | Some g =>
          let sortedDates := sortStrings (map fst g) in
          Some (DateGroups (map (listGroup g) sortedDates))
      end
  end.

End Sorting.

(** The completed view marks every event it renders as completed. *)
Definition markCompleted (e : event) : event :=
  {| event_id := event_id e; event_date := event_date e;
     event_time_range := event_time_range e; event_title := event_title e;
     event_is_completed := true; event_source := event_source e |}.

Definition completedGroup (g : groups) (date : string) : dateGroup :=
  let marked := map markCompleted (eventsOf g date) in
  {| group_date := date;
     group_events := marked;
     group_items := map (fun e => renderEventItem e false) marked |}.

(** The continuation of [renderCompletedView] for the completed events
    that the server returns. *)
Definition renderCompletedView_then (completedEvents : list event)
  : option listGrid :=
  match completedEvents with
  | [] => Some EmptyMessage
  | _ =>
      match groupByDate completedEvents with
      | None => None
      | Some g =>
          let sortedDates := rev (sortStrings (map fst g)) in
          Some (DateGroups (map (completedGroup g) sortedDates))
      end
  end.

(** The events that a grid shows, in the order of the page. *)
Definition shownEvents (grid : listGrid) : list event :=
  match grid with
  | EmptyMessage => []
  | DateGroups shown => flat_map group_events shown
  end.

Definition shownDates (grid : listGrid) : list string :=
  match grid with
  | EmptyMessage => []
  | DateGroups shown => map group_date shown
  end.

Definition shownItems (grid : listGrid) : list element :=
  match grid with
  | EmptyMessage => []
  | DateGroups shown => flat_map group_items shown
  end.

(** The order of the sorted dates. *)
Definition ascending (a b : string) : Prop := String.leb a b = true.

(** A grouping in which every date occurs once and every array is not
    empty and holds events of its date. *)
Definition wellGrouped (g : groups) : Prop :=
  NoDup (map fst g) /\
  Forall (fun entry =>
            snd entry <> [] /\
            Forall (fun e => event_date e = fst entry) (snd entry)) g.

End ListViews.

(** * Theorems *)

Import JS TimelineLayout.
Local Open Scope string_scope.

(** ** Facts about the string primitives *)

Lemma split_no_sep sep s : contains sep s = false -> split sep s = [s].
Proof.
  induction s as [|c r IH]; simpl; [reflexivity|].
  intros H. apply orb_false_iff in H as [Hc Hr].
  rewrite Hc, (IH Hr). reflexivity.
Qed.

Lemma split_app sep a b :
  contains sep a = false ->
  split sep (a ++ String sep b) = a :: split sep b.
Proof.
  induction a as [|c r IH]; simpl.
  - intros _. rewrite Ascii.eqb_refl. reflexivity.
  - intros H. apply orb_false_iff in H as [Hc Hr].
    rewrite Hc, (IH Hr). reflexivity.
Qed.

Lemma split_head_no_sep sep s p ps :
  split sep s = p :: ps -> contains sep p = false.
Proof.
  revert p ps. induction s as [|c r IH]; simpl; intros p ps H.
  - injection H as <- _. reflexivity.
  - destruct (Ascii.eqb c sep) eqn:Hc.
    + injection H as <- _. reflexivity.
    + destruct (split sep r) as [|q qs] eqn:Hs.
      * injection H as <- _. simpl. rewrite Hc. reflexivity.
      * injection H as <- _. simpl. rewrite Hc. simpl. eapply IH. reflexivity.
Qed.

Lemma length_two {A} (l : list A) :
  (List.length l =? 2)%nat = true -> exists a b, l = [a; b].
Proof.
  destruct l as [|a [|b [|c l]]]; simpl; try discriminate.
  intros _. eauto.
Qed.

(** ** Enumeration over integer intervals *)

Lemma interval_In a b z : a <= z <= b -> In z (interval a b).
Proof.
  intros H. unfold interval. apply in_map_iff.
  exists (Z.to_nat (z - a)). split; [lia|].
  apply in_seq. lia.
Qed.

Lemma forallb_interval (P : Z -> bool) a b :
  forallb P (interval a b) = true -> forall z, a <= z <= b -> P z = true.
Proof.
  intros H z Hz. rewrite forallb_forall in H. apply H, interval_In, Hz.
Qed.

Lemma forallb_interval2 (P : Z -> Z -> bool) a b c d :
  forallb (fun x => forallb (P x) (interval c d)) (interval a b) = true ->
  forall x y, a <= x <= b -> c <= y <= d -> P x y = true.
Proof.
  intros H x y Hx Hy.
  apply (forallb_interval (P x) c d); [|exact Hy].
  apply (forallb_interval (fun x => forallb (P x) (interval c d)) a b H x Hx).
Qed.

(** The exact value of a number and the tolerance test, on examples. *)
Example to_Q_examples :
  (to_Q 960 == 960)%Q /\ (to_Q 1.5 == 3 # 2)%Q /\ (to_Q (-0.25) == -1 # 4)%Q /\
  nearb 960 960 = true /\ nearb 960 0 = false.
Proof. repeat split; reflexivity. Qed.

Example overnight_2200_0200 :
  isOvernightEvent "22:00-02:00" = true /\
  getCurrentDayTimeRange "22:00-02:00" = "22:00-24:00" /\
  getNextDayTimeRange "22:00-02:00" = Some "00:00-02:00".
Proof. repeat split; reflexivity. Qed.

(** ** Parsing well-formed clock times *)

#[local] Instance clockParses_dec h m : Decision (clockParses h m).
Proof. unfold clockParses. apply _. Defined.

Lemma validClock_wide h m : validClock h m -> wideClock h m.
Proof. unfold validClock, wideClock. lia. Qed.

Lemma clockParses_all h m : wideClock h m -> clockParses h m.
Proof.
  intros [Hh Hm]. apply (bool_decide_eq_true_1 (clockParses h m)).
  revert h m Hh Hm.
  apply (forallb_interval2 (fun h m => bool_decide (clockParses h m))).
  vm_compute. reflexivity.
Qed.

Lemma parseTimeString_clock h m :
  wideClock h m ->
  parseTimeString (clockString h m) = {| hour := of_Z h; minute := of_Z m |}.
Proof.
  intros H. destruct (clockParses_all h m H) as (Hs & Hh & Hm & Ht & _).
  unfold parseTimeString. rewrite Hs. cbn [index nth_error interpolate].
  rewrite Ht. unfold parseInt. rewrite Hh, Hm. reflexivity.
Qed.

Lemma split_rangeString sh sm eh em :
  wideClock sh sm -> wideClock eh em ->
  split "-" (rangeString sh sm eh em) = [clockString sh sm; clockString eh em].
Proof.
  intros Hs He.
  destruct (clockParses_all _ _ Hs) as (_ & _ & _ & _ & Cs).
  destruct (clockParses_all _ _ He) as (_ & _ & _ & _ & Ce).
  unfold rangeString. change ("-" ++ clockString eh em) with (String "-" (clockString eh em)).
  rewrite (split_app _ _ _ Cs), (split_no_sep _ _ Ce). reflexivity.
Qed.

Lemma rangeString_nonempty sh sm eh em :
  negb (truthy (rangeString sh sm eh em))
  || (String.length (rangeString sh sm eh em) =? 0)%nat = false.
Proof. reflexivity. Qed.

(** ** Number facts, by evaluation over the clock ranges *)

Lemma of_Z_ltb a b :
  0 <= a <= 59 -> 0 <= b <= 59 -> (of_Z a <? of_Z b)%float = (a <? b)%Z.
Proof.
  intros Ha Hb. apply eqb_prop. revert a b Ha Hb.
  apply (forallb_interval2
           (fun a b => Bool.eqb (of_Z a <? of_Z b)%float (a <? b)%Z)).
  vm_compute. reflexivity.
Qed.

Lemma of_Z_eqb a b :
  0 <= a <= 59 -> 0 <= b <= 59 -> (of_Z a =? of_Z b)%float = (a =? b)%Z.
Proof.
  intros Ha Hb. apply eqb_prop. revert a b Ha Hb.
  apply (forallb_interval2
           (fun a b => Bool.eqb (of_Z a =? of_Z b)%float (a =? b)%Z)).
  vm_compute. reflexivity.
Qed.

Lemma of_Z_sub a b :
  0 <= a <= 59 -> 0 <= b <= 59 -> (of_Z a - of_Z b)%float = of_Z (a - b).
Proof.
  intros Ha Hb. apply FloatAxioms.Leibniz.eqb_spec. revert a b Ha Hb.
  apply (forallb_interval2
           (fun a b => PrimFloat.Leibniz.eqb (of_Z a - of_Z b)%float (of_Z (a - b)))).
  vm_compute. reflexivity.
Qed.

(** The wrap-around branch of [calculateEventPosition] is taken exactly
    when the end is not later than the start. *)
Lemma duration_leb dh dm :
  -24 <= dh <= 24 -> -59 <= dm <= 59 ->
  (of_Z dh + of_Z dm / 60 <=? 0)%float
  = (dh <? 0)%Z || ((dh =? 0)%Z && (dm <=? 0)%Z).
Proof.
  intros Hh Hm. apply eqb_prop. revert dh dm Hh Hm.
  apply (forallb_interval2
           (fun dh dm =>
              Bool.eqb (of_Z dh + of_Z dm / 60 <=? 0)%float
                       ((dh <? 0)%Z || ((dh =? 0)%Z && (dm <=? 0)%Z)))).
  vm_compute. reflexivity.
Qed.

(** Without wrap-around the computed height is the exact one up to
    rounding. *)
Lemma duration_near dh dm :
  0 <= dh <= 24 -> -59 <= dm <= 59 ->
  near ((of_Z dh + of_Z dm / 60) * 40)%float
       ((inject_Z dh + inject_Z dm / 60) * 40)%Q.
Proof.
  intros Hh Hm. apply Qle_bool_iff. revert dh dm Hh Hm.
  apply (forallb_interval2
           (fun dh dm =>
              nearb ((of_Z dh + of_Z dm / 60) * 40)%float
                    ((inject_Z dh + inject_Z dm / 60) * 40)%Q)).
  vm_compute. reflexivity.
Qed.

(** ** The layout functions on well-formed ranges *)

Lemma isOvernightEvent_rangeString sh sm eh em :
  wideClock sh sm -> wideClock eh em ->
  isOvernightEvent (rangeString sh sm eh em)
  = (eh <? sh)%Z || ((eh =? sh)%Z && (em <? sm)%Z).
Proof.
  intros Hs He. unfold isOvernightEvent.
  rewrite rangeString_nonempty, (split_rangeString _ _ _ _ Hs He).
  cbn [List.length Nat.eqb negb index nth_error interpolate].
  rewrite (parseTimeString_clock _ _ Hs), (parseTimeString_clock _ _ He).
  cbn [hour minute]. destruct Hs, He.
  rewrite !of_Z_ltb, of_Z_eqb by lia. reflexivity.
Qed.

Lemma calculateEventPosition_rangeString sh sm eh em :
  wideClock sh sm -> wideClock eh em ->
  calculateEventPosition (rangeString sh sm eh em)
  = Some {| top := (of_Z sh + of_Z sm / 60) * 40 + 30;
            height :=
              (if (eh - sh <? 0)%Z || ((eh - sh =? 0)%Z && (em - sm <=? 0)%Z)
               then (24 - of_Z sh - of_Z sm / 60) + (of_Z eh + of_Z em / 60)
               else of_Z eh - of_Z sh + (of_Z em - of_Z sm) / 60) * 40 |}%float.
Proof.
  intros Hs He. unfold calculateEventPosition.
  rewrite rangeString_nonempty, (split_rangeString _ _ _ _ Hs He).
  cbn [List.length Nat.eqb negb index nth_error interpolate].
  rewrite (parseTimeString_clock _ _ Hs), (parseTimeString_clock _ _ He).
  cbn [hour minute]. destruct Hs, He.
  rewrite <- (duration_leb (eh - sh) (em - sm)) by lia.
  rewrite <- !of_Z_sub by lia. reflexivity.
Qed.

Lemma inject_Z_sub a b : (inject_Z (a - b) == inject_Z a - inject_Z b)%Q.
Proof.
  unfold Z.sub. rewrite inject_Z_plus, inject_Z_opp. reflexivity.
Qed.

Lemma near_eq x q q' : (q == q')%Q -> near x q -> near x q'.
Proof. unfold near. intros E H. rewrite <- E. exact H. Qed.

(** A range that ends after it starts is laid out without wrap-around. *)
Lemma height_forward sh sm eh em :
  wideClock sh sm -> wideClock eh em -> clockLt sh sm eh em ->
  exists pos,
    calculateEventPosition (rangeString sh sm eh em) = Some pos /\
    height pos = ((of_Z eh - of_Z sh + (of_Z em - of_Z sm) / 60) * 40)%float /\
    near (height pos)
         ((inject_Z eh - inject_Z sh + (inject_Z em - inject_Z sm) / 60) * 40)%Q.
Proof.
  intros Hs He Hlt. eexists. split.
  { apply calculateEventPosition_rangeString; assumption. }
  cbn [height]. destruct Hs, He.
  replace ((eh - sh <? 0)%Z || ((eh - sh =? 0)%Z && (em - sm <=? 0)%Z))
    with false by (unfold clockLt in Hlt; symmetry; apply orb_false_iff; lia).
  split; [reflexivity|].
  rewrite !of_Z_sub by lia.
  eapply near_eq; [|apply duration_near; unfold clockLt in Hlt; lia].
  rewrite !inject_Z_sub. reflexivity.
Qed.

(** *** C9 *)

(** C9. [calculateEventPosition("09:00-09:00")] returns exactly
    [{top: 390, height: 960}]: the zero-length range has
    [durationHours <= 0], the wrap-around formula gives
    [(24 - 9) + 9 = 24] hours, and the block is 960 pixels high. *)
Theorem C9_zero_length_range_is_a_full_day :
  calculateEventPosition "09:00-09:00" = Some {| top := 390; height := 960 |} /\
  (let startTime := parseTimeString "09:00" in
   let endTime := parseTimeString "09:00" in
   (hour endTime - hour startTime
    + (minute endTime - minute startTime) / 60 <=? 0) = true /\
   (24 - hour startTime - minute startTime / 60)
   + (hour endTime + minute endTime / 60) = 24 /\
   24 * 40 = 960)%float.
Proof. repeat split; reflexivity. Qed.

(** *** C3 *)

(** C3, counterexample. ["09:00-09:00"] is a valid range whose end is
    greater than or equal to its start, and it is not overnight, but its
    height is 960 and not the claimed
    [(9 + 0/60 - 9 - 0/60) * 40 = 0]. Besides, on a range that ends after
    it starts the two orders of operations can round differently:
    ["00:01-00:03"] is laid out 1.3333333333333333 pixels high, and the
    claimed expression evaluates to 1.3333333333333335. *)
Lemma C3_counterexample_zero_length :
  (validClock 9 0 /\ ~ clockLt 9 0 9 0 /\
   rangeString 9 0 9 0 = "09:00-09:00" /\
   isOvernightEvent "09:00-09:00" = false /\
   claimedHeight 9 0 9 0 = 0%float /\
   (exactHeight 9 0 9 0 == 0)%Q /\
   exists pos,
     calculateEventPosition "09:00-09:00" = Some pos /\
     height pos = 960%float /\
     height pos <> claimedHeight 9 0 9 0) /\
  (validClock 0 1 /\ validClock 0 3 /\ clockLt 0 1 0 3 /\
   rangeString 0 1 0 3 = "00:01-00:03" /\
   exists pos,
     calculateEventPosition "00:01-00:03" = Some pos /\
     height pos = 0x1.5555555555555p+0%float /\
     claimedHeight 0 1 0 3 = 0x1.5555555555556p+0%float /\
     height pos <> claimedHeight 0 1 0 3).
Proof.
  split.
  - split; [unfold validClock; lia|].
    split; [unfold clockLt; lia|].
    do 4 (split; [reflexivity|]).
    eexists. split; [reflexivity|]. split; [reflexivity|].
    intros H. apply (f_equal (fun x => (x =? 0)%float)) in H.
    vm_compute in H. discriminate H.
  - split; [unfold validClock; lia|].
    split; [unfold validClock; lia|].
    split; [unfold clockLt; lia|].
    split; [reflexivity|].
    eexists. split; [reflexivity|]. split; [reflexivity|].
    split; [reflexivity|].
    intros H.
    apply (f_equal (fun x => (x =? 0x1.5555555555555p+0)%float)) in H.
    vm_compute in H. discriminate H.
Qed.

(** A zero-length range is laid out by the wrap-around formula, which
    gives a full day for every clock time. *)
Lemma height_zero_length h m :
  validClock h m ->
  (((24 - of_Z h - of_Z m / 60) + (of_Z h + of_Z m / 60)) * 40 = 960)%float.
Proof.
  intros [Hh Hm]. apply FloatAxioms.Leibniz.eqb_spec. revert h m Hh Hm.
  apply (forallb_interval2
           (fun h m =>
              PrimFloat.Leibniz.eqb
                (((24 - of_Z h - of_Z m / 60) + (of_Z h + of_Z m / 60)) * 40)%float
                960%float)).
  vm_compute. reflexivity.
Qed.

(** C3, amended. For every valid ["HH:MM-HH:MM"] whose end is greater
    than or equal to its start, [isOvernightEvent] returns false and
    [calculateEventPosition] returns a record. When the end is strictly
    later than the start, the height of the record is
    [((endHour - startHour) + (endMinute - startMinute)/60) * 40] in number
    arithmetic, with no wrap-around; that number is the claimed
    [(endHour + endMinute/60 - startHour - startMinute/60) * 40] up to
    rounding (within [2^-40] of its exact value). When the end equals the
    start, the height is 960. *)
Theorem C3_height_of_forward_range sh sm eh em :
  validClock sh sm -> validClock eh em -> ~ clockLt eh em sh sm ->
  isOvernightEvent (rangeString sh sm eh em) = false /\
  exists pos,
    calculateEventPosition (rangeString sh sm eh em) = Some pos /\
    (clockLt sh sm eh em ->
     height pos = ((of_Z eh - of_Z sh + (of_Z em - of_Z sm) / 60) * 40)%float /\
     near (height pos) (exactHeight sh sm eh em)) /\
    (eh = sh /\ em = sm -> height pos = 960%float).
Proof.
  intros Hs He Hge.
  pose proof (validClock_wide _ _ Hs) as Ws.
  pose proof (validClock_wide _ _ He) as We.
  split.
  - rewrite (isOvernightEvent_rangeString _ _ _ _ Ws We).
    unfold clockLt in Hge. apply orb_false_iff. lia.
  - eexists. split; [apply calculateEventPosition_rangeString; assumption|].
    split.
    + intros Hlt.
      destruct (height_forward sh sm eh em Ws We Hlt) as (pos & Hp & Hh & Hn).
      rewrite (calculateEventPosition_rangeString _ _ _ _ Ws We) in Hp.
      injection Hp as <-. split; [exact Hh|].
      eapply near_eq; [|exact Hn]. unfold exactHeight. field.
    + intros [-> ->]. cbn [height].
      replace ((sh - sh <? 0)%Z || ((sh - sh =? 0)%Z && (sm - sm <=? 0)%Z))
        with true by (symmetry; apply orb_true_iff; lia).
      apply height_zero_length, Hs.
Qed.

Lemma C3_height_of_forward_range_witness :
  (isOvernightEvent "09:00-17:30" = false /\
   exists pos,
     calculateEventPosition "09:00-17:30" = Some pos /\
     height pos = ((of_Z 17 - of_Z 9 + (of_Z 30 - of_Z 0) / 60) * 40)%float /\
     near (height pos) (exactHeight 9 0 17 30)) /\
  (isOvernightEvent "12:15-12:15" = false /\
   exists pos,
     calculateEventPosition "12:15-12:15" = Some pos /\
     height pos = 960%float).
Proof.
  split.
  - destruct (C3_height_of_forward_range 9 0 17 30)
      as (A & pos & Hp & Hf & _);
      [unfold validClock; lia | unfold validClock; lia | unfold clockLt; lia|].
    split; [exact A|]. exists pos. split; [exact Hp|].
    apply Hf. unfold clockLt. lia.
  - destruct (C3_height_of_forward_range 12 15 12 15)
      as (A & pos & Hp & _ & Hz);
      [unfold validClock; lia | unfold validClock; lia | unfold clockLt; lia|].
    split; [exact A|]. exists pos. split; [exact Hp|].
    apply Hz. split; reflexivity.
Defined.

(** *** C4 *)

(** C4, counterexample. ["22:00-00:00"] is a valid overnight range; its two
    split ranges are ["22:00-24:00"], 80 pixels high, and ["00:00-00:00"],
    which is zero-length and therefore 960 pixels high: the heights sum to
    1040, not to the wrap-around duration [((24 - 22) + 0) * 40 = 80].
    Besides, the sum is a rounded one: the blocks of ["00:06-00:01"] are
    956 and 0.6666666666666666 pixels high and sum to 956.6666666666666,
    and the claimed expression evaluates to 956.6666666666665. *)
Lemma C4_counterexample_end_at_midnight :
  (validClock 22 0 /\ validClock 0 0 /\ clockLt 0 0 22 0 /\
   rangeString 22 0 0 0 = "22:00-00:00" /\
   isOvernightEvent "22:00-00:00" = true /\
   getCurrentDayTimeRange "22:00-00:00" = "22:00-24:00" /\
   getNextDayTimeRange "22:00-00:00" = Some "00:00-00:00" /\
   calculateEventPosition "22:00-24:00" = Some {| top := 910; height := 80 |} /\
   calculateEventPosition "00:00-00:00" = Some {| top := 30; height := 960 |} /\
   claimedWrapHeight 22 0 0 0 = 80%float /\
   (exactWrapHeight 22 0 0 0 == 80)%Q /\
   (80 + 960 =? claimedWrapHeight 22 0 0 0)%float = false) /\
  (validClock 0 6 /\ validClock 0 1 /\ clockLt 0 1 0 6 /\
   getCurrentDayTimeRange "00:06-00:01" = "00:06-24:00" /\
   getNextDayTimeRange "00:06-00:01" = Some "00:00-00:01" /\
   exists today tomorrow,
     calculateEventPosition "00:06-24:00" = Some today /\
     calculateEventPosition "00:00-00:01" = Some tomorrow /\
     height today = 956%float /\
     height tomorrow = 0x1.5555555555555p-1%float /\
     (height today + height tomorrow = 0x1.de55555555555p+9)%float /\
     claimedWrapHeight 0 6 0 1 = 0x1.de55555555554p+9%float /\
     (height today + height tomorrow =? claimedWrapHeight 0 6 0 1)%float
     = false).
Proof.
  split.
  - split; [unfold validClock; lia|].
    split; [unfold validClock; lia|].
    split; [unfold clockLt; lia|].
    repeat split; reflexivity.
  - split; [unfold validClock; lia|].
    split; [unfold validClock; lia|].
    split; [unfold clockLt; lia|].
    do 2 (split; [reflexivity|]).
    eexists. eexists. repeat split; reflexivity.
Qed.

(** C4, amended. For every valid range whose end is strictly earlier than
    its start, [isOvernightEvent] returns true, [getCurrentDayTimeRange]
    returns the start token followed by ["-24:00"] and
    [getNextDayTimeRange] returns ["00:00-"] followed by the end token;
    and when the end token is not ["00:00"], both split ranges are
    positioned without wrap-around, with heights
    [(24 - startHour + (0 - startMinute)/60) * 40] and
    [(endHour - 0 + (endMinute - 0)/60) * 40], whose sum is the wrap-around
    duration [((24 - start) + end) * 40] up to rounding. *)
Theorem C4_overnight_split sh sm eh em :
  validClock sh sm -> validClock eh em -> clockLt eh em sh sm ->
  let timeRange := rangeString sh sm eh em in
  isOvernightEvent timeRange = true /\
  getCurrentDayTimeRange timeRange = clockString sh sm ++ "-24:00" /\
  getNextDayTimeRange timeRange = Some ("00:00-" ++ clockString eh em) /\
  ((eh, em) <> (0, 0) ->
   exists today tomorrow,
     calculateEventPosition (clockString sh sm ++ "-24:00") = Some today /\
     calculateEventPosition ("00:00-" ++ clockString eh em) = Some tomorrow /\
     height today = ((24 - of_Z sh + (0 - of_Z sm) / 60) * 40)%float /\
     height tomorrow = ((of_Z eh - 0 + (of_Z em - 0) / 60) * 40)%float /\
     (Qabs (to_Q (height today) + to_Q (height tomorrow)
            - exactWrapHeight sh sm eh em) <= 2 * tolerance)%Q).
Proof.
  intros Hs He Hlt timeRange. subst timeRange.
  pose proof (validClock_wide _ _ Hs) as Ws.
  pose proof (validClock_wide _ _ He) as We.
  assert (Hov : isOvernightEvent (rangeString sh sm eh em) = true).
  { rewrite (isOvernightEvent_rangeString _ _ _ _ Ws We).
    unfold clockLt in Hlt. apply orb_true_iff. lia. }
  split; [exact Hov|].
  split.
  { unfold getCurrentDayTimeRange. rewrite Hov, (split_rangeString _ _ _ _ Ws We).
    reflexivity. }
  split.
  { unfold getNextDayTimeRange. rewrite Hov, (split_rangeString _ _ _ _ Ws We).
    reflexivity. }
  intros Hne.
  assert (Hpos : 0 < eh \/ 0 < em).
  { destruct He. destruct (Z.eq_dec eh 0), (Z.eq_dec em 0); try lia.
    subst. contradiction Hne. reflexivity. }
  assert (W24 : wideClock 24 0) by (unfold wideClock; lia).
  assert (W0 : wideClock 0 0) by (unfold wideClock; lia).
  destruct (height_forward sh sm 24 0 Ws W24) as (today & Ht & Hth & Htn).
  { destruct Hs. unfold clockLt. lia. }
  destruct (height_forward 0 0 eh em W0 We) as (tomorrow & Hm & Hmh & Hmn).
  { destruct He. unfold clockLt. lia. }
  exists today, tomorrow.
  split; [exact Ht|]. split; [exact Hm|].
  split; [exact Hth|]. split; [exact Hmh|].
  unfold near in Htn, Hmn.
  set (a := to_Q (height today)) in *. set (b := to_Q (height tomorrow)) in *.
  set (x := ((inject_Z 24 - inject_Z sh + (inject_Z 0 - inject_Z sm) / 60) * 40)%Q) in *.
  set (y := ((inject_Z eh - inject_Z 0 + (inject_Z em - inject_Z 0) / 60) * 40)%Q) in *.
  assert (E : (a + b - exactWrapHeight sh sm eh em == (a - x) + (b - y))%Q).
  { unfold exactWrapHeight, x, y. field. }
  rewrite E.
  eapply Qle_trans; [apply Qabs_triangle|].
  assert (T : (2 * tolerance == tolerance + tolerance)%Q) by ring.
  rewrite T. apply Qplus_le_compat; assumption.
Qed.

Lemma C4_overnight_split_witness :
  isOvernightEvent "22:00-02:00" = true /\
  getCurrentDayTimeRange "22:00-02:00" = "22:00-24:00" /\
  getNextDayTimeRange "22:00-02:00" = Some "00:00-02:00" /\
  exists today tomorrow,
    calculateEventPosition "22:00-24:00" = Some today /\
    calculateEventPosition "00:00-02:00" = Some tomorrow /\
    height today = 80%float /\
    height tomorrow = 80%float /\
    (height today + height tomorrow = 160)%float /\
    (Qabs (to_Q (height today) + to_Q (height tomorrow)
           - exactWrapHeight 22 0 2 0) <= 2 * tolerance)%Q.
Proof.
  destruct (C4_overnight_split 22 0 2 0) as (A & B & C & D);
    [unfold validClock; lia | unfold validClock; lia | unfold clockLt; lia |].
  split; [exact A|]. split; [exact B|]. split; [exact C|].
  destruct D as (today & tomorrow & Ht & Hm & Hth & Hmh & Hq); [discriminate|].
  exists today, tomorrow.
  split; [exact Ht|]. split; [exact Hm|].
  split; [rewrite Hth; reflexivity|]. split; [rewrite Hmh; reflexivity|].
  split; [rewrite Hth, Hmh; reflexivity | exact Hq].
Defined.

(** The example of the testable properties: the blocks of ["22:00-02:00"]
    are 80 pixels each and sum to exactly 160. *)
Example heights_2200_0200 :
  calculateEventPosition "22:00-24:00" = Some {| top := 910; height := 80 |} /\
  calculateEventPosition "00:00-02:00" = Some {| top := 30; height := 80 |} /\
  (80 + 80 = 160)%float /\ claimedWrapHeight 22 0 2 0 = 160%float.
Proof. repeat split; reflexivity. Qed.

(** *** C10 *)

(** The mantissas of 23 and 24, which have the same exponent. *)
Lemma mantissa_23_24 (m : positive) :
  match Pos.compare_cont Eq m 6473924464345088 with
  | Gt => false
  | _ => true
  end = true ->
  Pos.compare_cont Eq 6755399441055744 m = Gt.
Proof.
  intros H.
  assert (Hm : (m <= 6473924464345088)%positive).
  { unfold Pos.le.
    change (m ?= 6473924464345088)%positive
      with (Pos.compare_cont Eq m 6473924464345088).
    destruct (Pos.compare_cont Eq m 6473924464345088); discriminate. }
  apply Pos.compare_gt_iff.
  apply Pos.le_lt_trans with (1 := Hm). reflexivity.
Qed.

(** A number that is at most 23 is neither equal to 24 nor above it. *)
Lemma leb_23_below_24 (x : number) :
  (x <=? 23)%float = true ->
  (24 <? x)%float = false /\ (24 =? x)%float = false.
Proof.
  rewrite FloatAxioms.leb_spec, FloatAxioms.ltb_spec, FloatAxioms.eqb_spec.
  set (c23 := Prim2SF 23). vm_compute in c23. subst c23.
  set (c24 := Prim2SF 24). vm_compute in c24. subst c24.
  unfold SFleb, SFltb, SFeqb.
  destruct (Prim2SF x) as [s|s| |s m e]; cbn [SFcompare].
  - auto.
  - destruct s; [auto | discriminate].
  - discriminate.
  - destruct s; [auto|].
    rewrite (Z.compare_antisym e (-48)).
    destruct (e ?= -48)%Z; cbn [CompOpp]; [|auto|discriminate].
    intros H. rewrite (mantissa_23_24 m H). auto.
Qed.

(** When the range is overnight its split has exactly two parts, and the
    first part has no separator in it. *)
Lemma isOvernightEvent_parts timeRange :
  isOvernightEvent timeRange = true ->
  exists startToken endToken,
    split "-" timeRange = [startToken; endToken] /\
    contains "-" startToken = false.
Proof.
  unfold isOvernightEvent.
  destruct (negb (truthy timeRange) || (String.length timeRange =? 0)%nat);
    [discriminate|].
  destruct (negb (List.length (split "-" timeRange) =? 2)%nat) eqn:Hl;
    [discriminate|].
  intros _. apply negb_false_iff, length_two in Hl as (a & b & Hs).
  exists a, b. split; [exact Hs|]. eapply split_head_no_sep, Hs.
Qed.

Lemma split_current_day startToken :
  contains "-" startToken = false ->
  split "-" (startToken ++ "-24:00") = [startToken; "24:00"].
Proof.
  intros H. change (startToken ++ "-24:00") with (startToken ++ String "-" "24:00").
  rewrite (split_app _ _ _ H). reflexivity.
Qed.

(** The output of [getCurrentDayTimeRange] is the input or a range ending
    in the token ["24:00"]. *)
Lemma getCurrentDayTimeRange_shape timeRange :
  getCurrentDayTimeRange timeRange = timeRange \/
  exists startToken,
    contains "-" startToken = false /\
    getCurrentDayTimeRange timeRange = startToken ++ "-24:00".
Proof.
  unfold getCurrentDayTimeRange.
  destruct (isOvernightEvent timeRange) eqn:Hov; [right|left; reflexivity].
  destruct (isOvernightEvent_parts _ Hov) as (a & b & Hs & Ha).
  exists a. split; [exact Ha|]. cbn [negb]. rewrite Hs. reflexivity.
Qed.

(** C10. [getCurrentDayTimeRange] is idempotent on every string: its
    output is the input unchanged or a range ending in the token
    ["24:00"], and [isOvernightEvent] does not classify such a range as
    overnight when its start hour is at most 23. *)
Theorem C10_getCurrentDayTimeRange_idempotent :
  (forall timeRange,
     getCurrentDayTimeRange (getCurrentDayTimeRange timeRange)
     = getCurrentDayTimeRange timeRange) /\
  (forall timeRange,
     getCurrentDayTimeRange timeRange = timeRange \/
     exists startToken,
       contains "-" startToken = false /\
       getCurrentDayTimeRange timeRange = startToken ++ "-24:00") /\
  (forall startToken,
     contains "-" startToken = false ->
     (hour (parseTimeString startToken) <=? 23)%float = true ->
     isOvernightEvent (startToken ++ "-24:00") = false).
Proof.
  split; [|split].
  - intros timeRange.
    destruct (getCurrentDayTimeRange_shape timeRange) as [E | (a & Ha & E)];
      rewrite E; [exact E|].
    unfold getCurrentDayTimeRange.
    destruct (isOvernightEvent (a ++ "-24:00")); cbn [negb]; [|reflexivity].
    rewrite (split_current_day _ Ha). reflexivity.
  - exact getCurrentDayTimeRange_shape.
  - intros a Ha Hh. unfold isOvernightEvent.
    destruct (negb (truthy (a ++ "-24:00"))
              || (String.length (a ++ "-24:00") =? 0)%nat); [reflexivity|].
    rewrite (split_current_day _ Ha).
    cbn [List.length Nat.eqb negb index nth_error interpolate].
    change (hour (parseTimeString "24:00")) with 24%float.
    destruct (leb_23_below_24 _ Hh) as [Hlt Heq].
    rewrite Hlt, Heq. reflexivity.
Qed.

(** *** C6 *)

Lemma wrongTokenCount_not_positioned timeRange :
  wrongTokenCount timeRange ->
  isOvernightEvent timeRange = false /\ calculateEventPosition timeRange = None.
Proof.
  unfold isOvernightEvent, calculateEventPosition. intros [E | Hn].
  - subst timeRange. split; reflexivity.
  - destruct (negb (truthy timeRange) || (String.length timeRange =? 0)%nat);
      [split; reflexivity|].
    apply Nat.eqb_neq in Hn. rewrite Hn. split; reflexivity.
Qed.

(** C6, counterexample. The time range ["all-day"] has two tokens, neither
    of which parses as a clock time (the hours are NaN), yet
    [calculateEventPosition] returns a record, with NaN geometry, and the
    day view creates a block for the event. *)
Lemma C6_counterexample_unparseable_tokens :
  let e := {| event_id := "7"; event_date := "2024-06-03";
              event_time_range := "all-day"; event_title := "Offsite";
              event_is_completed := false; event_source := "backend" |} in
  is_nan (hour (parseTimeString "all")) = true /\
  is_nan (hour (parseTimeString "day")) = true /\
  calculateEventPosition (event_time_range e)
  = Some {| top := nan; height := nan |} /\
  blocks (renderDayView "2024-06-03" "2024-06-02" [e])
  = [{| block_event := e; block_column := 0;
        block_top := nan; block_height := nan;
        block_content := OwnDayLabel "all-day" "Offsite" |}].
Proof. repeat split; reflexivity. Qed.

(** C6, amended. For every event whose time range is empty or does not
    split into exactly two tokens on ["-"], [calculateEventPosition] yields
    null, neither pass of the week view and neither pass of the day view
    creates a block for it, and the timeline views show no message to the
    user. *)
Theorem C6_wrong_token_count_is_skipped
    (nextDate : string -> string) (e : event) :
  wrongTokenCount (event_time_range e) ->
  calculateEventPosition (event_time_range e) = None /\
  (forall dayDates,
     weekOwnDay dayDates e = [] /\ weekFollowingDay nextDate dayDates e = []) /\
  dayOwnDay e = [] /\ dayPreviousDay e = [] /\
  (forall dayDates events,
     ~ In e (map block_event (blocks (renderWeekView nextDate dayDates events)))
     /\ shown (renderWeekView nextDate dayDates events) = []) /\
  (forall currentDateStr prevDateStr events,
     ~ In e (map block_event
               (blocks (renderDayView currentDateStr prevDateStr events)))
     /\ shown (renderDayView currentDateStr prevDateStr events) = []).
Proof.
  intros Hw. destruct (wrongTokenCount_not_positioned _ Hw) as [Hov Hpos].
  assert (Hweek : forall dayDates,
             weekOwnDay dayDates e = [] /\ weekFollowingDay nextDate dayDates e = []).
  { intros dayDates. unfold weekOwnDay, weekFollowingDay. rewrite Hov, Hpos.
    split; [|reflexivity].
    destruct (indexOf dayDates (event_date e)); reflexivity. }
  assert (Hday : dayOwnDay e = [] /\ dayPreviousDay e = []).
  { unfold dayOwnDay, dayPreviousDay. rewrite Hov, Hpos. split; reflexivity. }
  split; [exact Hpos|]. split; [exact Hweek|].
  split; [apply Hday|]. split; [apply Hday|].
  assert (Hplaced : forall e' column label p b,
             In b (placed e' column label p) -> block_event b = e').
  { intros e' column label [pos|] b; simpl; [|contradiction].
    intros [<-|[]]. reflexivity. }
  assert (Hown : forall dayDates e' b,
             In b (weekOwnDay dayDates e') -> block_event b = e').
  { intros dayDates e' b. unfold weekOwnDay.
    destruct (indexOf dayDates (event_date e')); [|contradiction].
    rewrite in_app_iff. intros [H|H]; [eapply Hplaced, H|].
    destruct (isOvernightEvent (event_time_range e') && (n <? 6)%nat);
      [eapply Hplaced, H | contradiction]. }
  assert (Hfol : forall dayDates e' b,
             In b (weekFollowingDay nextDate dayDates e') -> block_event b = e').
  { intros dayDates e' b. unfold weekFollowingDay.
    destruct (negb (isOvernightEvent (event_time_range e'))); [contradiction|].
    destruct (indexOf dayDates (nextDate (event_date e'))); [|contradiction].
    apply Hplaced. }
  assert (Hdo : forall e' b, In b (dayOwnDay e') -> block_event b = e').
  { intros e' b. unfold dayOwnDay. apply Hplaced. }
  assert (Hdp : forall e' b, In b (dayPreviousDay e') -> block_event b = e').
  { intros e' b. unfold dayPreviousDay.
    destruct (isOvernightEvent (event_time_range e')); [apply Hplaced|contradiction]. }
  split.
  - intros dayDates events. split; [|reflexivity].
    rewrite in_map_iff. intros (b & Hb & Hin). cbn [blocks renderWeekView] in Hin.
    rewrite in_app_iff, !in_flat_map in Hin.
    destruct Hin as [(e' & _ & Hin) | (e' & _ & Hin)].
    + pose proof (Hown _ _ _ Hin) as E. rewrite Hb in E. subst e'.
      rewrite (proj1 (Hweek dayDates)) in Hin. contradiction.
    + pose proof (Hfol _ _ _ Hin) as E. rewrite Hb in E. subst e'.
      rewrite (proj2 (Hweek dayDates)) in Hin. contradiction.
  - intros currentDateStr prevDateStr events. split; [|reflexivity].
    rewrite in_map_iff. intros (b & Hb & Hin). cbn [blocks renderDayView] in Hin.
    rewrite in_app_iff, !in_flat_map in Hin.
    destruct Hin as [(e' & _ & Hin) | (e' & _ & Hin)].
    + pose proof (Hdo _ _ Hin) as E. rewrite Hb in E. subst e'.
      rewrite (proj1 Hday) in Hin. contradiction.
    + pose proof (Hdp _ _ Hin) as E. rewrite Hb in E. subst e'.
      rewrite (proj2 Hday) in Hin. contradiction.
Qed.

Lemma C6_wrong_token_count_is_skipped_witness :
  let e := {| event_id := "7"; event_date := "2024-06-03";
              event_time_range := "09:00"; event_title := "Standup";
              event_is_completed := false; event_source := "backend" |} in
  calculateEventPosition "09:00" = None /\
  blocks (renderDayView "2024-06-03" "2024-06-02" [e]) = [] /\
  ~ In e (map block_event
            (blocks (renderWeekView (fun d => d) ["2024-06-02"; "2024-06-03"] [e]))).
Proof.
  intros e.
  destruct (C6_wrong_token_count_is_skipped (fun d => d) e)
    as (A & _ & _ & _ & B & _).
  { right. vm_compute. discriminate. }
  split; [exact A|]. split; [reflexivity|].
  apply (B ["2024-06-02"; "2024-06-03"] [e]).
Defined.

(** ** MutationGuard *)

Section GuardFacts.
Import MutationGuard.

Context {engine : SelectorEngine}.
Variable today : string.

Lemma has_true s x : has s x = true <-> x ∈ s.
Proof. unfold has. apply bool_decide_eq_true. Qed.

Lemma has_false s x : has s x = false <-> x ∉ s.
Proof. unfold has. apply bool_decide_eq_false. Qed.

Lemma in_add x y s : x ∈ add y s <-> x = y \/ x ∈ s.
Proof. unfold add. rewrite elem_of_union, elem_of_singleton. reflexivity. Qed.

Lemma in_delete x y s : x ∈ delete y s <-> x ∈ s /\ x <> y.
Proof. unfold delete. rewrite elem_of_difference, elem_of_singleton. reflexivity. Qed.

Lemma in_add_same x s : x ∈ add x s.
Proof. apply in_add. left. reflexivity. Qed.

Lemma in_add_old x y s : x ∈ s -> x ∈ add y s.
Proof. intros H. apply in_add. right. exact H. Qed.

Lemma in_delete_other x y s : y <> x -> x ∈ s -> x ∈ delete y s.
Proof. intros Hne H. apply in_delete. split; [exact H | congruence]. Qed.

Lemma not_in_delete x s : x ∉ delete x s.
Proof. intros H. apply in_delete in H as [_ H]. apply H. reflexivity. Qed.

Lemma length_append (a b : string) :
  String.length (a ++ b) = (String.length a + String.length b)%nat.
Proof.
  induction a as [|c a IH]; [reflexivity|].
  change (S (String.length (a ++ b)) = S (String.length a + String.length b)).
  f_equal. exact IH.
Qed.

Lemma append_cancel_tail (a b t : string) : a ++ t = b ++ t -> a = b.
Proof.
  revert b. induction a as [|c a IH]; intros [|d b] H.
  - reflexivity.
  - apply (f_equal String.length) in H.
    change (String.length t = S (String.length (b ++ t))) in H.
    rewrite length_append in H. lia.
  - apply (f_equal String.length) in H.
    change (S (String.length (a ++ t)) = String.length t) in H.
    rewrite length_append in H. lia.
  - change (String c (a ++ t) = String d (b ++ t)) in H.
    injection H as -> H. f_equal. apply IH, H.
Qed.

Lemma append_cancel_head (p a b : string) : p ++ a = p ++ b -> a = b.
Proof.
  induction p as [|c p IH]; intros H; [exact H|].
  change (String c (p ++ a) = String c (p ++ b)) in H.
  injection H as H. apply IH, H.
Qed.

Lemma isCompletePost_other eventId other completed date :
  other <> eventId ->
  isCompletePost eventId
    (Fetch "POST" ("/api/events/" ++ other ++ "/complete")
           (Some {| body_completed := completed; body_date := date |})) = false.
Proof.
  intros Hne. cbn [isCompletePost]. apply andb_false_iff. right.
  apply String.eqb_neq. intros H. apply Hne.
  exact (append_cancel_tail _ _ _ (append_cancel_head _ _ _ H)).
Qed.

Lemma isCompletePost_same eventId body :
  isCompletePost eventId
    (Fetch "POST" ("/api/events/" ++ eventId ++ "/complete") body) = true.
Proof. unfold isCompletePost. rewrite !String.eqb_refl. reflexivity. Qed.

Lemma countOf_one p e : countOf p [e] = if p e then 1%nat else 0%nat.
Proof. unfold countOf. cbn [List.filter]. destruct (p e); reflexivity. Qed.

Lemma countOf_app p a b :
  countOf p (a ++ b)%list = (countOf p a + countOf p b)%nat.
Proof. unfold countOf. rewrite List.filter_app, List.length_app. reflexivity. Qed.

Lemma countOf_timers p nodes :
  (forall node, p (SetTimeout (RemoveElement node) 500) = false) ->
  countOf p (map (fun node => SetTimeout (RemoveElement node) 500) nodes) = 0%nat.
Proof.
  intros H. unfold countOf. induction nodes as [|n r IH]; cbn; [reflexivity|].
  rewrite H. exact IH.
Qed.

(** *** The selection of a plain id *)

Lemma updateNode_at f (pre : list element) el r :
  updateNode (List.length pre) f (pre ++ el :: r)%list = (pre ++ f el :: r)%list.
Proof.
  induction pre as [|x pre IH]; [reflexivity|].
  cbn [List.length app updateNode]. rewrite IH. reflexivity.
Qed.

Lemma updateNodes_selected f p doc : forall pre,
  updateNodes f (selectFrom (List.length pre) p doc) (pre ++ doc)%list
  = (pre ++ updateAll p f doc)%list.
Proof.
  induction doc as [|el r IH]; intros pre; [reflexivity|].
  assert (Hr : forall x,
             updateNodes f (selectFrom (S (List.length pre)) p r)
                         (pre ++ x :: r)%list
             = (pre ++ x :: updateAll p f r)%list).
  { intros x. specialize (IH (pre ++ [x])%list).
    rewrite List.length_app, Nat.add_1_r, <- !app_assoc in IH. exact IH. }
  cbn [selectFrom updateAll map]. destruct (p el).
  - unfold updateNodes. cbn [fold_left]. rewrite updateNode_at. apply Hr.
  - apply Hr.
Qed.

Lemma updateNodes_querySelectorAll f p doc :
  updateNodes f (querySelectorAll p doc) doc = updateAll p f doc.
Proof. exact (updateNodes_selected f p doc []). Qed.

Lemma first_selected p doc : forall pre : list element,
  match selectFrom (List.length pre) p doc with
  | [] => None
  | node :: _ => nth_error (pre ++ doc)%list node
  end = List.find p doc.
Proof.
  induction doc as [|el r IH]; intros pre; [reflexivity|].
  cbn [selectFrom List.find]. destruct (p el).
  - rewrite nth_error_app2 by lia. rewrite Nat.sub_diag. reflexivity.
  - specialize (IH (pre ++ [el])%list).
    rewrite List.length_app, Nat.add_1_r, <- app_assoc in IH. exact IH.
Qed.

Lemma querySelectorAllEvent_plain eventId doc :
  selectorClass eventId = PlainId ->
  querySelectorAllEvent eventId doc
  = Some (querySelectorAll (matchesEvent eventId) doc).
Proof. intros H. unfold querySelectorAllEvent. rewrite H. reflexivity. Qed.

Lemma querySelectorEvent_plain eventId doc :
  selectorClass eventId = PlainId ->
  querySelectorEvent eventId doc = Some (List.find (matchesEvent eventId) doc).
Proof.
  intros H. unfold querySelectorEvent.
  rewrite (querySelectorAllEvent_plain _ _ H). unfold querySelectorAll.
  pose proof (first_selected (matchesEvent eventId) doc []) as F.
  cbn [List.length app] in F. rewrite <- F.
  destruct (selectFrom 0 (matchesEvent eventId) doc); reflexivity.
Qed.

Lemma fadeMatching_plain completing eventId st :
  selectorClass eventId = PlainId ->
  fadeMatching completing eventId st
  = Some (issueAll
            (map (fun node => SetTimeout (RemoveElement node) 500)
                 (querySelectorAll (matchesEvent eventId) (document st)))
            (setDocument (updateAll (matchesEvent eventId) (fade completing))
                         st)).
Proof.
  intros H. unfold fadeMatching. rewrite (querySelectorAllEvent_plain _ _ H).
  unfold fadeNodes, setDocument. rewrite updateNodes_querySelectorAll.
  reflexivity.
Qed.

(** What an accepted call of [markEventCompleted] does for a plain id. *)
Lemma markEventCompleted_accepted st eventId completed :
  selectorClass eventId = PlainId ->
  eventId ∉ completedEvents st -> eventId ∉ processingEvents st ->
  exists st' date,
    markEventCompleted today eventId completed st
    = issue (Fetch "POST" ("/api/events/" ++ eventId ++ "/complete")
                   (Some {| body_completed := completed; body_date := date |}))
            st' /\
    processingEvents st' = add eventId (processingEvents st) /\
    completedEvents st' = add eventId (completedEvents st) /\
    effects st'
    = (effects st
       ++ map (fun node => SetTimeout (RemoveElement node) 500)
              (querySelectorAll (matchesEvent eventId) (document st)))%list /\
    document st'
    = updateAll (matchesEvent eventId) (fade true) (document st).
Proof.
  intros Hs Hc Hp. unfold markEventCompleted.
  apply has_false in Hc. apply has_false in Hp. rewrite Hc, Hp.
  rewrite (fadeMatching_plain _ _ _ Hs), (querySelectorEvent_plain _ _ Hs).
  eexists. eexists. split; [reflexivity|]. repeat split.
Qed.

Lemma markEventCompleted_rejected st eventId completed :
  eventId ∈ completedEvents st \/ eventId ∈ processingEvents st ->
  markEventCompleted today eventId completed st = st.
Proof.
  unfold markEventCompleted. intros [H|H]; apply has_true in H.
  - rewrite H. reflexivity.
  - rewrite H. destruct (has (completedEvents st) eventId); reflexivity.
Qed.

(** What an accepted call does for any id: the id enters the processing
    set; removal timers may be set, and after them at most the request of
    the call is issued; the settled set gains at most the id. *)
Lemma markEventCompleted_started st eventId completed :
  eventId ∉ completedEvents st -> eventId ∉ processingEvents st ->
  let st' := markEventCompleted today eventId completed st in
  processingEvents st' = add eventId (processingEvents st) /\
  (completedEvents st' = completedEvents st \/
   completedEvents st' = add eventId (completedEvents st)) /\
  exists nodes requests,
    effects st'
    = (effects st
       ++ map (fun node => SetTimeout (RemoveElement node) 500) nodes
       ++ requests)%list /\
    (requests = [] \/
     exists date,
       requests
       = [Fetch "POST" ("/api/events/" ++ eventId ++ "/complete")
                (Some {| body_completed := completed; body_date := date |})]).
Proof.
  intros Hc Hp st'. subst st'. unfold markEventCompleted.
  apply has_false in Hc. apply has_false in Hp. rewrite Hc, Hp.
  unfold fadeMatching.
  cbn [document setProcessing].
  destruct (querySelectorAllEvent eventId (document st)) as [nodes|].
  - match goal with |- context [querySelectorEvent eventId ?d] =>
      destruct (querySelectorEvent eventId d) as [found|] end.
    + split; [reflexivity|]. split; [right; reflexivity|].
      exists nodes. eexists. split; [|right; eexists; reflexivity].
      cbn [effects issue issueAll hideDetails setCompleted fadeNodes
           setDocument setProcessing].
      rewrite <- app_assoc. reflexivity.
    + split; [reflexivity|]. split; [right; reflexivity|].
      exists nodes, []. split; [|left; reflexivity].
      cbn [effects issue issueAll hideDetails setCompleted fadeNodes
           setDocument setProcessing].
      rewrite app_nil_r. reflexivity.
  - split; [reflexivity|]. split; [left; reflexivity|].
    exists [], []. split; [|left; reflexivity].
    cbn [effects setProcessing map app]. rewrite app_nil_r. reflexivity.
Qed.

(** What an accepted call of [deleteCompletedTask] does for a plain id. *)
Lemma deleteCompletedTask_accepted st taskId :
  selectorClass taskId = PlainId ->
  taskId ∉ processingEvents st ->
  exists st',
    deleteCompletedTask taskId st
    = issue (Fetch "DELETE" ("/api/completed-tasks/" ++ taskId) None) st' /\
    processingEvents st' = add taskId (processingEvents st) /\
    completedEvents st' = completedEvents st /\
    effects st'
    = (effects st
       ++ map (fun node => SetTimeout (RemoveElement node) 500)
              (querySelectorAll (matchesEvent taskId) (document st)))%list /\
    document st'
    = updateAll (matchesEvent taskId) (fade false) (document st).
Proof.
  intros Hs Hp. unfold deleteCompletedTask. apply has_false in Hp. rewrite Hp.
  rewrite (fadeMatching_plain _ _ _ Hs).
  eexists. split; [reflexivity|]. repeat split.
Qed.

Lemma deleteCompletedTask_rejected st taskId :
  taskId ∈ processingEvents st -> deleteCompletedTask taskId st = st.
Proof.
  intros H. unfold deleteCompletedTask. apply has_true in H. rewrite H.
  reflexivity.
Qed.

Lemma deleteCompletedTask_started st taskId :
  taskId ∉ processingEvents st ->
  let st' := deleteCompletedTask taskId st in
  processingEvents st' = add taskId (processingEvents st) /\
  completedEvents st' = completedEvents st /\
  exists nodes requests,
    effects st'
    = (effects st
       ++ map (fun node => SetTimeout (RemoveElement node) 500) nodes
       ++ requests)%list /\
    (requests = [] \/
     requests = [Fetch "DELETE" ("/api/completed-tasks/" ++ taskId) None]).
Proof.
  intros Hp st'. subst st'. unfold deleteCompletedTask.
  apply has_false in Hp. rewrite Hp. unfold fadeMatching.
  cbn [document setProcessing].
  destruct (querySelectorAllEvent taskId (document st)) as [nodes|].
  - split; [reflexivity|]. split; [reflexivity|].
    exists nodes. eexists. split; [|right; reflexivity].
    cbn [effects issue issueAll hideDetails fadeNodes setDocument
         setProcessing].
    rewrite <- app_assoc. reflexivity.
  - split; [reflexivity|]. split; [reflexivity|].
    exists [], []. split; [|left; reflexivity].
    cbn [effects setProcessing map app]. rewrite app_nil_r. reflexivity.
Qed.

(** *** Valid and invalid selectors *)

Lemma plain_validSelector eventId :
  selectorClass eventId = PlainId -> validSelector eventId.
Proof.
  intros H doc. rewrite (querySelectorAllEvent_plain _ _ H). discriminate.
Qed.

(** An accepted completion for an id whose selector is valid issues its
    request, with the id in both sets. *)
Lemma markEventCompleted_valid st eventId completed :
  validSelector eventId ->
  eventId ∉ completedEvents st -> eventId ∉ processingEvents st ->
  exists st' date nodes,
    markEventCompleted today eventId completed st
    = issue (Fetch "POST" ("/api/events/" ++ eventId ++ "/complete")
                   (Some {| body_completed := completed; body_date := date |}))
            st' /\
    processingEvents st' = add eventId (processingEvents st) /\
    completedEvents st' = add eventId (completedEvents st) /\
    effects st'
    = (effects st
       ++ map (fun node => SetTimeout (RemoveElement node) 500) nodes)%list.
Proof.
  intros Hv Hc Hp. unfold markEventCompleted.
  apply has_false in Hc. apply has_false in Hp. rewrite Hc, Hp.
  unfold fadeMatching. cbn [document setProcessing].
  destruct (querySelectorAllEvent eventId (document st)) as [nodes|] eqn:E;
    [|exfalso; exact (Hv _ E)].
  match goal with |- context [querySelectorEvent eventId ?d] =>
    destruct (querySelectorEvent eventId d) as [found|] eqn:F end.
  - eexists. eexists. exists nodes. split; [reflexivity|]. repeat split.
  - exfalso. unfold querySelectorEvent in F.
    match type of F with context [querySelectorAllEvent eventId ?d] =>
      pose proof (Hv d) as Hd;
      destruct (querySelectorAllEvent eventId d) as [[|n r]|] end;
      try discriminate F. apply Hd. reflexivity.
Qed.

(** A completion that is accepted and whose selection throws ends there,
    with the id in the processing set only. *)
Lemma markEventCompleted_thrown st eventId completed :
  querySelectorAllEvent eventId (document st) = None ->
  eventId ∉ completedEvents st -> eventId ∉ processingEvents st ->
  markEventCompleted today eventId completed st
  = setProcessing (add eventId) st.
Proof.
  intros Hs Hc Hp. unfold markEventCompleted, fadeMatching.
  apply has_false in Hc. apply has_false in Hp. rewrite Hc, Hp.
  cbn [document setProcessing]. rewrite Hs. reflexivity.
Qed.

Lemma deleteCompletedTask_selected st taskId nodes :
  querySelectorAllEvent taskId (document st) = Some nodes ->
  taskId ∉ processingEvents st ->
  exists st',
    deleteCompletedTask taskId st
    = issue (Fetch "DELETE" ("/api/completed-tasks/" ++ taskId) None) st' /\
    processingEvents st' = add taskId (processingEvents st) /\
    completedEvents st' = completedEvents st /\
    effects st'
    = (effects st
       ++ map (fun node => SetTimeout (RemoveElement node) 500) nodes)%list.
Proof.
  intros Hs Hp. unfold deleteCompletedTask, fadeMatching.
  apply has_false in Hp. rewrite Hp.
  cbn [document setProcessing]. rewrite Hs.
  eexists. split; [reflexivity|]. repeat split.
Qed.

Lemma deleteCompletedTask_thrown st taskId :
  querySelectorAllEvent taskId (document st) = None ->
  taskId ∉ processingEvents st ->
  deleteCompletedTask taskId st = setProcessing (add taskId) st.
Proof.
  intros Hs Hp. unfold deleteCompletedTask, fadeMatching.
  apply has_false in Hp. rewrite Hp.
  cbn [document setProcessing]. rewrite Hs. reflexivity.
Qed.

(** The effects of the two operations, and that none of them is a
    completion request for an id that is already settled. *)
Lemma markEventCompleted_effects st eventId completed :
  exists new,
    effects (markEventCompleted today eventId completed st)
    = (effects st ++ new)%list /\
    forall settled,
      settled ∈ completedEvents st ->
      countOf (isCompletePost settled) new = 0%nat.
Proof.
  destruct (decide (eventId ∈ completedEvents st)) as [Hc|Hc];
    [|destruct (decide (eventId ∈ processingEvents st)) as [Hp|Hp]].
  - exists []. rewrite markEventCompleted_rejected by (left; exact Hc).
    rewrite app_nil_r. split; [reflexivity|]. intros; reflexivity.
  - exists []. rewrite markEventCompleted_rejected by (right; exact Hp).
    rewrite app_nil_r. split; [reflexivity|]. intros; reflexivity.
  - destruct (markEventCompleted_started st eventId completed Hc Hp)
      as (_ & _ & nodes & requests & He & Hr).
    eexists. split; [exact He|].
    intros settled Hs. rewrite countOf_app, countOf_timers by reflexivity.
    destruct Hr as [-> | (date & ->)]; [reflexivity|].
    rewrite countOf_one, isCompletePost_other; [reflexivity|].
    intros ->. contradiction.
Qed.

Lemma deleteCompletedTask_effects st taskId :
  exists new,
    effects (deleteCompletedTask taskId st) = (effects st ++ new)%list /\
    forall eventId, countOf (isCompletePost eventId) new = 0%nat.
Proof.
  destruct (decide (taskId ∈ processingEvents st)) as [Hp|Hp].
  - exists []. rewrite deleteCompletedTask_rejected by exact Hp.
    rewrite app_nil_r. split; [reflexivity|]. intros; reflexivity.
  - destruct (deleteCompletedTask_started st taskId Hp)
      as (_ & _ & nodes & requests & He & Hr).
    eexists. split; [exact He|].
    intros eventId. rewrite countOf_app, countOf_timers by reflexivity.
    destruct Hr as [-> | ->]; reflexivity.
Qed.

(** The sets after the two operations. *)
Lemma markEventCompleted_sets st eventId completed :
  let st' := markEventCompleted today eventId completed st in
  processingEvents st ⊆ processingEvents st' /\
  completedEvents st ⊆ completedEvents st'.
Proof.
  destruct (decide (eventId ∈ completedEvents st)) as [Hc|Hc];
    [|destruct (decide (eventId ∈ processingEvents st)) as [Hp|Hp]].
  - rewrite markEventCompleted_rejected by (left; exact Hc). split; reflexivity.
  - rewrite markEventCompleted_rejected by (right; exact Hp). split; reflexivity.
  - destruct (markEventCompleted_started st eventId completed Hc Hp)
      as (Hps & Hcs & _).
    cbv zeta. rewrite Hps. split; [intros x Hx; apply in_add_old, Hx|].
    destruct Hcs as [-> | ->]; [reflexivity|].
    intros x Hx; apply in_add_old, Hx.
Qed.

Lemma deleteCompletedTask_sets st taskId :
  let st' := deleteCompletedTask taskId st in
  processingEvents st ⊆ processingEvents st' /\
  completedEvents st' = completedEvents st.
Proof.
  destruct (decide (taskId ∈ processingEvents st)) as [Hp|Hp].
  - rewrite deleteCompletedTask_rejected by exact Hp. split; reflexivity.
  - destruct (deleteCompletedTask_started st taskId Hp) as (Hps & Hcs & _).
    cbv zeta. rewrite Hps, Hcs. split; [|reflexivity].
    intros x Hx. apply in_add_old, Hx.
Qed.

(** An id stays in both sets until a request for it is settled. *)
Lemma step_keeps_membership st a eventId :
  settles eventId a = false ->
  (eventId ∈ processingEvents st -> eventId ∈ processingEvents (step today st a)) /\
  (eventId ∈ completedEvents st -> eventId ∈ completedEvents (step today st a)).
Proof.
  intros Hs.
  destruct a as [node|node answer|i|i|i c|i o|i o|node]; cbn [step].
  - unfold completeButtonClick.
    destruct (nth_error (document st) node) as [el|]; [|tauto].
    destruct (has (completedEvents st) (el_eventId el)); [tauto|].
    destruct (markEventCompleted_sets st (el_eventId el) true) as [A B].
    split; intros H; [apply A, H | apply B, H].
  - unfold deleteButtonClick.
    destruct (nth_error (document st) node) as [el|]; [|tauto].
    destruct (has (completedEvents st) (el_eventId el)); [tauto|].
    destruct answer; cbn [negb]; [|tauto].
    match goal with |- context [deleteCompletedTask ?i ?s] =>
      destruct (deleteCompletedTask_sets s i) as [A B] end.
    split; intros H.
    + apply A. exact H.
    + rewrite B. cbn [completedEvents setDocument setCompleted issue issueAll].
      apply in_add_old, H.
  - destruct (markEventCompleted_sets st i true) as [A B].
    split; intros H; [apply A, H | apply B, H].
  - destruct (deleteCompletedTask_sets st i) as [A B].
    split; intros H; [apply A, H | unfold detailsDeleteClick; rewrite B; exact H].
  - destruct (markEventCompleted_sets st i c) as [A B].
    split; intros H; [apply A, H | apply B, H].
  - cbn [settles] in Hs. apply String.eqb_neq in Hs.
    destruct o as [status message|].
    + unfold markEventCompleted_then.
      destruct (String.eqb status "success");
        cbn [processingEvents completedEvents setProcessing setCompleted
             issue issueAll restoreCompleting setDocument];
        split; intros H; try exact H; repeat apply in_delete_other;
        assumption.
    + unfold markEventCompleted_catch.
      cbn [processingEvents completedEvents setProcessing setCompleted
           issue issueAll restoreCompleting setDocument].
      split; intros H; apply in_delete_other; assumption.
  - cbn [settles] in Hs. apply String.eqb_neq in Hs.
    destruct o as [status message|].
    + unfold deleteCompletedTask_then.
      destruct (String.eqb status "success");
        cbn [processingEvents completedEvents setProcessing setCompleted
             issue issueAll];
        split; intros H; try exact H; repeat apply in_delete_other;
        assumption.
    + unfold deleteCompletedTask_catch.
      cbn [processingEvents completedEvents setProcessing setCompleted
           issue issueAll].
      split; intros H; apply in_delete_other; assumption.
  - split; intros H; exact H.
Qed.

(** No step issues a completion request for an id in the settled set. *)
Lemma step_no_post st a eventId :
  eventId ∈ completedEvents st ->
  countOf (isCompletePost eventId) (effects (step today st a))
  = countOf (isCompletePost eventId) (effects st).
Proof.
  intros Hin.
  assert (Hnew : exists new,
             effects (step today st a) = (effects st ++ new)%list /\
             countOf (isCompletePost eventId) new = 0%nat).
  { destruct a as [node|node answer|i|i|i c|i o|i o|node]; cbn [step].
    - unfold completeButtonClick.
      destruct (nth_error (document st) node) as [el|];
        [|exists []; rewrite app_nil_r; split; reflexivity].
      destruct (has (completedEvents st) (el_eventId el));
        [exists []; rewrite app_nil_r; split; reflexivity|].
      destruct (markEventCompleted_effects st (el_eventId el) true)
        as (new & E & Hc).
      exists new. split; [exact E | apply Hc, Hin].
    - unfold deleteButtonClick.
      destruct (nth_error (document st) node) as [el|];
        [|exists []; rewrite app_nil_r; split; reflexivity].
      destruct (has (completedEvents st) (el_eventId el));
        [exists []; rewrite app_nil_r; split; reflexivity|].
      destruct answer; cbn [negb];
        [|exists [Confirm ConfirmDelete]; split; reflexivity].
      match goal with |- context [deleteCompletedTask ?i ?s] =>
        destruct (deleteCompletedTask_effects s i) as (new & E & Hc) end.
      exists (Confirm ConfirmDelete :: new). split.
      + rewrite E. cbn [effects setDocument setCompleted issue issueAll].
        rewrite <- app_assoc. reflexivity.
      + change (Confirm ConfirmDelete :: new)
          with ([Confirm ConfirmDelete] ++ new)%list.
        rewrite countOf_app, Hc. reflexivity.
    - destruct (markEventCompleted_effects st i true) as (new & E & Hc).
      exists new. split; [exact E | apply Hc, Hin].
    - destruct (deleteCompletedTask_effects st i) as (new & E & Hc).
      exists new. split; [exact E | apply Hc].
    - destruct (markEventCompleted_effects st i c) as (new & E & Hc).
      exists new. split; [exact E | apply Hc, Hin].
    - destruct o as [status message|].
      + unfold markEventCompleted_then.
        destruct (String.eqb status "success"); eexists;
          (split; [cbn [effects setProcessing setCompleted issue issueAll
                        restoreCompleting setDocument];
                   rewrite <- ?app_assoc; reflexivity | reflexivity]).
      + eexists. split; [reflexivity|reflexivity].
    - destruct o as [status message|].
      + unfold deleteCompletedTask_then.
        destruct (String.eqb status "success"); eexists;
          (split; [cbn [effects setProcessing setCompleted issue issueAll];
                   rewrite <- ?app_assoc; reflexivity | reflexivity]).
      + eexists. split; [reflexivity|reflexivity].
    - exists []. rewrite app_nil_r. split; reflexivity. }
  destruct Hnew as (new & -> & Hc).
  rewrite countOf_app, Hc. lia.
Qed.

Lemma run_settled st actions eventId :
  forallb (fun a => negb (settles eventId a)) actions = true ->
  eventId ∈ processingEvents st -> eventId ∈ completedEvents st ->
  eventId ∈ processingEvents (run today st actions) /\
  eventId ∈ completedEvents (run today st actions) /\
  countOf (isCompletePost eventId) (effects (run today st actions))
  = countOf (isCompletePost eventId) (effects st).
Proof.
  revert st. induction actions as [|a r IH]; intros st Hq Hp Hc.
  - repeat split; assumption.
  - cbn [forallb] in Hq. apply andb_true_iff in Hq as [Ha Hr].
    apply negb_true_iff in Ha.
    destruct (step_keeps_membership st a eventId Ha) as [Kp Kc].
    cbn [run fold_left].
    destruct (IH (step today st a) Hr (Kp Hp) (Kc Hc)) as (A & B & C).
    repeat split; [exact A | exact B |].
    unfold run in C. rewrite C. apply step_no_post, Hc.
Qed.

(** *** C1 *)

(** X23. When [markEventCompleted] is invoked for an id that is in neither
    set and whose selector is valid (as it is for every plain id), and
    invoked again for the same id before any request for that id has been
    settled (whatever else happens in between), exactly one POST to
    [/api/events/{id}/complete] is issued: at the second invocation the id
    is in both the processing and the settled set, the invocation is
    rejected, and it leaves the state, and so both sets, unchanged. *)
Theorem second_completion_is_rejected st eventId c1 c2 between :
  validSelector eventId ->
  eventId ∉ processingEvents st -> eventId ∉ completedEvents st ->
  forallb (fun a => negb (settles eventId a)) between = true ->
  let st1 := markEventCompleted today eventId c1 st in
  let st2 := run today st1 between in
  let st3 := markEventCompleted today eventId c2 st2 in
  countOf (isCompletePost eventId) (effects st3)
  = S (countOf (isCompletePost eventId) (effects st)) /\
  eventId ∈ processingEvents st2 /\ eventId ∈ completedEvents st2 /\
  processingEvents st3 = processingEvents st2 /\
  completedEvents st3 = completedEvents st2 /\
  st3 = st2.
Proof.
  intros Hs Hp Hc Hq st1 st2 st3.
  destruct (markEventCompleted_valid st eventId c1 Hs Hc Hp)
    as (st' & date & nodes & E & Hps & Hcs & He).
  assert (H1p : eventId ∈ processingEvents st1).
  { subst st1. rewrite E. cbn [processingEvents issue issueAll].
    rewrite Hps. apply in_add_same. }
  assert (H1c : eventId ∈ completedEvents st1).
  { subst st1. rewrite E. cbn [completedEvents issue issueAll].
    rewrite Hcs. apply in_add_same. }
  assert (H1e : countOf (isCompletePost eventId) (effects st1)
                = S (countOf (isCompletePost eventId) (effects st))).
  { subst st1. rewrite E. cbn [effects issue issueAll]. rewrite He.
    rewrite !countOf_app, countOf_timers by reflexivity.
    rewrite countOf_one, isCompletePost_same. lia. }
  destruct (run_settled st1 between eventId Hq H1p H1c) as (A & B & C).
  fold st2 in A, B, C.
  assert (E3 : st3 = st2).
  { subst st3. apply markEventCompleted_rejected. left. exact B. }
  rewrite E3, C, H1e. repeat split; assumption.
Qed.

(** C1, at the failing input. The event whose id is [quoted42] (a 4, a
    quotation mark, a 2) is rendered once, as an open task, and
    [markEventCompleted] is invoked twice for it. The first invocation
    adds the id to the processing set and then throws at the selection of
    the items: the selector, in which the quotation mark of the id ends
    the value, is not valid. No item is faded, the id is not added to the
    settled set, and no POST is issued. The second invocation is rejected,
    since the id is in the processing set, so the two invocations issue no
    POST at all. *)
Theorem C1_quoted_id_issues_no_request :
  let st1 := markEventCompleted today quoted42 true pageQuoted in
  let st2 := markEventCompleted today quoted42 true st1 in
  querySelectorAllEvent quoted42 (document pageQuoted) = None /\
  st1 = setProcessing (add quoted42) pageQuoted /\
  quoted42 ∈ processingEvents st1 /\ (quoted42 ∉ completedEvents st1) /\
  document st1 = document pageQuoted /\
  effects st1 = [] /\
  st2 = st1 /\
  countOf (isCompletePost quoted42) (effects st2) = 0%nat.
Proof.
  intros st1 st2.
  assert (E1 : st1 = setProcessing (add quoted42) pageQuoted) by reflexivity.
  assert (Hp : quoted42 ∈ processingEvents st1).
  { rewrite E1. apply in_add_same. }
  assert (E2 : st2 = st1).
  { subst st2. apply markEventCompleted_rejected. right. exact Hp. }
  split; [reflexivity|]. split; [exact E1|]. split; [exact Hp|].
  split; [rewrite E1; apply (bool_decide_eq_false_1 _); vm_compute; reflexivity|].
  split; [rewrite E1; reflexivity|]. split; [rewrite E1; reflexivity|].
  split; [exact E2|]. rewrite E2, E1. reflexivity.
Qed.

(** *** C5 *)

(** C5, amended. For a completion ([markEventCompleted]) and for a
    deletion started from the delete button of an event item: when the id
    is already in the settled set the action is rejected and the state is
    unchanged; when the id is in neither set and its selector is valid
    (and, for the deletion, the user confirms) the id is in both the
    processing and the settled set in the state in which the network
    request is issued, and no request was issued before. *)
Theorem C5_settled_is_marked_before_the_request st :
  (forall eventId completed,
     eventId ∈ completedEvents st ->
     markEventCompleted today eventId completed st = st) /\
  (forall eventId completed,
     validSelector eventId ->
     eventId ∉ completedEvents st -> eventId ∉ processingEvents st ->
     exists st' request,
       markEventCompleted today eventId completed st = issue request st' /\
       isFetch request = true /\
       eventId ∈ processingEvents st' /\ eventId ∈ completedEvents st' /\
       countOf isFetch (effects st') = countOf isFetch (effects st)) /\
  (forall node eventItem answer,
     nth_error (document st) node = Some eventItem ->
     el_eventId eventItem ∈ completedEvents st ->
     deleteButtonClick node answer st = st) /\
  (forall node eventItem,
     nth_error (document st) node = Some eventItem ->
     validSelector (el_eventId eventItem) ->
     el_eventId eventItem ∉ completedEvents st ->
     el_eventId eventItem ∉ processingEvents st ->
     exists st' request,
       deleteButtonClick node true st = issue request st' /\
       isFetch request = true /\
       el_eventId eventItem ∈ processingEvents st' /\
       el_eventId eventItem ∈ completedEvents st' /\
       countOf isFetch (effects st') = countOf isFetch (effects st)).
Proof.
  split; [|split; [|split]].
  - intros eventId completed H. apply markEventCompleted_rejected. left. exact H.
  - intros eventId completed Hs Hc Hp.
    destruct (markEventCompleted_valid st eventId completed Hs Hc Hp)
      as (st' & date & nodes & E & Hps & Hcs & He).
    eexists. eexists. split; [exact E|]. split; [reflexivity|].
    rewrite Hps, Hcs, He, countOf_app, countOf_timers by reflexivity.
    split; [apply in_add_same|]. split; [apply in_add_same|]. lia.
  - intros node eventItem answer Hn H. unfold deleteButtonClick.
    rewrite Hn. apply has_true in H. rewrite H. reflexivity.
  - intros node eventItem Hn Hs Hc Hp. unfold deleteButtonClick.
    rewrite Hn. pose proof Hc as Hc'. apply has_false in Hc'. rewrite Hc'.
    cbn [negb].
    match goal with |- context [deleteCompletedTask ?i ?s] =>
      destruct (querySelectorAllEvent i (document s)) as [nodes|] eqn:Q;
        [|exfalso; exact (Hs _ Q)];
      destruct (deleteCompletedTask_selected s i nodes Q)
        as (st' & E & Hps & Hcs & He)
    end.
    { cbn [processingEvents setDocument setCompleted issue issueAll]. exact Hp. }
    eexists. eexists. split; [exact E|]. split; [reflexivity|].
    rewrite Hps, Hcs, He, countOf_app, countOf_timers by reflexivity.
    cbn [processingEvents completedEvents effects setDocument setCompleted
         issue issueAll].
    rewrite countOf_app.
    split; [apply in_add_same|]. split; [apply in_add_same|].
    rewrite countOf_one. cbn [isFetch]. lia.
Qed.

(** *** C8 *)

(** C8, amended. A deletion started from the delete button of an event
    item shows the confirmation prompt before anything else it does, and
    in particular before any request; when the user cancels, the
    processing and settled sets and the rendered items are unchanged and
    no request is issued. *)
Theorem C8_item_delete_asks_first st node :
  (let cancelled := deleteButtonClick node false st in
   (cancelled = st \/ cancelled = issue (Confirm ConfirmDelete) st) /\
   processingEvents cancelled = processingEvents st /\
   completedEvents cancelled = completedEvents st /\
   document cancelled = document st /\
   countOf isFetch (effects cancelled) = countOf isFetch (effects st)) /\
  (forall answer,
     exists new,
       effects (deleteButtonClick node answer st) = (effects st ++ new)%list /\
       (new = [] \/ exists rest, new = Confirm ConfirmDelete :: rest)).
Proof.
  split.
  - unfold deleteButtonClick.
    destruct (nth_error (document st) node) as [el|];
      [|split; [left; reflexivity | repeat split]].
    destruct (has (completedEvents st) (el_eventId el));
      [split; [left; reflexivity | repeat split]|].
    cbn [negb]. split; [right; reflexivity|].
    cbn [processingEvents completedEvents document effects issue issueAll].
    repeat split. rewrite countOf_app, countOf_one. cbn [isFetch]. lia.
  - intros answer. unfold deleteButtonClick.
    destruct (nth_error (document st) node) as [el|];
      [|exists []; rewrite app_nil_r; split; [reflexivity|left; reflexivity]].
    destruct (has (completedEvents st) (el_eventId el));
      [exists []; rewrite app_nil_r; split; [reflexivity|left; reflexivity]|].
    destruct answer; cbn [negb].
    + match goal with |- context [deleteCompletedTask ?i ?s] =>
        destruct (deleteCompletedTask_effects s i) as (new & E & _) end.
      exists (Confirm ConfirmDelete :: new). split; [|right; eauto].
      rewrite E. cbn [effects setDocument setCompleted issue issueAll].
      rewrite <- app_assoc. reflexivity.
    + exists [Confirm ConfirmDelete]. split; [reflexivity|right; eauto].
Qed.

(** *** C2: what a failed completion does *)

Lemma nth_error_updateAll p f doc node :
  nth_error (updateAll p f doc) node
  = option_map (fun el => if p el then f el else el) (nth_error doc node).
Proof. unfold updateAll. apply nth_error_map. Qed.

(** A failure removes the id from both sets, so a later invocation is
    accepted and issues a new request. *)
Lemma failed_completion_clears_sets st eventId o :
  failed o = true ->
  let st' := step today st (CompleteSettled eventId o) in
  (eventId ∉ processingEvents st') /\ (eventId ∉ completedEvents st') /\
  forall completed,
    validSelector eventId ->
    countOf (isCompletePost eventId)
            (effects (markEventCompleted today eventId completed st'))
    = S (countOf (isCompletePost eventId) (effects st')).
Proof.
  intros Hf st'.
  assert (H : (eventId ∉ processingEvents st')
              /\ (eventId ∉ completedEvents st')).
  { subst st'. cbn [step]. destruct o as [status message|].
    - cbn [failed] in Hf. apply negb_true_iff in Hf.
      unfold markEventCompleted_then. rewrite Hf.
      cbn [processingEvents completedEvents setProcessing setCompleted
           issue issueAll restoreCompleting setDocument].
      split; apply not_in_delete.
    - unfold markEventCompleted_catch.
      cbn [processingEvents completedEvents setProcessing setCompleted
           issue issueAll restoreCompleting setDocument].
      split; apply not_in_delete. }
  destruct H as [Hp Hc]. split; [exact Hp|]. split; [exact Hc|].
  intros completed Hs.
  destruct (markEventCompleted_valid st' eventId completed Hs Hc Hp)
    as (st2 & date & nodes & -> & _ & _ & He).
  cbn [effects issue issueAll]. rewrite He.
  rewrite !countOf_app, countOf_timers by reflexivity.
  rewrite countOf_one, isCompletePost_same. lia.
Qed.

(** A failure restores the elements marked [completing] that are still in
    the document, and leaves the elements that have left it as they are. *)
Lemma failed_completion_restores st eventId o node el :
  failed o = true ->
  nth_error (document st) node = Some el ->
  let st' := step today st (CompleteSettled eventId o) in
  nth_error (document st') node
  = Some (if matchesCompleting el then restore el else el).
Proof.
  intros Hf Hn st'. subst st'. cbn [step]. destruct o as [status message|].
  - cbn [failed] in Hf. apply negb_true_iff in Hf.
    unfold markEventCompleted_then. rewrite Hf.
    cbn [document setProcessing setCompleted issue issueAll
         restoreCompleting setDocument].
    rewrite nth_error_updateAll, Hn. reflexivity.
  - unfold markEventCompleted_catch.
    cbn [document setProcessing setCompleted issue issueAll
         restoreCompleting setDocument].
    rewrite nth_error_updateAll, Hn. reflexivity.
Qed.

Lemma restore_visible el :
  el_opacity (restore el) = "1" /\
  el_completing (restore el) = false /\
  forall b, el_button el = Some b -> button_kind b = CompleteButton ->
    el_button (restore el)
    = Some {| button_kind := CompleteButton; button_disabled := false;
              button_text := Circle |}.
Proof.
  repeat split. intros b Hb Hk. cbn [restore el_button]. rewrite Hb, Hk.
  reflexivity.
Qed.

End GuardFacts.

Section GuardScenarios.
Import MutationGuard.

#[local] Existing Instance strictEngine.

Lemma second_completion_is_rejected_witness :
  let st1 := markEventCompleted "2024-06-03" "42" true page42 in
  let st2 := run "2024-06-03" st1 [TimerRemove 0; ClickComplete 0] in
  let st3 := markEventCompleted "2024-06-03" "42" true st2 in
  countOf (isCompletePost "42") (effects st3) = 1%nat /\
  "42" ∈ processingEvents st2 /\ "42" ∈ completedEvents st2 /\
  processingEvents st3 = processingEvents st2 /\
  completedEvents st3 = completedEvents st2 /\
  st3 = st2.
Proof.
  apply (second_completion_is_rejected "2024-06-03" page42 "42" true true
           [TimerRemove 0; ClickComplete 0]).
  - intros doc. discriminate.
  - apply (bool_decide_eq_false_1 _). vm_compute. reflexivity.
  - apply (bool_decide_eq_false_1 _). vm_compute. reflexivity.
  - vm_compute. reflexivity.
Defined.

(** C2, at the failing input. Event 42 is rendered once; the user completes
    it, the 500 ms removal timer fires, and then the server answers with a
    failure status. The id leaves both sets, but the element, which is no
    longer in the document, is not restored: it stays faded, with its
    button disabled, and it stays out of the document. The same holds when
    the request is rejected. *)
Theorem C2_failure_after_removal_is_not_restored :
  let st1 := markEventCompleted "2024-06-03" "42" true page42 in
  let st2 := removeElement 0 st1 in
  let faded :=
    {| el_eventId := "42"; el_date := "2024-06-03"; el_completing := true;
       el_opacity := "0.3"; el_pointerEvents := "none";
       el_transition := "all 0.5s ease"; el_transform := "translateX(100%)";
       el_button := Some {| button_kind := CompleteButton;
                            button_disabled := true; button_text := Ellipsis |};
       el_inDocument := false |} in
  effects st1
  = [SetTimeout (RemoveElement 0) 500;
     Fetch "POST" "/api/events/42/complete"
           (Some {| body_completed := true; body_date := "2024-06-03" |})] /\
  (let st3 := markEventCompleted_then "42" "error" "not found" st2 in
   ("42" ∉ processingEvents st3) /\ ("42" ∉ completedEvents st3) /\
   document st3 = [faded]) /\
  (let st3 := markEventCompleted_catch "42" st2 in
   ("42" ∉ processingEvents st3) /\ ("42" ∉ completedEvents st3) /\
   document st3 = [faded]).
Proof.
  split; [reflexivity|].
  split; (split; [apply (bool_decide_eq_false_1 _); vm_compute; reflexivity|]);
    (split; [apply (bool_decide_eq_false_1 _); vm_compute; reflexivity|]);
    reflexivity.
Qed.

(** With the response before the timer, the element is restored. *)
Example failure_before_removal_is_restored :
  let st1 := markEventCompleted "2024-06-03" "42" true page42 in
  let st3 := markEventCompleted_then "42" "error" "not found" st1 in
  document st3
  = [{| el_eventId := "42"; el_date := "2024-06-03"; el_completing := false;
        el_opacity := "1"; el_pointerEvents := "auto";
        el_transition := "all 0.5s ease"; el_transform := "translateX(0)";
        el_button := Some {| button_kind := CompleteButton;
                             button_disabled := false; button_text := Circle |};
        el_inDocument := true |}].
Proof. reflexivity. Qed.

End GuardScenarios.

Section DeleteScenarios.
Import MutationGuard.

#[local] Existing Instance strictEngine.

(** C5, counterexample. The delete button of the details panel calls
    [deleteCompletedTask] directly. With id 42 in the settled set the
    deletion is not rejected: the request is issued. With id 42 in neither
    set the request is issued with the id in the processing set only: the
    settled set is not marked. *)
Lemma C5_counterexample_details_delete :
  (let st := pageDone42 true in
   let st' := detailsDeleteClick "42" st in
   "42" ∈ completedEvents st /\
   effects st'
   = [SetTimeout (RemoveElement 0) 500;
      Fetch "DELETE" "/api/completed-tasks/42" None]) /\
  (let st := pageDone42 false in
   let st' := detailsDeleteClick "42" st in
   effects st'
   = [SetTimeout (RemoveElement 0) 500;
      Fetch "DELETE" "/api/completed-tasks/42" None] /\
   "42" ∈ processingEvents st' /\ ("42" ∉ completedEvents st')).
Proof.
  split; [split|split; [|split]]; try reflexivity.
  apply (bool_decide_eq_false_1 _). vm_compute. reflexivity.
Qed.

Lemma C5_settled_is_marked_before_the_request_witness :
  (exists st' request,
     markEventCompleted "2024-06-03" "42" true page42 = issue request st' /\
     isFetch request = true /\
     "42" ∈ processingEvents st' /\ "42" ∈ completedEvents st' /\
     countOf isFetch (effects st') = 0%nat) /\
  deleteButtonClick 0 true (pageDone42 true) = pageDone42 true.
Proof.
  split.
  - destruct (C5_settled_is_marked_before_the_request "2024-06-03" page42)
      as (_ & B & _ & _).
    apply (B "42" true); [intros doc; discriminate | |];
      apply (bool_decide_eq_false_1 _); vm_compute; reflexivity.
  - destruct (C5_settled_is_marked_before_the_request "2024-06-03"
                (pageDone42 true)) as (_ & _ & C & _).
    apply (C 0%nat (renderEventItem done42 false) true); [reflexivity|].
    apply (bool_decide_eq_true_1 _). vm_compute. reflexivity.
Defined.

(** C8, counterexample. A click on the delete button of the details panel
    issues the DELETE request, with the id in the processing set, and no
    confirmation prompt is shown. *)
Lemma C8_counterexample_details_delete_has_no_prompt :
  let st' := detailsDeleteClick "42" (pageDone42 false) in
  countOf isFetch (effects st') = 1%nat /\
  countOf isConfirm (effects st') = 0%nat /\
  List.last (effects st') (Confirm ConfirmDelete)
  = Fetch "DELETE" "/api/completed-tasks/42" None /\
  "42" ∈ processingEvents st'.
Proof.
  split; [reflexivity|]. split; [reflexivity|]. split; [reflexivity|].
  apply (bool_decide_eq_true_1 _). vm_compute. reflexivity.
Qed.

(** The same deletion from the item's own button: the prompt comes first,
    and a cancelled prompt changes nothing else. *)
Example item_delete_prompts :
  effects (deleteButtonClick 0 true (pageDone42 false))
  = [Confirm ConfirmDelete; SetTimeout (RemoveElement 0) 500;
     Fetch "DELETE" "/api/completed-tasks/42" None] /\
  effects (deleteButtonClick 0 false (pageDone42 false))
  = [Confirm ConfirmDelete].
Proof. split; reflexivity. Qed.

End DeleteScenarios.

Lemma C10_getCurrentDayTimeRange_idempotent_witness :
  getCurrentDayTimeRange (getCurrentDayTimeRange "22:00-02:00")
  = getCurrentDayTimeRange "22:00-02:00" /\
  isOvernightEvent ("22:00" ++ "-24:00") = false.
Proof.
  destruct C10_getCurrentDayTimeRange_idempotent as (A & _ & C).
  split; [apply A|]. apply C; reflexivity.
Defined.

(** ** Loading the event list *)

Section LoaderFacts.
Import EventLoader.

Variable apiUrl : string.

Lemma loadEvents_retry st :
  loadEvents apiUrl true st
  = if loadEventsRetryCount st + 1 >? MAX_RETRY_COUNT
    then issue (Notification MaxRetriesReached "error")
           (hideLoadingIndicator
              (setRetryCount 0
                 (setLoading false
                    (setRetryCount (loadEventsRetryCount st + 1)
                       (setLoading true st)))))
    else issue (Fetch apiUrl)
           (issue (SetTimeout Abort 10000)
              (showLoadingIndicator
                 (hideDetails
                    (setRetryCount (loadEventsRetryCount st + 1)
                       (setLoading true st))))).
Proof.
  unfold loadEvents. rewrite andb_false_r. reflexivity.
Qed.

(** Reading the effects of a state built by the setters. *)
Ltac loader_effects :=
  unfold fetchCount;
  cbn [effects issue setLoading setRetryCount setEvents hideDetails
       setIndicator showLoadingIndicator hideLoadingIndicator];
  rewrite ?List.filter_app, ?List.length_app;
  cbn [List.filter isFetch List.length];
  try lia.

(** One failed attempt while fewer than three retries were made: the retry
    timer is set with a delay of one second, and the retry fetches. *)
Lemma failedAttempt_retries st e :
  retryable e = true ->
  0 <= loadEventsRetryCount st < MAX_RETRY_COUNT ->
  let st' := failedAttempt apiUrl st e in
  isLoadingEvents st' = true /\
  loadEventsRetryCount st' = loadEventsRetryCount st + 1 /\
  fetchCount st' = S (fetchCount st) /\
  effects st'
  = (effects st ++ [SetTimeout Retry 1000; SetTimeout Abort 10000; Fetch apiUrl])%list.
Proof.
  intros Hr Hk st'. subst st'. unfold failedAttempt, loadEvents_catch, retryTimer.
  rewrite Hr, loadEvents_retry.
  cbn [loadEventsRetryCount issue].
  unfold MAX_RETRY_COUNT in *.
  assert (Hgt : (loadEventsRetryCount st + 1 >? 3) = false)
    by (rewrite Z.gtb_ltb; apply Z.ltb_ge; lia).
  rewrite Hgt. repeat split.
  - loader_effects.
  - loader_effects. rewrite <- !app_assoc. reflexivity.
Qed.

(** The failed attempt after the third retry: the load is abandoned. *)
Lemma failedAttempt_gives_up st e :
  retryable e = true ->
  loadEventsRetryCount st = MAX_RETRY_COUNT ->
  let st' := failedAttempt apiUrl st e in
  isLoadingEvents st' = false /\
  loadEventsRetryCount st' = 0 /\
  indicatorShown st' = false /\
  fetchCount st' = fetchCount st /\
  effects st'
  = (effects st
     ++ [SetTimeout Retry 1000; Notification MaxRetriesReached "error"])%list.
Proof.
  intros Hr Hk st'. subst st'. unfold failedAttempt, loadEvents_catch, retryTimer.
  rewrite Hr, loadEvents_retry.
  cbn [loadEventsRetryCount issue]. rewrite Hk.
  assert (Hgt : (MAX_RETRY_COUNT + 1 >? MAX_RETRY_COUNT) = true) by reflexivity.
  rewrite Hgt. repeat split.
  - loader_effects.
  - loader_effects. rewrite <- !app_assoc. reflexivity.
Qed.

Lemma failures_retry errors : forall st,
  forallb retryable errors = true ->
  isLoadingEvents st = true ->
  0 <= loadEventsRetryCount st ->
  loadEventsRetryCount st + Z.of_nat (List.length errors) <= MAX_RETRY_COUNT ->
  let st' := fold_left (failedAttempt apiUrl) errors st in
  isLoadingEvents st' = true /\
  loadEventsRetryCount st'
  = loadEventsRetryCount st + Z.of_nat (List.length errors) /\
  fetchCount st' = (fetchCount st + List.length errors)%nat /\
  effects st' = (effects st ++ concat (map (retryRound apiUrl) errors))%list.
Proof.
  induction errors as [|e r IH]; intros st Hq Hl H0 Hk.
  - cbn. rewrite app_nil_r. repeat split; [exact Hl | lia | lia].
  - cbn [forallb] in Hq. apply andb_true_iff in Hq as [He Hr].
    cbn [List.length] in Hk.
    destruct (failedAttempt_retries st e He) as (A & B & C & D); [lia|].
    cbn [fold_left].
    destruct (IH (failedAttempt apiUrl st e) Hr A) as (A' & B' & C' & D');
      [lia | lia |].
    cbn [List.length map concat]. repeat split; [exact A' | lia | lia |].
    rewrite D', D, <- app_assoc. reflexivity.
Qed.

(** *** C7 *)

(** X24. [loadEvents] invoked while a fetch is outstanding and not flagged
    as a retry returns without starting a fetch. On an error that passes
    the test of the handler (its name is [AbortError], or its message
    contains [network] or [failed]) the handler sets the retry timer with a
    delay of 1000 ms, whatever the retry count. Starting from an accepted
    load, up to three consecutive such failures are each followed by one
    retry fetch; the fourth failure exceeds the bound: the load is
    abandoned without another fetch, the loading state and the retry count
    are reset, the indicator is hidden, and an error notification is
    shown. *)
Theorem loadEvents_overlap_and_bounded_retry st :
  (isLoadingEvents st = true -> loadEvents apiUrl false st = st) /\
  (forall e,
     retryable e = true ->
     loadEvents_catch e st = issue (SetTimeout Retry 1000) st) /\
  (isLoadingEvents st = false ->
   forall errors,
     forallb retryable errors = true ->
     let started := loadEvents apiUrl false st in
     let st' := fold_left (failedAttempt apiUrl) errors started in
     effects started
     = (effects st ++ [SetTimeout Abort 10000; Fetch apiUrl])%list /\
     ((List.length errors <= 3)%nat ->
      isLoadingEvents st' = true /\
      loadEventsRetryCount st' = Z.of_nat (List.length errors) /\
      fetchCount st' = (fetchCount st + 1 + List.length errors)%nat /\
      effects st' = (effects started ++ concat (map (retryRound apiUrl) errors))%list) /\
     (List.length errors = 4%nat ->
      isLoadingEvents st' = false /\
      loadEventsRetryCount st' = 0 /\
      indicatorShown st' = false /\
      fetchCount st' = (fetchCount st + 1 + 3)%nat /\
      effects st'
      = (effects started
         ++ concat (map (retryRound apiUrl) (firstn 3 errors))
         ++ [SetTimeout Retry 1000;
             Notification MaxRetriesReached "error"])%list)).
Proof.
  split; [|split].
  - intros H. unfold loadEvents. rewrite H. reflexivity.
  - intros e H. unfold loadEvents_catch. rewrite H. reflexivity.
  - intros Hl errors Hq started st'.
    assert (Es : started
                 = issue (Fetch apiUrl)
                     (issue (SetTimeout Abort 10000)
                        (showLoadingIndicator
                           (hideDetails
                              (setRetryCount 0 (setLoading true st)))))).
    { subst started. unfold loadEvents. rewrite Hl. reflexivity. }
    assert (S1 : isLoadingEvents started = true) by (rewrite Es; reflexivity).
    assert (S2 : loadEventsRetryCount started = 0) by (rewrite Es; reflexivity).
    assert (S3 : effects started
                 = (effects st ++ [SetTimeout Abort 10000; Fetch apiUrl])%list).
    { rewrite Es. loader_effects. rewrite <- app_assoc. reflexivity. }
    assert (S4 : fetchCount started = (fetchCount st + 1)%nat).
    { unfold fetchCount. rewrite S3. loader_effects. }
    split; [exact S3|]. split.
    + intros Hn.
      destruct (failures_retry errors started Hq S1) as (A & B & C & D).
      { lia. } { unfold MAX_RETRY_COUNT. lia. }
      fold st' in A, B, C, D. repeat split; [exact A | lia | lia | exact D].
    + intros Hn.
      destruct errors as [|e1 [|e2 [|e3 [|e4 [|e5 r]]]]]; try discriminate Hn.
      cbn [forallb] in Hq.
      apply andb_true_iff in Hq as [Q1 Hq]. apply andb_true_iff in Hq as [Q2 Hq].
      apply andb_true_iff in Hq as [Q3 Hq]. apply andb_true_iff in Hq as [Q4 _].
      destruct (failures_retry [e1; e2; e3] started) as (A & B & C & D).
      { cbn [forallb]. rewrite Q1, Q2, Q3. reflexivity. }
      { exact S1. } { lia. } { rewrite S2. unfold MAX_RETRY_COUNT. cbn. lia. }
      set (third := fold_left (failedAttempt apiUrl) [e1; e2; e3] started) in *.
      assert (E' : st' = failedAttempt apiUrl third e4) by reflexivity.
      destruct (failedAttempt_gives_up third e4 Q4) as (A' & B' & C' & D' & F').
      { rewrite B, S2. reflexivity. }
      rewrite E'. repeat split; [exact A' | exact B' | exact C' | |].
      * rewrite D', C, S4. cbn [List.length]. lia.
      * rewrite F', D. cbn [firstn]. rewrite <- app_assoc. reflexivity.
Qed.

(** C7, at the failing input. The events are asked for and the network
    fails: in Chrome the fetch rejects with the message [Failed to fetch],
    in Firefox with [NetworkError when attempting to fetch resource.]
    Neither message contains [network] or [failed] as the handler looks
    for them, in lower case, so the failure is not retried: no retry timer
    is set, the load is abandoned at once, the loading state is reset and
    the error notification is shown. A timeout, in contrast, is
    retried. *)
Theorem C7_network_failure_is_not_retried :
  let started := loadEvents apiUrl false initial in
  retryable chromeNetworkError = false /\
  retryable firefoxNetworkError = false /\
  retryable timeout = true /\
  effects started = [SetTimeout Abort 10000; Fetch apiUrl] /\
  (let st' := failedAttempt apiUrl started chromeNetworkError in
   isLoadingEvents st' = false /\
   loadEventsRetryCount st' = 0 /\
   indicatorShown st' = false /\
   fetchCount st' = 1%nat /\
   effects st'
   = [SetTimeout Abort 10000; Fetch apiUrl;
      Notification (LoadFailed "Failed to fetch") "error"]) /\
  (let st' := failedAttempt apiUrl started firefoxNetworkError in
   isLoadingEvents st' = false /\
   loadEventsRetryCount st' = 0 /\
   indicatorShown st' = false /\
   fetchCount st' = 1%nat /\
   effects st'
   = [SetTimeout Abort 10000; Fetch apiUrl;
      Notification
        (LoadFailed "NetworkError when attempting to fetch resource.")
        "error"]) /\
  effects (failedAttempt apiUrl started timeout)
  = [SetTimeout Abort 10000; Fetch apiUrl;
     SetTimeout Retry 1000; SetTimeout Abort 10000; Fetch apiUrl].
Proof. intros started. repeat split. Qed.

End LoaderFacts.

Section LoaderScenarios.
Import EventLoader.

Lemma loadEvents_overlap_and_bounded_retry_witness :
  let url := "/api/events?date_from=2024-05-31&date_to=2024-06-30" in
  let started := loadEvents url false initial in
  loadEvents url false started = started /\
  loadEvents_catch timeout started = issue (SetTimeout Retry 1000) started /\
  (let st' := fold_left (failedAttempt url) [timeout; timeout; timeout] started in
   isLoadingEvents st' = true /\ loadEventsRetryCount st' = 3 /\
   fetchCount st' = 4%nat) /\
  (let st' :=
     fold_left (failedAttempt url) [timeout; timeout; timeout; timeout] started in
   isLoadingEvents st' = false /\ loadEventsRetryCount st' = 0 /\
   indicatorShown st' = false /\ fetchCount st' = 4%nat /\
   List.last (effects st') (Fetch url)
   = Notification MaxRetriesReached "error").
Proof.
  intros url started.
  destruct (loadEvents_overlap_and_bounded_retry url started) as (A & B & _).
  destruct (loadEvents_overlap_and_bounded_retry url initial) as (_ & _ & C).
  split; [apply A; reflexivity|].
  split; [apply B; reflexivity|].
  split.
  - destruct (C eq_refl [timeout; timeout; timeout] eq_refl) as (_ & D & _).
    destruct (D (le_n 3)) as (D1 & D2 & D3 & _).
    split; [exact D1|]. split; [exact D2|]. exact D3.
  - destruct (C eq_refl [timeout; timeout; timeout; timeout] eq_refl)
      as (_ & _ & D).
    destruct (D eq_refl) as (D1 & D2 & D3 & D4 & D5).
    split; [exact D1|]. split; [exact D2|]. split; [exact D3|].
    split; [exact D4|]. subst started url. rewrite D5. reflexivity.
Defined.

End LoaderScenarios.


(** * Further properties *)

(** ** The formats that the layout functions accept *)

Section LayoutFacts.
Import Formats JSText.

Lemma truthy_length r :
  truthy r = true ->
  negb (truthy r) || (String.length r =? 0)%nat = false.
Proof. destruct r; [discriminate|reflexivity]. Qed.

Lemma truthy_append a b : truthy a = true -> truthy (a ++ b) = true.
Proof. destruct a; [discriminate|reflexivity]. Qed.

(** The layout functions read a range through the parsed clock times of
    its two tokens only. *)
Lemma layout_two_tokens r r' a b a' b' :
  truthy r = true -> truthy r' = true ->
  split "-" r = [a; b] -> split "-" r' = [a'; b'] ->
  parseTimeString a = parseTimeString a' ->
  parseTimeString b = parseTimeString b' ->
  sameLayout r r'.
Proof.
  intros Hr Hr' Hs Hs' Ha Hb.
  unfold sameLayout, isOvernightEvent, calculateEventPosition.
  rewrite (truthy_length _ Hr), (truthy_length _ Hr'), Hs, Hs'.
  cbn [List.length Nat.eqb negb index nth_error interpolate].
  rewrite Ha, Hb. split; reflexivity.
Qed.

Lemma parseTimeString_trim s s' :
  trim s = trim s' -> parseTimeString s = parseTimeString s'.
Proof. unfold parseTimeString. intros ->. reflexivity. Qed.

Lemma spaced_tokens h m :
  wideClock h m ->
  trim (clockString h m ++ " ") = trim (clockString h m) /\
  trim (" " ++ clockString h m) = trim (clockString h m) /\
  contains "-" (clockString h m ++ " ") = false /\
  contains "-" (" " ++ clockString h m) = false.
Proof.
  intros [Hh Hm].
  apply (bool_decide_eq_true_1
           (trim (clockString h m ++ " ") = trim (clockString h m) /\
            trim (" " ++ clockString h m) = trim (clockString h m) /\
            contains "-" (clockString h m ++ " ") = false /\
            contains "-" (" " ++ clockString h m) = false)).
  revert h m Hh Hm.
  apply (forallb_interval2
           (fun h m =>
              bool_decide
                (trim (clockString h m ++ " ") = trim (clockString h m) /\
                 trim (" " ++ clockString h m) = trim (clockString h m) /\
                 contains "-" (clockString h m ++ " ") = false /\
                 contains "-" (" " ++ clockString h m) = false))).
  vm_compute. reflexivity.
Qed.

Lemma plain_tokens h m :
  wideClock h m ->
  split ":" (trim (plainClockString h m)) = [numberToString h; numberToString m] /\
  parseIntMath (numberToString h) = Some (false, h) /\
  parseIntMath (numberToString m) = Some (false, m) /\
  truthy (numberToString m) = true /\
  truthy (plainClockString h m) = true /\
  contains "-" (plainClockString h m) = false.
Proof.
  intros [Hh Hm].
  apply (bool_decide_eq_true_1
           (split ":" (trim (plainClockString h m))
            = [numberToString h; numberToString m] /\
            parseIntMath (numberToString h) = Some (false, h) /\
            parseIntMath (numberToString m) = Some (false, m) /\
            truthy (numberToString m) = true /\
            truthy (plainClockString h m) = true /\
            contains "-" (plainClockString h m) = false)).
  revert h m Hh Hm.
  apply (forallb_interval2
           (fun h m =>
              bool_decide
                (split ":" (trim (plainClockString h m))
                 = [numberToString h; numberToString m] /\
                 parseIntMath (numberToString h) = Some (false, h) /\
                 parseIntMath (numberToString m) = Some (false, m) /\
                 truthy (numberToString m) = true /\
                 truthy (plainClockString h m) = true /\
                 contains "-" (plainClockString h m) = false))).
  vm_compute. reflexivity.
Qed.

Lemma hour_tokens h :
  0 <= h <= 24 ->
  split ":" (trim (pad2 h)) = [pad2 h] /\
  parseIntMath (pad2 h) = Some (false, h) /\
  contains "-" (pad2 h) = false.
Proof.
  intros Hh.
  apply (bool_decide_eq_true_1
           (split ":" (trim (pad2 h)) = [pad2 h] /\
            parseIntMath (pad2 h) = Some (false, h) /\
            contains "-" (pad2 h) = false)).
  revert h Hh.
  apply (forallb_interval
           (fun h =>
              bool_decide
                (split ":" (trim (pad2 h)) = [pad2 h] /\
                 parseIntMath (pad2 h) = Some (false, h) /\
                 contains "-" (pad2 h) = false))).
  vm_compute. reflexivity.
Qed.

Lemma parseTimeString_plain h m :
  wideClock h m ->
  parseTimeString (plainClockString h m) = parseTimeString (clockString h m).
Proof.
  intros H. rewrite (parseTimeString_clock _ _ H).
  destruct (plain_tokens h m H) as (Hs & Hh & Hm & Ht & _).
  unfold parseTimeString. rewrite Hs. cbn [index nth_error interpolate].
  rewrite Ht. unfold parseInt. rewrite Hh, Hm. reflexivity.
Qed.

Lemma parseTimeString_hour h :
  0 <= h <= 24 ->
  parseTimeString (pad2 h) = parseTimeString (clockString h 0).
Proof.
  intros H. rewrite parseTimeString_clock by (unfold wideClock; lia).
  destruct (hour_tokens h H) as (Hs & Hh & _).
  unfold parseTimeString. rewrite Hs. cbn [index nth_error interpolate].
  unfold parseInt at 1. rewrite Hh. reflexivity.
Qed.

(** X1. The parser is lenient: spaces around the separator, missing zero
    padding and missing minutes (read as zero) give the same layout as the
    range written ["HH:MM-HH:MM"]. *)
Theorem lenient_time_range_formats sh sm eh em :
  validClock sh sm -> validClock eh em ->
  sameLayout (spacedRangeString sh sm eh em) (rangeString sh sm eh em) /\
  sameLayout (plainRangeString sh sm eh em) (rangeString sh sm eh em) /\
  sameLayout (hourRangeString sh eh) (rangeString sh 0 eh 0).
Proof.
  intros Hs He.
  pose proof (validClock_wide _ _ Hs) as Ws.
  pose proof (validClock_wide _ _ He) as We.
  destruct (spaced_tokens _ _ Ws) as (Ts & _ & Cs & _).
  destruct (spaced_tokens _ _ We) as (_ & Te & _ & Ce).
  destruct (plain_tokens _ _ Ws) as (_ & _ & _ & _ & Ps & Ds).
  destruct (plain_tokens _ _ We) as (_ & _ & _ & _ & _ & De).
  destruct Hs as [Hsh Hsm], He as [Heh Hem].
  destruct (hour_tokens sh) as (_ & _ & Ks); [lia|].
  destruct (hour_tokens eh) as (_ & _ & Ke); [lia|].
  split; [|split].
  - apply (layout_two_tokens _ _ (clockString sh sm ++ " ") (" " ++ clockString eh em)
             (clockString sh sm) (clockString eh em)).
    + reflexivity.
    + reflexivity.
    + unfold spacedRangeString.
      change ("-" ++ (" " ++ clockString eh em))
        with (String "-" (" " ++ clockString eh em)).
      rewrite (split_app _ _ _ Cs), (split_no_sep _ _ Ce). reflexivity.
    + apply split_rangeString; assumption.
    + apply parseTimeString_trim, Ts.
    + apply parseTimeString_trim, Te.
  - apply (layout_two_tokens _ _ (plainClockString sh sm) (plainClockString eh em)
             (clockString sh sm) (clockString eh em)).
    + unfold plainRangeString. apply truthy_append, Ps.
    + reflexivity.
    + unfold plainRangeString.
      change ("-" ++ plainClockString eh em)
        with (String "-" (plainClockString eh em)).
      rewrite (split_app _ _ _ Ds), (split_no_sep _ _ De). reflexivity.
    + apply split_rangeString; assumption.
    + apply parseTimeString_plain, Ws.
    + apply parseTimeString_plain, We.
  - apply (layout_two_tokens _ _ (pad2 sh) (pad2 eh)
             (clockString sh 0) (clockString eh 0)).
    + reflexivity.
    + reflexivity.
    + unfold hourRangeString.
      change ("-" ++ pad2 eh) with (String "-" (pad2 eh)).
      rewrite (split_app _ _ _ Ks), (split_no_sep _ _ Ke). reflexivity.
    + apply split_rangeString; unfold wideClock; lia.
    + apply parseTimeString_hour. lia.
    + apply parseTimeString_hour. lia.
Qed.

Lemma lenient_time_range_formats_witness :
  sameLayout "09:00 - 17:30" "09:00-17:30" /\
  sameLayout "9:0-17:30" "09:00-17:30" /\
  sameLayout "09-17" "09:00-17:00".
Proof.
  apply (lenient_time_range_formats 9 0 17 30); unfold validClock; lia.
Defined.

End LayoutFacts.

(** ** Overnight ranges and the geometry of their blocks *)

Section GeometryFacts.
Import Formats.

Lemma overnight_split_ranges sh sm eh em :
  validClock sh sm -> validClock eh em -> clockLt eh em sh sm ->
  isOvernightEvent (rangeString sh sm eh em) = true /\
  getCurrentDayTimeRange (rangeString sh sm eh em) = rangeString sh sm 24 0 /\
  getNextDayTimeRange (rangeString sh sm eh em) = Some (rangeString 0 0 eh em).
Proof.
  intros Hs He Hlt.
  pose proof (validClock_wide _ _ Hs) as Ws.
  pose proof (validClock_wide _ _ He) as We.
  assert (Hov : isOvernightEvent (rangeString sh sm eh em) = true).
  { rewrite (isOvernightEvent_rangeString _ _ _ _ Ws We).
    unfold clockLt in Hlt. apply orb_true_iff. lia. }
  split; [exact Hov|]. split.
  - unfold getCurrentDayTimeRange.
    rewrite Hov, (split_rangeString _ _ _ _ Ws We). reflexivity.
  - unfold getNextDayTimeRange.
    rewrite Hov, (split_rangeString _ _ _ _ Ws We). reflexivity.
Qed.

Lemma forward_range_is_kept sh sm eh em :
  validClock sh sm -> validClock eh em -> ~ clockLt eh em sh sm ->
  isOvernightEvent (rangeString sh sm eh em) = false /\
  getCurrentDayTimeRange (rangeString sh sm eh em) = rangeString sh sm eh em /\
  getNextDayTimeRange (rangeString sh sm eh em) = None.
Proof.
  intros Hs He Hlt.
  pose proof (validClock_wide _ _ Hs) as Ws.
  pose proof (validClock_wide _ _ He) as We.
  assert (Hov : isOvernightEvent (rangeString sh sm eh em) = false).
  { rewrite (isOvernightEvent_rangeString _ _ _ _ Ws We).
    unfold clockLt in Hlt. apply orb_false_iff. lia. }
  unfold getCurrentDayTimeRange, getNextDayTimeRange. rewrite Hov.
  repeat split.
Qed.

(** X2. Splitting an overnight range gives two ranges that are not overnight
    themselves, so splitting again changes nothing and an event never
    reaches a third day. *)
Theorem split_ranges_are_not_overnight sh sm eh em :
  validClock sh sm -> validClock eh em -> clockLt eh em sh sm ->
  let timeRange := rangeString sh sm eh em in
  isOvernightEvent (getCurrentDayTimeRange timeRange) = false /\
  getNextDayTimeRange (getCurrentDayTimeRange timeRange) = None /\
  exists nextDay,
    getNextDayTimeRange timeRange = Some nextDay /\
    isOvernightEvent nextDay = false /\
    getNextDayTimeRange nextDay = None /\
    getCurrentDayTimeRange nextDay = nextDay.
Proof.
  intros Hs He Hlt timeRange. subst timeRange.
  destruct (overnight_split_ranges _ _ _ _ Hs He Hlt) as (_ & Hc & Hn).
  pose proof (validClock_wide _ _ Hs) as Ws.
  pose proof (validClock_wide _ _ He) as We.
  assert (W24 : wideClock 24 0) by (unfold wideClock; lia).
  assert (W0 : wideClock 0 0) by (unfold wideClock; lia).
  assert (Hc' : isOvernightEvent (rangeString sh sm 24 0) = false).
  { rewrite (isOvernightEvent_rangeString _ _ _ _ Ws W24).
    destruct Hs. apply orb_false_iff. lia. }
  assert (Hn' : isOvernightEvent (rangeString 0 0 eh em) = false).
  { rewrite (isOvernightEvent_rangeString _ _ _ _ W0 We).
    destruct He. apply orb_false_iff. lia. }
  rewrite Hc, Hn. split; [exact Hc'|]. split.
  - unfold getNextDayTimeRange. rewrite Hc'. reflexivity.
  - eexists. split; [reflexivity|]. split; [exact Hn'|].
    unfold getNextDayTimeRange, getCurrentDayTimeRange. rewrite Hn'.
    split; reflexivity.
Qed.

Lemma split_ranges_are_not_overnight_witness :
  isOvernightEvent (getCurrentDayTimeRange "22:00-02:00") = false /\
  getNextDayTimeRange (getCurrentDayTimeRange "22:00-02:00") = None /\
  exists nextDay,
    getNextDayTimeRange "22:00-02:00" = Some nextDay /\
    isOvernightEvent nextDay = false /\
    getNextDayTimeRange nextDay = None /\
    getCurrentDayTimeRange nextDay = nextDay.
Proof.
  apply (split_ranges_are_not_overnight 22 0 2 0);
    unfold validClock, clockLt; lia.
Defined.

(** *** Exact geometry in minutes *)

Lemma exactHeight_minutes sh sm eh em :
  (exactHeight sh sm eh em
   == inject_Z (60 * (eh - sh) + (em - sm)) * (2 # 3))%Q.
Proof.
  unfold exactHeight.
  rewrite inject_Z_plus, inject_Z_mult, !inject_Z_sub.
  change (inject_Z 60) with 60%Q. field.
Qed.

Lemma exactTop_minutes h m :
  (exactTop h m == inject_Z (60 * h + m) * (2 # 3) + 30)%Q.
Proof.
  unfold exactTop. rewrite inject_Z_plus, inject_Z_mult.
  change (inject_Z 60) with 60%Q. field.
Qed.

Lemma minutes_le a b : a <= b -> (inject_Z a * (2 # 3) <= inject_Z b * (2 # 3))%Q.
Proof.
  intros H. apply Qmult_le_compat_r; [|discriminate].
  rewrite <- Zle_Qle. exact H.
Qed.

Lemma minutes_pos a : 0 < a -> (0 < inject_Z a * (2 # 3))%Q.
Proof.
  intros H. unfold Qlt. cbn. lia.
Qed.

Lemma top_near h m :
  wideClock h m ->
  near ((of_Z h + of_Z m / 60) * 40 + 30)%float (exactTop h m).
Proof.
  intros [Hh Hm]. apply Qle_bool_iff. revert h m Hh Hm.
  apply (forallb_interval2
           (fun h m =>
              nearb ((of_Z h + of_Z m / 60) * 40 + 30)%float (exactTop h m))).
  vm_compute. reflexivity.
Qed.

(** The position of a range that ends after it starts. *)
Lemma forward_position sh sm eh em :
  wideClock sh sm -> wideClock eh em -> clockLt sh sm eh em ->
  exists pos,
    calculateEventPosition (rangeString sh sm eh em) = Some pos /\
    near (top pos) (exactTop sh sm) /\
    near (height pos) (exactHeight sh sm eh em).
Proof.
  intros Ws We Hlt.
  destruct (height_forward sh sm eh em Ws We Hlt) as (pos & Hp & _ & Hn).
  exists pos. split; [exact Hp|]. split.
  - rewrite (calculateEventPosition_rangeString _ _ _ _ Ws We) in Hp.
    injection Hp as <-. cbn [top]. apply top_near, Ws.
  - eapply near_eq; [|exact Hn]. unfold exactHeight. field.
Qed.

(** The continuation of an overnight range starts at the top of the
    timeline. *)
Lemma continuation_position eh em :
  validClock eh em ->
  exists pos,
    calculateEventPosition (rangeString 0 0 eh em) = Some pos /\
    top pos = 30%float /\
    near (height pos) (exactContinuationHeight eh em).
Proof.
  intros He. pose proof (validClock_wide _ _ He) as We.
  assert (W0 : wideClock 0 0) by (unfold wideClock; lia).
  unfold exactContinuationHeight.
  destruct ((eh =? 0)%Z && (em =? 0)%Z) eqn:Hz.
  - apply andb_true_iff in Hz as [Hh Hm].
    apply Z.eqb_eq in Hh, Hm. subst eh em.
    eexists. split; [reflexivity|]. split; [reflexivity|].
    apply Qle_bool_iff. reflexivity.
  - destruct (height_forward 0 0 eh em W0 We) as (pos & Hp & _ & Hn).
    { destruct He. apply andb_false_iff in Hz. unfold clockLt.
      destruct Hz as [Hz|Hz]; apply Z.eqb_neq in Hz; lia. }
    exists pos. split; [exact Hp|]. split.
    + rewrite (calculateEventPosition_rangeString _ _ _ _ W0 We) in Hp.
      injection Hp as <-. reflexivity.
    + eapply near_eq; [|exact Hn]. unfold exactHeight. field.
Qed.

(** The position of the block on the event's own day. *)
Lemma own_day_position sh sm eh em :
  validClock sh sm -> validClock eh em -> (sh, sm) <> (eh, em) ->
  exists pos,
    calculateEventPosition (getCurrentDayTimeRange (rangeString sh sm eh em))
    = Some pos /\
    near (top pos) (exactTop sh sm) /\
    near (height pos) (exactOwnDayHeight sh sm eh em).
Proof.
  intros Hs He Hne.
  pose proof (validClock_wide _ _ Hs) as Ws.
  pose proof (validClock_wide _ _ He) as We.
  unfold exactOwnDayHeight, clockLtb.
  destruct ((sh <? eh)%Z || ((sh =? eh)%Z && (sm <? em)%Z)) eqn:Hf.
  - assert (Hlt : clockLt sh sm eh em) by (unfold clockLt; lia).
    destruct (forward_range_is_kept _ _ _ _ Hs He) as (_ & -> & _).
    { unfold clockLt in *. lia. }
    apply forward_position; assumption.
  - assert (Hlt : clockLt eh em sh sm).
    { unfold clockLt.
      destruct (Z.eq_dec sh eh) as [->|], (Z.eq_dec sm em) as [->|];
        [contradiction Hne; reflexivity | lia | lia | lia]. }
    destruct (overnight_split_ranges _ _ _ _ Hs He Hlt) as (_ & -> & _).
    apply forward_position; [exact Ws | unfold wideClock; lia |].
    destruct Hs. unfold clockLt. lia.
Qed.

(** X3. For every valid range whose start and end differ, the block on the
    event's own day lies inside the 24-hour timeline: it starts at the
    offset of the start time, at or below the 30-pixel header, it has a
    positive height (until the end time, or until midnight when the range
    is overnight), and it ends at or above 990 pixels; the computed numbers
    are the exact ones up to rounding. *)
Theorem own_day_block_is_inside_the_timeline sh sm eh em :
  validClock sh sm -> validClock eh em -> (sh, sm) <> (eh, em) ->
  exists pos,
    calculateEventPosition (getCurrentDayTimeRange (rangeString sh sm eh em))
    = Some pos /\
    near (top pos) (exactTop sh sm) /\
    near (height pos) (exactOwnDayHeight sh sm eh em) /\
    (30 <= exactTop sh sm)%Q /\
    (0 < exactOwnDayHeight sh sm eh em)%Q /\
    (exactTop sh sm + exactOwnDayHeight sh sm eh em <= 990)%Q.
Proof.
  intros Hs He Hne.
  destruct (own_day_position _ _ _ _ Hs He Hne) as (pos & Hp & Ht & Hh).
  exists pos. split; [exact Hp|]. split; [exact Ht|]. split; [exact Hh|].
  destruct Hs as [Hsh Hsm], He as [Heh Hem].
  assert (B : (30 <= exactTop sh sm)%Q).
  { rewrite exactTop_minutes.
    assert (T : (30 == inject_Z 0 * (2 # 3) + 30)%Q) by reflexivity.
    rewrite T at 1. apply Qplus_le_compat; [|apply Qle_refl].
    apply minutes_le. lia. }
  split; [exact B|].
  unfold exactOwnDayHeight, clockLtb.
  destruct ((sh <? eh)%Z || ((sh =? eh)%Z && (sm <? em)%Z)) eqn:Hf.
  - split.
    + rewrite exactHeight_minutes. apply minutes_pos. lia.
    + rewrite exactTop_minutes, exactHeight_minutes.
      assert (T : (inject_Z (60 * sh + sm) * (2 # 3) + 30
                   + inject_Z (60 * (eh - sh) + (em - sm)) * (2 # 3)
                   == inject_Z (60 * eh + em) * (2 # 3) + 30)%Q).
      { rewrite !inject_Z_plus, !inject_Z_mult, !inject_Z_sub. ring. }
      rewrite T.
      assert (U : (990 == inject_Z 1440 * (2 # 3) + 30)%Q) by reflexivity.
      rewrite U. apply Qplus_le_compat; [|apply Qle_refl].
      apply minutes_le. lia.
  - split.
    + rewrite exactHeight_minutes. apply minutes_pos. lia.
    + rewrite exactTop_minutes, exactHeight_minutes.
      assert (T : (inject_Z (60 * sh + sm) * (2 # 3) + 30
                   + inject_Z (60 * (24 - sh) + (0 - sm)) * (2 # 3)
                   == 990)%Q).
      { rewrite !inject_Z_plus, !inject_Z_mult, !inject_Z_sub.
        change (inject_Z 24) with 24%Q. change (inject_Z 60) with 60%Q.
        change (inject_Z 0) with 0%Q. ring. }
      rewrite T. apply Qle_refl.
Qed.

Lemma own_day_block_is_inside_the_timeline_witness :
  exists pos,
    calculateEventPosition (getCurrentDayTimeRange "22:30-01:15") = Some pos /\
    near (top pos) (exactTop 22 30) /\
    near (height pos) (exactOwnDayHeight 22 30 1 15) /\
    (30 <= exactTop 22 30)%Q /\
    (0 < exactOwnDayHeight 22 30 1 15)%Q /\
    (exactTop 22 30 + exactOwnDayHeight 22 30 1 15 <= 990)%Q.
Proof.
  apply (own_day_block_is_inside_the_timeline 22 30 1 15);
    [unfold validClock; lia | unfold validClock; lia | discriminate].
Defined.

End GeometryFacts.

(** ** The blocks of the week and day views *)

Section ViewFacts.
Import Formats.

Lemma validRange_cases r :
  validRange r ->
  (isOvernightEvent r = false /\ getNextDayTimeRange r = None /\
   exists own, calculateEventPosition r = Some own) \/
  (isOvernightEvent r = true /\
   exists own cont,
     calculateEventPosition (getCurrentDayTimeRange r) = Some own /\
     getNextDayTimeRange r = Some (snd cont) /\
     calculateEventPosition (snd cont) = Some (fst cont) /\
     top (fst cont) = 30%float).
Proof.
  intros (sh & sm & eh & em & Hs & He & ->).
  pose proof (validClock_wide _ _ Hs) as Ws.
  pose proof (validClock_wide _ _ He) as We.
  destruct (isOvernightEvent (rangeString sh sm eh em)) eqn:Hov.
  - right. split; [reflexivity|].
    assert (Hlt : clockLt eh em sh sm).
    { rewrite (isOvernightEvent_rangeString _ _ _ _ Ws We) in Hov.
      unfold clockLt. lia. }
    destruct (overnight_split_ranges _ _ _ _ Hs He Hlt) as (_ & Hc & Hn).
    destruct (continuation_position _ _ He) as (cont & Hp & Ht & _).
    eexists. exists (cont, rangeString 0 0 eh em). cbn [fst snd].
    rewrite Hc. split.
    + apply calculateEventPosition_rangeString; [exact Ws | unfold wideClock; lia].
    + split; [exact Hn|]. split; [exact Hp | exact Ht].
  - left. split; [reflexivity|]. split.
    + unfold getNextDayTimeRange. rewrite Hov. reflexivity.
    + eexists. apply calculateEventPosition_rangeString; assumption.
Qed.

End ViewFacts.


Section DayViewFacts.
Import Formats.

Lemma dayOwnDay_valid e :
  validRange (event_time_range e) ->
  exists pos, dayOwnDay e = [ownDayBlock e 0 pos].
Proof.
  intros Hv. unfold dayOwnDay.
  destruct (validRange_cases _ Hv) as [(Hov & _ & own & Ho) | (Hov & own & _ & Ho & _)];
    rewrite Hov, Ho; exists own; reflexivity.
Qed.

Lemma dayPreviousDay_valid e :
  validRange (event_time_range e) ->
  (isOvernightEvent (event_time_range e) = false /\ dayPreviousDay e = []) \/
  (isOvernightEvent (event_time_range e) = true /\
   exists cont,
     dayPreviousDay e = [continuationBlock e 0 cont] /\ top cont = 30%float).
Proof.
  intros Hv. unfold dayPreviousDay.
  destruct (validRange_cases _ Hv)
    as [(Hov & _) | (Hov & own & [cont next] & _ & Hn & Hp & Ht)];
    rewrite Hov; [left; split; reflexivity|].
  right. split; [reflexivity|]. cbn [fst snd] in *.
  rewrite Hn. cbn [calculateEventPositionOrNull]. rewrite Hp.
  exists cont. split; [reflexivity | exact Ht].
Qed.

Lemma day_own_blocks d events :
  Forall (fun e => validRange (event_time_range e)) events ->
  let own := flat_map dayOwnDay (List.filter (onDate d) events) in
  map block_event own = List.filter (onDate d) events /\
  Forall (fun b => isContinuation b = false /\ block_column b = 0%nat) own.
Proof.
  induction 1 as [|e r He Hr IH]; cbn [List.filter]; [split; constructor|].
  destruct (onDate d e); [|exact IH].
  destruct (dayOwnDay_valid e He) as (pos & E).
  cbn [flat_map]. rewrite E. destruct IH as [A B]. split.
  - cbn [app map]. rewrite A. reflexivity.
  - constructor; [split; reflexivity | exact B].
Qed.

Lemma day_continuation_blocks d events :
  Forall (fun e => validRange (event_time_range e)) events ->
  let cont := flat_map dayPreviousDay (List.filter (onDate d) events) in
  map block_event cont
  = List.filter (fun e => isOvernightEvent (event_time_range e))
                (List.filter (onDate d) events) /\
  Forall (fun b => isContinuation b = true /\ block_column b = 0%nat /\
                   block_top b = 30%float) cont.
Proof.
  induction 1 as [|e r He Hr IH]; cbn [List.filter]; [split; constructor|].
  destruct (onDate d e); [|exact IH].
  cbn [flat_map List.filter]. destruct IH as [A B].
  destruct (dayPreviousDay_valid e He) as [(Hov & E) | (Hov & cont & E & Ht)];
    rewrite Hov, E.
  - split; [exact A | exact B].
  - split.
    + cbn [app map]. rewrite A. reflexivity.
    + constructor; [|exact B]. repeat split. exact Ht.
Qed.

(** X6. The day view shows every event of the current date exactly once, by
    its own-day block, then every overnight event of the previous date
    exactly once, by its continuation, which starts at the top of the
    column; it shows nothing else. *)
Theorem day_view_shows_each_event_once currentDateStr prevDateStr events :
  Forall (fun e => validRange (event_time_range e)) events ->
  exists own cont,
    blocks (renderDayView currentDateStr prevDateStr events) = (own ++ cont)%list /\
    map block_event own = List.filter (onDate currentDateStr) events /\
    Forall (fun b => isContinuation b = false /\ block_column b = 0%nat) own /\
    map block_event cont
    = List.filter (fun e => isOvernightEvent (event_time_range e))
                  (List.filter (onDate prevDateStr) events) /\
    Forall (fun b => isContinuation b = true /\ block_column b = 0%nat /\
                     block_top b = 30%float) cont.
Proof.
  intros Hv.
  destruct (day_own_blocks currentDateStr events Hv) as [A B].
  destruct (day_continuation_blocks prevDateStr events Hv) as [C D].
  eexists. eexists. split; [reflexivity|].
  split; [exact A|]. split; [exact B|]. split; [exact C | exact D].
Qed.

Lemma day_view_shows_each_event_once_witness :
  let late := {| event_id := "7"; event_date := "2024-06-02";
                 event_time_range := "23:00-01:30"; event_title := "Deploy";
                 event_is_completed := false; event_source := "backend" |} in
  let standup := {| event_id := "8"; event_date := "2024-06-03";
                    event_time_range := "09:00-09:15"; event_title := "Standup";
                    event_is_completed := false; event_source := "backend" |} in
  exists own cont,
    blocks (renderDayView "2024-06-03" "2024-06-02" [late; standup])
    = (own ++ cont)%list /\
    map block_event own = [standup] /\
    Forall (fun b => isContinuation b = false /\ block_column b = 0%nat) own /\
    map block_event cont = [late] /\
    Forall (fun b => isContinuation b = true /\ block_column b = 0%nat /\
                     block_top b = 30%float) cont.
Proof.
  intros late standup.
  apply (day_view_shows_each_event_once "2024-06-03" "2024-06-02" [late; standup]).
  repeat constructor.
  - exists 23, 0, 1, 30. repeat split; lia.
  - exists 9, 0, 9, 15. repeat split; lia.
Defined.

End DayViewFacts.

(** ** Further properties of the mutation guard *)

Section GuardMore.
Import MutationGuard GuardQueries.

Context {engine : SelectorEngine}.
Variable today : string.

Lemma isDeleteRequest_other taskId other :
  other <> taskId ->
  isDeleteRequest taskId (Fetch "DELETE" ("/api/completed-tasks/" ++ other) None)
  = false.
Proof.
  intros Hne. cbn [isDeleteRequest]. apply andb_false_iff. right.
  apply String.eqb_neq. intros H. apply Hne.
  exact (append_cancel_head _ _ _ H).
Qed.

Lemma isDeleteRequest_same taskId :
  isDeleteRequest taskId (Fetch "DELETE" ("/api/completed-tasks/" ++ taskId) None)
  = true.
Proof. unfold isDeleteRequest. rewrite !String.eqb_refl. reflexivity. Qed.

(** A completion issues no DELETE request. *)
Lemma markEventCompleted_no_delete st eventId completed taskId :
  exists new,
    effects (markEventCompleted today eventId completed st)
    = (effects st ++ new)%list /\
    countOf (isDeleteRequest taskId) new = 0%nat.
Proof.
  destruct (decide (eventId ∈ completedEvents st)) as [Hc|Hc];
    [|destruct (decide (eventId ∈ processingEvents st)) as [Hp|Hp]].
  - exists []. rewrite (markEventCompleted_rejected today) by (left; exact Hc).
    rewrite app_nil_r. split; reflexivity.
  - exists []. rewrite (markEventCompleted_rejected today) by (right; exact Hp).
    rewrite app_nil_r. split; reflexivity.
  - destruct (markEventCompleted_started today st eventId completed Hc Hp)
      as (_ & _ & nodes & requests & He & Hr).
    eexists. split; [exact He|].
    rewrite countOf_app, countOf_timers by reflexivity.
    destruct Hr as [-> | (date & ->)]; reflexivity.
Qed.

(** A deletion issues no DELETE request for an id that is being
    processed. *)
Lemma deleteCompletedTask_no_delete st taskId busy :
  busy ∈ processingEvents st ->
  exists new,
    effects (deleteCompletedTask taskId st) = (effects st ++ new)%list /\
    countOf (isDeleteRequest busy) new = 0%nat.
Proof.
  intros Hb.
  destruct (decide (taskId ∈ processingEvents st)) as [Hp|Hp].
  - exists []. rewrite deleteCompletedTask_rejected by exact Hp.
    rewrite app_nil_r. split; reflexivity.
  - destruct (deleteCompletedTask_started st taskId Hp)
      as (_ & _ & nodes & requests & He & Hr).
    eexists. split; [exact He|].
    rewrite countOf_app, countOf_timers by reflexivity.
    destruct Hr as [-> | ->]; [reflexivity|].
    rewrite countOf_one, isDeleteRequest_other; [reflexivity|].
    intros ->. contradiction.
Qed.

Lemma step_no_delete st a busy :
  busy ∈ processingEvents st ->
  countOf (isDeleteRequest busy) (effects (step today st a))
  = countOf (isDeleteRequest busy) (effects st).
Proof.
  intros Hin.
  assert (Hnew : exists new,
             effects (step today st a) = (effects st ++ new)%list /\
             countOf (isDeleteRequest busy) new = 0%nat).
  { destruct a as [node|node answer|i|i|i c|i o|i o|node]; cbn [step].
    - unfold completeButtonClick.
      destruct (nth_error (document st) node) as [el|];
        [|exists []; rewrite app_nil_r; split; reflexivity].
      destruct (has (completedEvents st) (el_eventId el));
        [exists []; rewrite app_nil_r; split; reflexivity|].
      apply markEventCompleted_no_delete.
    - unfold deleteButtonClick.
      destruct (nth_error (document st) node) as [el|];
        [|exists []; rewrite app_nil_r; split; reflexivity].
      destruct (has (completedEvents st) (el_eventId el));
        [exists []; rewrite app_nil_r; split; reflexivity|].
      destruct answer; cbn [negb];
        [|exists [Confirm ConfirmDelete]; split; reflexivity].
      match goal with |- context [deleteCompletedTask ?i ?s] =>
        destruct (deleteCompletedTask_no_delete s i busy) as (new & E & Hc) end.
      { cbn [processingEvents setDocument setCompleted issue issueAll].
        exact Hin. }
      exists (Confirm ConfirmDelete :: new). split.
      + rewrite E. cbn [effects setDocument setCompleted issue issueAll].
        rewrite <- app_assoc. reflexivity.
      + change (Confirm ConfirmDelete :: new)
          with ([Confirm ConfirmDelete] ++ new)%list.
        rewrite countOf_app, Hc. reflexivity.
    - apply markEventCompleted_no_delete.
    - apply deleteCompletedTask_no_delete, Hin.
    - apply markEventCompleted_no_delete.
    - destruct o as [status message|].
      + unfold markEventCompleted_then.
        destruct (String.eqb status "success"); eexists;
          (split; [cbn [effects setProcessing setCompleted issue issueAll
                        restoreCompleting setDocument];
                   rewrite <- ?app_assoc; reflexivity | reflexivity]).
      + eexists. split; [reflexivity|reflexivity].
    - destruct o as [status message|].
      + unfold deleteCompletedTask_then.
        destruct (String.eqb status "success"); eexists;
          (split; [cbn [effects setProcessing setCompleted issue issueAll];
                   rewrite <- ?app_assoc; reflexivity | reflexivity]).
      + eexists. split; [reflexivity|reflexivity].
    - exists []. rewrite app_nil_r. split; reflexivity. }
  destruct Hnew as (new & -> & Hc).
  rewrite countOf_app, Hc. lia.
Qed.

Lemma run_processing st actions busy :
  forallb (fun a => negb (settles busy a)) actions = true ->
  busy ∈ processingEvents st ->
  busy ∈ processingEvents (run today st actions) /\
  countOf (isDeleteRequest busy) (effects (run today st actions))
  = countOf (isDeleteRequest busy) (effects st).
Proof.
  revert st. induction actions as [|a r IH]; intros st Hq Hp.
  - split; [exact Hp | reflexivity].
  - cbn [forallb] in Hq. apply andb_true_iff in Hq as [Ha Hr].
    apply negb_true_iff in Ha.
    destruct (step_keeps_membership today st a busy Ha) as [Kp _].
    cbn [run fold_left].
    destruct (IH (step today st a) Hr (Kp Hp)) as (A & C).
    split; [exact A|].
    unfold run in C. rewrite C. apply step_no_delete, Hp.
Qed.

Lemma run_completed st actions settled :
  forallb (fun a => negb (settles settled a)) actions = true ->
  settled ∈ completedEvents st ->
  settled ∈ completedEvents (run today st actions) /\
  countOf (isCompletePost settled) (effects (run today st actions))
  = countOf (isCompletePost settled) (effects st).
Proof.
  revert st. induction actions as [|a r IH]; intros st Hq Hc.
  - split; [exact Hc | reflexivity].
  - cbn [forallb] in Hq. apply andb_true_iff in Hq as [Ha Hr].
    apply negb_true_iff in Ha.
    destruct (step_keeps_membership today st a settled Ha) as [_ Kc].
    cbn [run fold_left].
    destruct (IH (step today st a) Hr (Kc Hc)) as (A & C).
    split; [exact A|].
    unfold run in C. rewrite C. apply (step_no_post today), Hc.
Qed.

(** X7. When [deleteCompletedTask] is invoked for an id that is not being
    processed and invoked again for the same id before any request for
    that id has been settled, whatever the user clicks in between, the
    second invocation leaves the state unchanged, the id being in the
    processing set. When the selection of the items in the first
    invocation does not throw, exactly one DELETE request for that id is
    issued; when it throws, none is, since it throws before the
    request. *)
Theorem second_deletion_is_rejected st taskId between :
  taskId ∉ processingEvents st ->
  forallb (fun a => negb (settles taskId a)) between = true ->
  let st1 := deleteCompletedTask taskId st in
  let st2 := run today st1 between in
  let st3 := deleteCompletedTask taskId st2 in
  taskId ∈ processingEvents st2 /\
  st3 = st2 /\
  (querySelectorAllEvent taskId (document st) <> None ->
   countOf (isDeleteRequest taskId) (effects st3)
   = S (countOf (isDeleteRequest taskId) (effects st))) /\
  (querySelectorAllEvent taskId (document st) = None ->
   countOf (isDeleteRequest taskId) (effects st3)
   = countOf (isDeleteRequest taskId) (effects st)).
Proof.
  intros Hp Hq st1 st2 st3.
  assert (H1p : taskId ∈ processingEvents st1).
  { destruct (deleteCompletedTask_started st taskId Hp) as (Hps & _).
    fold st1 in Hps. rewrite Hps. apply in_add_same. }
  destruct (run_processing st1 between taskId Hq H1p) as (A & C).
  fold st2 in A, C.
  assert (E3 : st3 = st2).
  { subst st3. apply deleteCompletedTask_rejected. exact A. }
  split; [exact A|]. split; [exact E3|]. rewrite E3, C. split; intros Hs.
  - destruct (querySelectorAllEvent taskId (document st)) as [nodes|] eqn:Q;
      [|contradiction].
    destruct (deleteCompletedTask_selected st taskId nodes Q Hp)
      as (st' & E & _ & _ & He).
    subst st1. rewrite E. cbn [effects issue issueAll]. rewrite He.
    rewrite !countOf_app, countOf_timers by reflexivity.
    rewrite countOf_one, isDeleteRequest_same. lia.
  - subst st1. rewrite (deleteCompletedTask_thrown st taskId Hs Hp).
    reflexivity.
Qed.

(** X8. A task that was completed successfully stays in the settled set:
    until a request for its id fails, no completion request is issued for
    it again, and a click on the complete or the delete button of any of
    its items does nothing, not even ask for confirmation. *)
Theorem completed_task_stays_settled st eventId message after :
  eventId ∈ completedEvents st ->
  forallb (fun a => negb (settles eventId a)) after = true ->
  let st1 := markEventCompleted_then eventId "success" message st in
  let st2 := run today st1 after in
  eventId ∈ completedEvents st2 /\
  countOf (isCompletePost eventId) (effects st2)
  = countOf (isCompletePost eventId) (effects st) /\
  (forall completed, markEventCompleted today eventId completed st2 = st2) /\
  (forall node el answer,
     nth_error (document st2) node = Some el -> el_eventId el = eventId ->
     completeButtonClick today node st2 = st2 /\
     deleteButtonClick node answer st2 = st2).
Proof.
  intros Hc Hq st1 st2.
  assert (H1c : eventId ∈ completedEvents st1) by exact Hc.
  assert (H1e : countOf (isCompletePost eventId) (effects st1)
                = countOf (isCompletePost eventId) (effects st)).
  { subst st1. unfold markEventCompleted_then.
    cbn [String.eqb Ascii.eqb Bool.eqb effects setProcessing issue issueAll].
    rewrite !countOf_app, !countOf_one. cbn [isCompletePost]. lia. }
  destruct (run_completed st1 after eventId Hq H1c) as (A & C).
  fold st2 in A, C.
  split; [exact A|]. split; [rewrite C; exact H1e|]. split.
  - intros completed. apply markEventCompleted_rejected. left. exact A.
  - intros node el answer Hn He. apply has_true in A.
    unfold completeButtonClick, deleteButtonClick.
    rewrite Hn, He, A. split; reflexivity.
Qed.

(** X9. The failure of one completion restores the items of every other
    completion that is still in flight: such an item is shown as before
    (full opacity, enabled complete button), the id of its event is still
    in both sets, and a click on its complete button does nothing. *)
Theorem failure_restores_items_of_other_requests st failedId otherId o node el b :
  failedId <> otherId -> failed o = true ->
  nth_error (document st) node = Some el ->
  el_eventId el = otherId -> matchesCompleting el = true ->
  el_button el = Some b -> button_kind b = CompleteButton ->
  otherId ∈ processingEvents st -> otherId ∈ completedEvents st ->
  let st' := step today st (CompleteSettled failedId o) in
  nth_error (document st') node = Some (restore el) /\
  el_opacity (restore el) = "1" /\
  el_pointerEvents (restore el) = "auto" /\
  el_button (restore el)
  = Some {| button_kind := CompleteButton; button_disabled := false;
            button_text := Circle |} /\
  otherId ∈ processingEvents st' /\ otherId ∈ completedEvents st' /\
  completeButtonClick today node st' = st'.
Proof.
  intros Hne Hf Hn He Hm Hb Hk Hp Hc st'.
  assert (Hs : settles otherId (CompleteSettled failedId o) = false)
    by (apply String.eqb_neq, Hne).
  destruct (step_keeps_membership today st _ otherId Hs) as [Kp Kc].
  pose proof (failed_completion_restores today st failedId o node el Hf Hn) as Hd.
  cbv zeta in Hd. rewrite Hm in Hd. fold st' in Hd.
  split; [exact Hd|]. split; [reflexivity|]. split; [reflexivity|].
  split; [destruct (restore_visible el) as (_ & _ & R); apply (R b Hb Hk)|].
  split; [apply Kp, Hp|]. split; [apply Kc, Hc|].
  unfold completeButtonClick. rewrite Hd. cbn [el_eventId restore]. rewrite He.
  pose proof (Kc Hc) as Hin. fold st' in Hin. apply has_true in Hin.
  rewrite Hin. reflexivity.
Qed.

End GuardMore.

Section GuardMoreScenarios.
Import MutationGuard GuardQueries.

#[local] Existing Instance strictEngine.

Lemma second_deletion_is_rejected_witness :
  (let st1 := deleteCompletedTask "42" (pageDone42 false) in
   let st2 := run "2024-06-03" st1
                [ClickDelete 0 true; DetailsDelete "42"; TimerRemove 0] in
   let st3 := deleteCompletedTask "42" st2 in
   "42" ∈ processingEvents st2 /\
   st3 = st2 /\
   countOf (isDeleteRequest "42") (effects st3) = 1%nat) /\
  (let st1 := deleteCompletedTask quoted42 pageDoneQuoted in
   let st2 := run "2024-06-03" st1 [ClickDelete 0 true; DetailsDelete quoted42] in
   let st3 := deleteCompletedTask quoted42 st2 in
   quoted42 ∈ processingEvents st2 /\
   st3 = st2 /\
   countOf (isDeleteRequest quoted42) (effects st3) = 0%nat).
Proof.
  split.
  - destruct (second_deletion_is_rejected "2024-06-03" (pageDone42 false) "42"
                [ClickDelete 0 true; DetailsDelete "42"; TimerRemove 0])
      as (A & B & C & _).
    + apply (bool_decide_eq_false_1 _). vm_compute. reflexivity.
    + vm_compute. reflexivity.
    + split; [exact A|]. split; [exact B|]. apply C. discriminate.
  - destruct (second_deletion_is_rejected "2024-06-03" pageDoneQuoted quoted42
                [ClickDelete 0 true; DetailsDelete quoted42])
      as (A & B & _ & D).
    + apply (bool_decide_eq_false_1 _). vm_compute. reflexivity.
    + vm_compute. reflexivity.
    + split; [exact A|]. split; [exact B|]. apply D. reflexivity.
Defined.

Lemma completed_task_stays_settled_witness :
  let st := markEventCompleted "2024-06-03" "42" true page42 in
  let st1 := markEventCompleted_then "42" "success" "ok" st in
  let st2 := run "2024-06-03" st1 [ClickComplete 0; ClickDelete 0 true] in
  "42" ∈ completedEvents st2 /\
  countOf (isCompletePost "42") (effects st2) = 1%nat /\
  (forall completed, markEventCompleted "2024-06-03" "42" completed st2 = st2) /\
  (forall node el answer,
     nth_error (document st2) node = Some el -> el_eventId el = "42" ->
     completeButtonClick "2024-06-03" node st2 = st2 /\
     deleteButtonClick node answer st2 = st2).
Proof.
  intros st.
  apply (completed_task_stays_settled "2024-06-03" st "42" "ok"
           [ClickComplete 0; ClickDelete 0 true]).
  - apply (bool_decide_eq_true_1 _). vm_compute. reflexivity.
  - vm_compute. reflexivity.
Defined.

Lemma failure_restores_items_of_other_requests_witness :
  let st := markEventCompleted "2024-06-03" "43" true
              (markEventCompleted "2024-06-03" "42" true page4243) in
  let el := fade true (renderEventItem task43 false) in
  let st' := step "2024-06-03" st (CompleteSettled "42" Rejected) in
  nth_error (document st') 1 = Some (restore el) /\
  el_opacity (restore el) = "1" /\
  el_pointerEvents (restore el) = "auto" /\
  el_button (restore el)
  = Some {| button_kind := CompleteButton; button_disabled := false;
            button_text := Circle |} /\
  "43" ∈ processingEvents st' /\ "43" ∈ completedEvents st' /\
  completeButtonClick "2024-06-03" 1 st' = st'.
Proof.
  intros st el.
  apply (failure_restores_items_of_other_requests "2024-06-03" st "42" "43"
           Rejected 1%nat el
           {| button_kind := CompleteButton; button_disabled := true;
              button_text := Ellipsis |});
    try reflexivity.
  all: first [discriminate
             | apply (bool_decide_eq_true_1 _); vm_compute; reflexivity].
Defined.

End GuardMoreScenarios.

(** ** The optimistic removal of event items *)

Section RemovalFacts.
Import MutationGuard GuardQueries.

Context {engine : SelectorEngine}.
Variable today : string.

Lemma selectFrom_In p doc : forall i k,
  In k (selectFrom i p doc) <->
  (i <= k)%nat /\ exists el, nth_error doc (k - i) = Some el /\ p el = true.
Proof.
  induction doc as [|el r IH]; intros i k; cbn [selectFrom].
  - split; [contradiction|]. intros (_ & el & H & _).
    destruct (k - i)%nat; discriminate.
  - assert (Hr : In k (selectFrom (S i) p r) <->
                 (i < k)%nat /\
                 exists el', nth_error (el :: r) (k - i) = Some el' /\ p el' = true).
    { rewrite IH. split; intros (Hle & el' & Hn & Hp'); (split; [lia|]);
        exists el'; (split; [|exact Hp']).
      - replace (k - i)%nat with (S (k - S i)) by lia. exact Hn.
      - replace (k - i)%nat with (S (k - S i)) in Hn by lia. exact Hn. }
    destruct (p el) eqn:Hp.
    + cbn [In]. rewrite Hr. split.
      * intros [<- | (Hle & H)].
        -- split; [lia|]. exists el. rewrite Nat.sub_diag. split; [reflexivity|exact Hp].
        -- split; [lia | exact H].
      * intros (Hle & H). destruct (Nat.eq_dec i k) as [E|Hne]; [left; exact E|right].
        split; [lia | exact H].
    + rewrite Hr. split.
      * intros (Hle & H). split; [lia | exact H].
      * intros (Hle & el' & Hn & Hp'). destruct (Nat.eq_dec i k) as [E|Hne].
        -- subst k. rewrite Nat.sub_diag in Hn. injection Hn as <-. congruence.
        -- split; [lia|]. exists el'. split; assumption.
Qed.

Lemma selected_iff p doc k el :
  nth_error doc k = Some el ->
  existsb (Nat.eqb k) (querySelectorAll p doc) = p el.
Proof.
  intros Hn. unfold querySelectorAll.
  destruct (p el) eqn:Hp.
  - apply existsb_exists. exists k. split; [|apply Nat.eqb_refl].
    apply selectFrom_In. split; [lia|]. exists el. rewrite Nat.sub_0_r. auto.
  - destruct (existsb (Nat.eqb k) (selectFrom 0 p doc)) eqn:He; [|reflexivity].
    apply existsb_exists in He as (x & Hin & Hx). apply Nat.eqb_eq in Hx. subst x.
    apply selectFrom_In in Hin as (_ & el' & Hn' & Hp').
    rewrite Nat.sub_0_r, Hn in Hn'. injection Hn' as <-. congruence.
Qed.

Lemma nth_error_updateNode f doc : forall node k,
  nth_error (updateNode node f doc) k
  = if (k =? node)%nat then option_map f (nth_error doc k) else nth_error doc k.
Proof.
  induction doc as [|el r IH]; intros node k.
  - cbn [updateNode]. destruct node; destruct k; cbn; try reflexivity;
      destruct (k =? node)%nat; reflexivity.
  - destruct node as [|n], k as [|k]; cbn [updateNode nth_error Nat.eqb option_map];
      try reflexivity. apply IH.
Qed.

Lemma nth_error_detach_all nodes : forall doc k,
  nth_error (fold_left (fun d n => updateNode n detach d) nodes doc) k
  = if existsb (Nat.eqb k) nodes then option_map detach (nth_error doc k)
    else nth_error doc k.
Proof.
  induction nodes as [|n r IH]; intros doc k; cbn [fold_left existsb];
    [reflexivity|].
  rewrite IH, nth_error_updateNode.
  destruct (k =? n)%nat; cbn [orb]; destruct (existsb (Nat.eqb k) r);
    try reflexivity.
  destruct (nth_error doc k); reflexivity.
Qed.

(** Firing removal timers changes the document only. *)
Lemma run_timers nodes : forall st,
  let st' := run today st (timersFire nodes) in
  document st' = fold_left (fun d n => updateNode n detach d) nodes (document st) /\
  processingEvents st' = processingEvents st /\
  completedEvents st' = completedEvents st /\
  effects st' = effects st.
Proof.
  induction nodes as [|n r IH]; intros st; [repeat split|].
  cbn [timersFire map run fold_left step].
  destruct (IH (removeElement n st)) as (A & B & C & D).
  unfold run, timersFire in A, B, C, D. rewrite A, B, C, D. repeat split.
Qed.

(** The document after the optimistic update of [fadeMatching] and its
    removal timers. *)
Lemma faded_then_detached completing eventId doc k :
  let nodes := querySelectorAll (matchesEvent eventId) doc in
  nth_error
    (fold_left (fun d n => updateNode n detach d) nodes
       (updateAll (matchesEvent eventId) (fade completing) doc)) k
  = option_map
      (fun el => if matchesEvent eventId el then detach (fade completing el) else el)
      (nth_error doc k).
Proof.
  intros nodes. rewrite nth_error_detach_all, nth_error_updateAll.
  destruct (nth_error doc k) as [el|] eqn:Hn.
  - subst nodes. rewrite (selected_iff _ _ _ _ Hn). cbn [option_map].
    destruct (matchesEvent eventId el); reflexivity.
  - cbn [option_map]. destruct (existsb (Nat.eqb k) nodes); reflexivity.
Qed.

Lemma none_selected p doc :
  (forall k el, nth_error doc k = Some el -> p el = false) ->
  querySelectorAll p doc = [].
Proof.
  intros H. unfold querySelectorAll.
  destruct (selectFrom 0 p doc) as [|k r] eqn:E; [reflexivity|].
  assert (Hin : In k (selectFrom 0 p doc)) by (rewrite E; left; reflexivity).
  apply selectFrom_In in Hin as (_ & el & Hn & Hp).
  rewrite (H _ _ Hn) in Hp. discriminate.
Qed.

Lemma detached_not_selected completing eventId doc :
  let nodes := querySelectorAll (matchesEvent eventId) doc in
  querySelectorAll (matchesEvent eventId)
    (fold_left (fun d n => updateNode n detach d) nodes
       (updateAll (matchesEvent eventId) (fade completing) doc)) = [].
Proof.
  intros nodes. apply none_selected. intros k el' Hk.
  subst nodes. rewrite faded_then_detached in Hk.
  destruct (nth_error doc k) as [el|]; [|discriminate].
  cbn [option_map] in Hk. injection Hk as <-.
  destruct (matchesEvent eventId el) eqn:Hm; [|exact Hm].
  unfold matchesEvent. reflexivity.
Qed.

(** X10. An accepted completion or deletion of a plain id sets one
    removal timer for each item of the event that is in the document, and
    issues its request after them; when the timers have fired, exactly
    these items have left the document, faded, and every other item is as
    it was. A completion is accepted when the id is in neither set, a
    deletion when the id is not in the processing set. *)
Theorem optimistic_update_removes_the_items st eventId completed :
  selectorClass eventId = PlainId ->
  let nodes := querySelectorAll (matchesEvent eventId) (document st) in
  (eventId ∉ completedEvents st -> eventId ∉ processingEvents st ->
   let st1 := markEventCompleted today eventId completed st in
   let st2 := run today st1 (timersFire nodes) in
   (exists request,
      isFetch request = true /\
      effects st1 = (effects st ++ removalTimers nodes ++ [request])%list) /\
   (forall node el,
      nth_error (document st) node = Some el ->
      nth_error (document st2) node
      = Some (if matchesEvent eventId el then detach (fade true el) else el)) /\
   querySelectorAll (matchesEvent eventId) (document st2) = []) /\
  (eventId ∉ processingEvents st ->
   let st1 := deleteCompletedTask eventId st in
   let st2 := run today st1 (timersFire nodes) in
   (exists request,
      isFetch request = true /\
      effects st1 = (effects st ++ removalTimers nodes ++ [request])%list) /\
   (forall node el,
      nth_error (document st) node = Some el ->
      nth_error (document st2) node
      = Some (if matchesEvent eventId el then detach (fade false el) else el)) /\
   querySelectorAll (matchesEvent eventId) (document st2) = []).
Proof.
  intros Hs nodes. split.
  - intros Hc Hp st1 st2.
    destruct (markEventCompleted_accepted today st eventId completed Hs Hc Hp)
      as (st' & date & E & _ & _ & He & Hd').
    assert (Hd : document st1
                 = updateAll (matchesEvent eventId) (fade true) (document st)).
    { subst st1. rewrite E. exact Hd'. }
    destruct (run_timers nodes st1) as (A & _). fold st2 in A.
    split; [|split].
    + eexists. split; [|subst st1; rewrite E; cbn [effects issue issueAll];
                        rewrite He, <- app_assoc; reflexivity].
      reflexivity.
    + intros node el Hn. rewrite A, Hd.
      subst nodes. rewrite faded_then_detached, Hn. reflexivity.
    + rewrite A, Hd. apply detached_not_selected.
  - intros Hp st1 st2.
    destruct (deleteCompletedTask_accepted st eventId Hs Hp)
      as (st' & E & _ & _ & He & Hd').
    assert (Hd : document st1
                 = updateAll (matchesEvent eventId) (fade false) (document st)).
    { subst st1. rewrite E. exact Hd'. }
    destruct (run_timers nodes st1) as (A & _). fold st2 in A.
    split; [|split].
    + eexists. split; [|subst st1; rewrite E; cbn [effects issue issueAll];
                        rewrite He, <- app_assoc; reflexivity].
      reflexivity.
    + intros node el Hn. rewrite A, Hd.
      subst nodes. rewrite faded_then_detached, Hn. reflexivity.
    + rewrite A, Hd. apply detached_not_selected.
Qed.

End RemovalFacts.

Section RemovalScenarios.
Import MutationGuard GuardQueries.

#[local] Existing Instance strictEngine.

Lemma optimistic_update_removes_the_items_witness :
  (let st1 := markEventCompleted "2024-06-03" "42" true page4243 in
   let st2 := run "2024-06-03" st1 (timersFire [0%nat]) in
   effects st1
   = [SetTimeout (RemoveElement 0) 500;
      Fetch "POST" "/api/events/42/complete"
            (Some {| body_completed := true; body_date := "2024-06-03" |})] /\
   document st2
   = [detach (fade true (renderEventItem task42 false));
      renderEventItem task43 false] /\
   querySelectorAll (matchesEvent "42") (document st2) = []) /\
  (let st := pageDone42 true in
   let st1 := deleteCompletedTask "42" st in
   let st2 := run "2024-06-03" st1 (timersFire [0%nat]) in
   "42" ∈ completedEvents st /\
   effects st1
   = [SetTimeout (RemoveElement 0) 500;
      Fetch "DELETE" "/api/completed-tasks/42" None] /\
   querySelectorAll (matchesEvent "42") (document st2) = []).
Proof.
  split.
  - intros st1 st2.
    destruct (optimistic_update_removes_the_items "2024-06-03" page4243 "42"
                true eq_refl) as [M _].
    destruct M as (A & B & C).
    + apply (bool_decide_eq_false_1 _). vm_compute. reflexivity.
    + apply (bool_decide_eq_false_1 _). vm_compute. reflexivity.
    + split; [reflexivity|]. split; [reflexivity | exact C].
  - intros st st1 st2.
    destruct (optimistic_update_removes_the_items "2024-06-03" st "42"
                true eq_refl) as [_ D].
    destruct D as (A & B & C).
    + apply (bool_decide_eq_false_1 _). vm_compute. reflexivity.
    + split; [apply (bool_decide_eq_true_1 _); vm_compute; reflexivity|].
      split; [reflexivity | exact C].
Defined.

End RemovalScenarios.

(** ** The loader over arbitrary sequences of occurrences *)

Section SessionFacts.
Import EventLoader LoaderSession.

Variable apiUrl : string.

(** Reading the counts of a state built by the setters. *)
Ltac session_counts :=
  unfold fetchCount, retryTimerCount;
  cbn [effects issue setLoading setRetryCount setEvents hideDetails
       setIndicator showLoadingIndicator hideLoadingIndicator];
  rewrite ?List.filter_app, ?List.length_app;
  cbn [List.filter isFetch isRetryTimer List.length];
  try lia.

(** What each handler does to the flags and to the numbers of fetches
    and retry timers. *)
Lemma loadEvents_asked st :
  let st' := loadEvents apiUrl false st in
  if isLoadingEvents st then st' = st
  else isLoadingEvents st' = true /\ loadEventsRetryCount st' = 0 /\
       fetchCount st' = S (fetchCount st) /\
       retryTimerCount st' = retryTimerCount st.
Proof.
  unfold loadEvents. destruct (isLoadingEvents st); cbn [andb negb]; [reflexivity|].
  repeat split; session_counts.
Qed.

Lemma loadEvents_catch_counts e st :
  let st' := loadEvents_catch e st in
  if retryable e
  then isLoadingEvents st' = isLoadingEvents st /\
       loadEventsRetryCount st' = loadEventsRetryCount st /\
       fetchCount st' = fetchCount st /\
       retryTimerCount st' = S (retryTimerCount st)
  else isLoadingEvents st' = false /\ loadEventsRetryCount st' = 0 /\
       fetchCount st' = fetchCount st /\
       retryTimerCount st' = retryTimerCount st.
Proof.
  unfold loadEvents_catch. destruct (retryable e); repeat split;
    session_counts.
Qed.

Lemma loadEvents_then_counts data st :
  let st' := loadEvents_then data st in
  isLoadingEvents st' = false /\ loadEventsRetryCount st' = 0 /\
  fetchCount st' = fetchCount st /\
  retryTimerCount st' = retryTimerCount st.
Proof. repeat split; session_counts. Qed.

Lemma retryTimer_counts st :
  let st' := retryTimer apiUrl st in
  if loadEventsRetryCount st + 1 >? MAX_RETRY_COUNT
  then isLoadingEvents st' = false /\ loadEventsRetryCount st' = 0 /\
       fetchCount st' = fetchCount st /\
       retryTimerCount st' = retryTimerCount st
  else isLoadingEvents st' = true /\
       loadEventsRetryCount st' = loadEventsRetryCount st + 1 /\
       fetchCount st' = S (fetchCount st) /\
       retryTimerCount st' = retryTimerCount st.
Proof.
  unfold retryTimer. rewrite loadEvents_retry.
  destruct (loadEventsRetryCount st + 1 >? MAX_RETRY_COUNT); repeat split;
    session_counts.
Qed.

Lemma react_invariant s o s' asked :
  sessionInvariant s asked ->
  react apiUrl s o = Some s' ->
  sessionInvariant s' (asked + (if isAsked o then 1 else 0)).
Proof.
  unfold sessionInvariant, MAX_RETRY_COUNT.
  destruct s as [st out pend]. cbn [loader outstanding pendingRetries].
  intros [Hc Hi] Hr. destruct o as [|e|data|]; cbn [react isAsked] in *;
    cbn [loader outstanding pendingRetries settled fired] in *.
  - injection Hr as <-. cbn [ran loader outstanding pendingRetries].
    pose proof (loadEvents_asked st) as H. cbv zeta in H.
    destruct (isLoadingEvents st) eqn:Hl.
    + rewrite H, Hl. split; [lia|]. lia.
    + destruct H as (A & B & C & D). rewrite A, B, C, D. lia.
  - destruct (out =? 0)%nat eqn:Ho; [discriminate|].
    apply Nat.eqb_neq in Ho. injection Hr as <-.
    cbn [ran loader outstanding pendingRetries settled fired pred].
    pose proof (loadEvents_catch_counts e st) as H. cbv zeta in H.
    destruct (isLoadingEvents st) eqn:Hl; [|lia].
    destruct (retryable e); destruct H as (A & B & C & D);
      rewrite A, B, C, D; lia.
  - destruct (out =? 0)%nat eqn:Ho; [discriminate|].
    apply Nat.eqb_neq in Ho. injection Hr as <-.
    cbn [ran loader outstanding pendingRetries settled fired pred].
    destruct (loadEvents_then_counts data st) as (A & B & C & D).
    rewrite A, B, C, D.
    destruct (isLoadingEvents st) eqn:Hl; lia.
  - destruct (pend =? 0)%nat eqn:Ho; [discriminate|].
    apply Nat.eqb_neq in Ho. injection Hr as <-.
    cbn [ran loader outstanding pendingRetries settled fired pred].
    pose proof (retryTimer_counts st) as H. cbv zeta in H.
    unfold MAX_RETRY_COUNT in H.
    destruct (isLoadingEvents st) eqn:Hl; [|lia].
    destruct (loadEventsRetryCount st + 1 >? 3) eqn:Hg;
      destruct H as (A & B & C & D); rewrite A, B, C, D; lia.
Qed.

Lemma reactAll_invariant os : forall s s' asked,
  sessionInvariant s asked ->
  reactAll apiUrl s os = Some s' ->
  sessionInvariant s' (asked + asks os).
Proof.
  induction os as [|o r IH]; intros s s' asked Hi Hr; cbn [reactAll] in Hr.
  - injection Hr as <-. unfold asks. cbn. rewrite Nat.add_0_r. exact Hi.
  - destruct (react apiUrl s o) as [s1|] eqn:H1; [|discriminate].
    pose proof (react_invariant _ _ _ _ Hi H1) as Hi1.
    pose proof (IH _ _ _ Hi1 Hr) as Hi2.
    replace (asked + asks (o :: r))%nat
      with (asked + (if isAsked o then 1 else 0) + asks r)%nat; [exact Hi2|].
    unfold asks. cbn [List.filter]. destruct (isAsked o); cbn [List.length]; lia.
Qed.

(** X11. Whatever sequence of requests, fetch outcomes and retry timers the
    loader goes through from the start, at most one fetch is outstanding
    at any time; the loader is loading exactly when one fetch or one retry
    timer is outstanding; the retry count stays between 0 and 3; and at
    most four fetches are issued for each time the events are asked
    for. *)
Theorem loader_session_invariant os s :
  reactAll apiUrl start os = Some s ->
  (outstanding s <= 1)%nat /\
  (isLoadingEvents (loader s) = true <->
   (outstanding s + pendingRetries s = 1)%nat) /\
  (isLoadingEvents (loader s) = false <->
   outstanding s = 0%nat /\ pendingRetries s = 0%nat) /\
  0 <= loadEventsRetryCount (loader s) <= 3 /\
  (fetchCount (loader s) <= 4 * asks os)%nat.
Proof.
  intros Hr.
  assert (H0 : sessionInvariant start 0).
  { unfold sessionInvariant, MAX_RETRY_COUNT. cbn. lia. }
  pose proof (reactAll_invariant os _ _ _ H0 Hr) as [Hc Hi].
  unfold MAX_RETRY_COUNT in *. cbn [Nat.add] in Hi.
  destruct (isLoadingEvents (loader s)).
  - destruct Hi as [A B]. repeat split; try lia; try discriminate.
  - destruct Hi as (A & B & C & D). repeat split; try lia; try discriminate.
Qed.

End SessionFacts.

Section SessionScenarios.
Import EventLoader LoaderSession.

Lemma loader_session_invariant_witness :
  let url := "/api/events?date_from=2024-05-31&date_to=2024-06-30" in
  let os := [Asked; Asked; FetchFailed timeout; Asked; RetryTimerFired;
             FetchLoaded []; Asked] in
  exists s,
    reactAll url start os = Some s /\
    outstanding s = 1%nat /\ pendingRetries s = 0%nat /\
    fetchCount (loader s) = 3%nat /\
    (fetchCount (loader s) <= 4 * asks os)%nat /\
    (isLoadingEvents (loader s) = true <->
     (outstanding s + pendingRetries s = 1)%nat).
Proof.
  intros url os.
  destruct (reactAll url start os) as [s|] eqn:E;
    [|vm_compute in E; discriminate E].
  exists s. split; [reflexivity|].
  destruct (loader_session_invariant url os s E) as (_ & A & _ & _ & B).
  vm_compute in E. injection E as <-.
  split; [reflexivity|]. split; [reflexivity|]. split; [reflexivity|].
  split; [exact B | exact A].
Defined.

End SessionScenarios.

(** ** The calendar *)

Section CalendarFacts.
Import Calendar.
Local Open Scope Z_scope.

Lemma DaysInYear_cases y : DaysInYear y = 365 \/ DaysInYear y = 366.
Proof.
  unfold DaysInYear.
  destruct (negb (y mod 4 =? 0)), (negb (y mod 100 =? 0)),
    (negb (y mod 400 =? 0)); auto.
Qed.

Lemma DayFromYear_next y : DayFromYear (y + 1) = DayFromYear y + DaysInYear y.
Proof.
  unfold DayFromYear, DaysInYear.
  destruct (Z.eqb_spec (y mod 4) 0); destruct (Z.eqb_spec (y mod 100) 0);
  destruct (Z.eqb_spec (y mod 400) 0); cbn [negb];
  Z.div_mod_to_equations; lia.
Qed.

Lemma DayFromYear_mono a b : a <= b -> DayFromYear a <= DayFromYear b.
Proof. unfold DayFromYear. intros H. Z.div_mod_to_equations. lia. Qed.

(** [YearFromDay] is the year of the language specification: the largest
    year that starts on or before the day. *)
Lemma YearFromDay_spec day :
  DayFromYear (YearFromDay day) <= day < DayFromYear (YearFromDay day + 1).
Proof.
  unfold YearFromDay.
  set (y := 1970 + 400 * (day / 146097) + (day mod 146097) / 366).
  assert (H0 : DayFromYear y <= day).
  { unfold DayFromYear, y. Z.div_mod_to_equations. lia. }
  assert (H3 : day < DayFromYear (y + 3)).
  { unfold DayFromYear, y. Z.div_mod_to_equations. lia. }
  destruct (DayFromYear (y + 2) <=? day) eqn:E2.
  - apply Z.leb_le in E2. replace (y + 2 + 1) with (y + 3) by lia. lia.
  - apply Z.leb_gt in E2. destruct (DayFromYear (y + 1) <=? day) eqn:E1.
    + apply Z.leb_le in E1. replace (y + 1 + 1) with (y + 2) by lia. lia.
    + apply Z.leb_gt in E1. lia.
Qed.

Lemma YearFromDay_unique day y :
  DayFromYear y <= day < DayFromYear (y + 1) -> YearFromDay day = y.
Proof.
  intros H. pose proof (YearFromDay_spec day) as S.
  destruct (Z.lt_trichotomy (YearFromDay day) y) as [L | [E | G]]; [|exact E|].
  - pose proof (DayFromYear_mono (YearFromDay day + 1) y). lia.
  - pose proof (DayFromYear_mono (y + 1) (YearFromDay day)). lia.
Qed.

Lemma DayWithinYear_range day :
  0 <= DayWithinYear day < DaysInYear (YearFromDay day).
Proof.
  unfold DayWithinYear. pose proof (YearFromDay_spec day) as S.
  rewrite DayFromYear_next in S. lia.
Qed.

Lemma MonthFromDay_range day : 0 <= MonthFromDay day <= 11.
Proof.
  unfold MonthFromDay.
  repeat match goal with |- context [if ?c then _ else _] => destruct c end; lia.
Qed.

Lemma month_cases m :
  0 <= m <= 11 ->
  m = 0 \/ m = 1 \/ m = 2 \/ m = 3 \/ m = 4 \/ m = 5 \/ m = 6 \/
  m = 7 \/ m = 8 \/ m = 9 \/ m = 10 \/ m = 11.
Proof. lia. Qed.

Ltac by_month m H :=
  destruct (month_cases m H)
    as [->|[->|[->|[->|[->|[->|[->|[->|[->|[->|[->| ->]]]]]]]]]]].

Ltac by_leap y :=
  let E := fresh "E" in
  destruct (DaysInYear_cases y) as [E|E]; unfold InLeapYear in *; rewrite E in *.

Ltac month_table :=
  repeat match goal with |- context [if ?c <? ?d then _ else _] =>
    destruct (Z.ltb_spec c d) end.

Ltac month_values := cbn [monthStart Z.eqb Pos.eqb orb] in *.

(** From the fields of a day back to the day, with the date shifted. *)
Lemma MakeDay_fields day k :
  MakeDay (YearFromDay day) (MonthFromDay day) (DateFromDay day + k) = day + k.
Proof.
  pose proof (MonthFromDay_range day) as Hm.
  unfold MakeDay. rewrite Z.div_small, Z.mod_small, Z.add_0_r by lia.
  unfold DateFromDay, DayWithinYear. lia.
Qed.

Lemma DateFromDay_range day :
  1 <= DateFromDay day <= DaysInMonth (YearFromDay day) (MonthFromDay day).
Proof.
  pose proof (DayWithinYear_range day) as Hd.
  unfold DateFromDay, DaysInMonth, MonthFromDay in *.
  by_leap (YearFromDay day); month_table; month_values; lia.
Qed.

(** The fields of a day made from a year, a month and a date of that
    month. *)
Lemma fields_MakeDay y m dt :
  0 <= m <= 11 -> 1 <= dt <= DaysInMonth y m ->
  YearFromDay (MakeDay y m dt) = y /\
  MonthFromDay (MakeDay y m dt) = m /\
  DateFromDay (MakeDay y m dt) = dt.
Proof.
  intros Hm Hd.
  assert (Hb : 0 <= monthStart m (InLeapYear y) + dt - 1 < DaysInYear y).
  { unfold DaysInMonth in Hd. by_leap y; by_month m Hm; month_values; lia. }
  assert (Hy : YearFromDay (MakeDay y m dt) = y).
  { apply YearFromDay_unique. unfold MakeDay.
    rewrite Z.div_small, Z.mod_small, Z.add_0_r by lia.
    rewrite DayFromYear_next. lia. }
  assert (Hw : DayWithinYear (MakeDay y m dt)
               = monthStart m (InLeapYear y) + dt - 1).
  { unfold DayWithinYear. rewrite Hy. unfold MakeDay.
    rewrite Z.div_small, Z.mod_small, Z.add_0_r by lia. lia. }
  assert (Hmo : MonthFromDay (MakeDay y m dt) = m).
  { unfold MonthFromDay. rewrite Hw, Hy. clear Hw Hy Hb.
    unfold DaysInMonth in Hd.
    by_leap y; by_month m Hm; month_values; month_table; lia. }
  split; [exact Hy|]. split; [exact Hmo|].
  unfold DateFromDay. rewrite Hw, Hy, Hmo. lia.
Qed.

Lemma DaysInMonth_range y m : 28 <= DaysInMonth y m <= 31.
Proof.
  unfold DaysInMonth. by_leap y;
    destruct (m =? 1);
    destruct ((m =? 3) || (m =? 5) || (m =? 8) || (m =? 10)); lia.
Qed.

(** The first day of a month, and the day before the first day of the
    next. *)
Lemma MakeDay_month_end y m :
  0 <= m <= 11 -> MakeDay y (m + 1) 0 = MakeDay y m (DaysInMonth y m).
Proof.
  intros Hm. unfold MakeDay, DaysInMonth.
  destruct (Z.eq_dec m 11) as [->|Hne].
  - change ((11 + 1) / 12) with 1. change ((11 + 1) mod 12) with 0.
    change (11 / 12) with 0. change (11 mod 12) with 11.
    rewrite !Z.add_0_r, DayFromYear_next.
    by_leap y; month_values; lia.
  - rewrite !Z.div_small, !Z.mod_small, !Z.add_0_r by lia.
    by_leap y; by_month m Hm; try lia;
      match goal with |- context [monthStart (?a + 1)] =>
        let v := eval vm_compute in (a + 1) in change (a + 1) with v
      end; month_values; lia.
Qed.

Lemma MakeDay_underflow y : MakeDay y (-1) 1 = MakeDay (y - 1) 11 1.
Proof.
  unfold MakeDay.
  change (-1 / 12) with (-1). change (-1 mod 12) with 11.
  change (11 / 12) with 0. change (11 mod 12) with 11.
  rewrite !Z.add_0_r. replace (y + -1) with (y - 1) by lia. reflexivity.
Qed.

Lemma MakeDay_overflow y : MakeDay y 12 1 = MakeDay (y + 1) 0 1.
Proof.
  unfold MakeDay.
  change (12 / 12) with 1. change (12 mod 12) with 0.
  change (0 / 12) with 0. change (0 mod 12) with 0.
  rewrite !Z.add_0_r. reflexivity.
Qed.

Lemma supported_year d : supported d -> 1970 <= YearFromDay d.
Proof.
  intros [H _]. pose proof (YearFromDay_spec d) as S.
  destruct (Z_lt_le_dec (YearFromDay d) 1970) as [L|L]; [|exact L].
  pose proof (DayFromYear_mono (YearFromDay d + 1) 1970).
  change (DayFromYear 1970) with 0 in *. lia.
Qed.

Lemma newDate_modern y m dt : 100 <= y -> newDate y m dt = MakeDay y m dt.
Proof.
  intros H. unfold newDate.
  destruct (Z.leb_spec y 99); [lia|]. rewrite andb_false_r. reflexivity.
Qed.

Lemma setDate_shift d k : setDate (getDate d + k) d = d + k.
Proof. exact (MakeDay_fields d k). Qed.

Lemma WeekDay_range d : 0 <= WeekDay d <= 6.
Proof. unfold WeekDay. Z.div_mod_to_equations. lia. Qed.

End CalendarFacts.

(** ** Date strings *)

Section DateStringFacts.
Import JSText Calendar Navigation.

Lemma numberToString_inj a b : numberToString a = numberToString b -> a = b.
Proof.
  unfold numberToString. intros H.
  apply (f_equal NilEmpty.int_of_string) in H.
  rewrite !NilEmpty.isi in H. injection H as H.
  apply DecimalZ.to_int_inj, H.
Qed.

Lemma two_digits n :
  0 <= n <= 99 ->
  padStart 2 "0" (numberToString n) = pad2 n /\
  parseIntMath (pad2 n) = Some (false, n).
Proof.
  intros Hn.
  apply (bool_decide_eq_true_1
           (padStart 2 "0" (numberToString n) = pad2 n /\
            parseIntMath (pad2 n) = Some (false, n))).
  revert n Hn.
  apply (forallb_interval
           (fun n =>
              bool_decide
                (padStart 2 "0" (numberToString n) = pad2 n /\
                 parseIntMath (pad2 n) = Some (false, n)))).
  vm_compute. reflexivity.
Qed.

Lemma pad2_inj a b : 0 <= a <= 99 -> 0 <= b <= 99 -> pad2 a = pad2 b -> a = b.
Proof.
  intros Ha Hb H.
  destruct (two_digits a Ha) as [_ Pa]. destruct (two_digits b Hb) as [_ Pb].
  rewrite H, Pb in Pa. injection Pa as Pa. symmetry. exact Pa.
Qed.

Lemma append_same_length (a b s t : string) :
  a ++ s = b ++ t -> String.length s = String.length t -> a = b /\ s = t.
Proof.
  revert b. induction a as [|c a IH]; intros [|d b] H L.
  - split; [reflexivity | exact H].
  - apply (f_equal String.length) in H.
    change (String.length s = S (String.length (b ++ t))) in H.
    rewrite length_append in H. lia.
  - apply (f_equal String.length) in H.
    change (S (String.length (a ++ s)) = String.length t) in H.
    rewrite length_append in H. lia.
  - change (String c (a ++ s) = String d (b ++ t)) in H.
    injection H as -> H. destruct (IH b H L) as [-> ->]. split; reflexivity.
Qed.

(** The string that [formatDate] builds: the year, and the month and the
    date with two digits each. *)
Lemma formatDate_shape d :
  formatDate d
  = numberToString (getFullYear d) ++ "-" ++ pad2 (getMonth d + 1)
    ++ "-" ++ pad2 (getDate d).
Proof.
  unfold formatDate, getMonth, getDate.
  pose proof (MonthFromDay_range d) as Hm.
  pose proof (DateFromDay_range d) as Hd.
  pose proof (DaysInMonth_range (YearFromDay d) (MonthFromDay d)) as Hl.
  destruct (two_digits (MonthFromDay d + 1)) as [-> _]; [lia|].
  destruct (two_digits (DateFromDay d)) as [-> _]; [lia|].
  reflexivity.
Qed.

Lemma formatDate_inj d1 d2 : formatDate d1 = formatDate d2 -> d1 = d2.
Proof.
  rewrite !formatDate_shape. unfold getFullYear, getMonth, getDate. intros H.
  pose proof (MonthFromDay_range d1) as Hm1.
  pose proof (MonthFromDay_range d2) as Hm2.
  pose proof (DateFromDay_range d1) as Hd1.
  pose proof (DateFromDay_range d2) as Hd2.
  pose proof (DaysInMonth_range (YearFromDay d1) (MonthFromDay d1)) as Hl1.
  pose proof (DaysInMonth_range (YearFromDay d2) (MonthFromDay d2)) as Hl2.
  apply append_same_length in H as [Hy Hs]; [|reflexivity].
  apply numberToString_inj in Hy.
  change ("-" ++ pad2 (MonthFromDay d1 + 1) ++ "-" ++ pad2 (DateFromDay d1))
    with (("-" ++ pad2 (MonthFromDay d1 + 1) ++ "-") ++ pad2 (DateFromDay d1))
    in Hs.
  change ("-" ++ pad2 (MonthFromDay d2 + 1) ++ "-" ++ pad2 (DateFromDay d2))
    with (("-" ++ pad2 (MonthFromDay d2 + 1) ++ "-") ++ pad2 (DateFromDay d2))
    in Hs.
  apply append_same_length in Hs as [Hm Hd]; [|reflexivity].
  apply pad2_inj in Hd; [|lia|lia].
  change ("-" ++ pad2 (MonthFromDay d1 + 1) ++ "-")
    with ("-" ++ (pad2 (MonthFromDay d1 + 1) ++ "-")) in Hm.
  change ("-" ++ pad2 (MonthFromDay d2 + 1) ++ "-")
    with ("-" ++ (pad2 (MonthFromDay d2 + 1) ++ "-")) in Hm.
  apply append_cancel_head, append_cancel_tail, pad2_inj in Hm; [|lia|lia].
  rewrite <- (Z.add_0_r d1), <- (Z.add_0_r d2).
  rewrite <- (MakeDay_fields d1 0), <- (MakeDay_fields d2 0).
  rewrite Hy, Hd. replace (MonthFromDay d1) with (MonthFromDay d2) by lia.
  reflexivity.
Qed.

(** X12. [formatDate] writes a date as the year, a dash, the month and the
    date of the month with two digits each, and different days give
    different strings, so comparing date strings for equality, as the
    views do, is comparing days. *)
Theorem formatDate_identifies_the_day d :
  formatDate d
  = numberToString (getFullYear d) ++ "-" ++ pad2 (getMonth d + 1)
    ++ "-" ++ pad2 (getDate d) /\
  1 <= getMonth d + 1 <= 12 /\ 1 <= getDate d <= 31 /\
  forall d', formatDate d = formatDate d' <-> d = d'.
Proof.
  split; [apply formatDate_shape|].
  pose proof (MonthFromDay_range d) as Hm.
  pose proof (DateFromDay_range d) as Hd.
  pose proof (DaysInMonth_range (YearFromDay d) (MonthFromDay d)) as Hl.
  unfold getMonth, getDate.
  split; [lia|]. split; [lia|].
  intros d'. split; [apply formatDate_inj | intros ->; reflexivity].
Qed.

Example formatDate_examples :
  formatDate (MakeDay 2024 5 3) = "2024-06-03" /\
  formatDate (MakeDay 2024 1 29) = "2024-02-29" /\
  formatDate (MakeDay 1999 11 31) = "1999-12-31" /\
  getDay (MakeDay 2024 5 3) = 1.
Proof. repeat split; reflexivity. Qed.

End DateStringFacts.

(** ** Date navigation *)

Section NavigationFacts.
Import JSText Calendar Navigation.
Local Open Scope Z_scope.

Lemma MakeDay_date y m a b : MakeDay y m a = MakeDay y m b + (a - b).
Proof. unfold MakeDay. lia. Qed.

Opaque MakeDay YearFromDay MonthFromDay DateFromDay DaysInMonth.

(** The first day of the month of a day. *)
Lemma first_of_month d :
  MakeDay (YearFromDay d) (MonthFromDay d) 1 = d - (DateFromDay d - 1).
Proof.
  pose proof (MakeDay_fields d 0) as H.
  pose proof (MakeDay_date (YearFromDay d) (MonthFromDay d) 1 (DateFromDay d + 0)).
  lia.
Qed.

(** The first day of the following month. *)
Lemma first_of_next_month d :
  MakeDay (YearFromDay d) (MonthFromDay d + 1) 1
  = d - (DateFromDay d - 1) + DaysInMonth (YearFromDay d) (MonthFromDay d).
Proof.
  pose proof (MonthFromDay_range d) as Hm.
  pose proof (MakeDay_month_end (YearFromDay d) (MonthFromDay d) Hm) as E.
  pose proof (first_of_month d) as F.
  pose proof (MakeDay_date (YearFromDay d) (MonthFromDay d + 1) 1 0).
  pose proof (MakeDay_date (YearFromDay d) (MonthFromDay d)
                (DaysInMonth (YearFromDay d) (MonthFromDay d)) 1).
  lia.
Qed.

(** The fields of the first day of the following and of the previous
    month. *)
Lemma fields_next_month y m :
  0 <= m <= 11 ->
  let d := MakeDay y (m + 1) 1 in
  (YearFromDay d, MonthFromDay d, DateFromDay d)
  = if m <? 11 then (y, m + 1, 1) else (y + 1, 0, 1).
Proof.
  intros Hm d. subst d. destruct (Z.ltb_spec m 11).
  - destruct (fields_MakeDay y (m + 1) 1) as (A & B & C); [lia| |].
    { pose proof (DaysInMonth_range y (m + 1)). lia. }
    rewrite A, B, C. reflexivity.
  - replace m with 11 by lia. change (11 + 1) with 12. rewrite MakeDay_overflow.
    destruct (fields_MakeDay (y + 1) 0 1) as (A & B & C); [lia| |].
    { pose proof (DaysInMonth_range (y + 1) 0). lia. }
    rewrite A, B, C. reflexivity.
Qed.

Lemma fields_previous_month y m :
  0 <= m <= 11 ->
  let d := MakeDay y (m - 1) 1 in
  (YearFromDay d, MonthFromDay d, DateFromDay d)
  = if 0 <? m then (y, m - 1, 1) else (y - 1, 11, 1).
Proof.
  intros Hm d. subst d. destruct (Z.ltb_spec 0 m).
  - destruct (fields_MakeDay y (m - 1) 1) as (A & B & C); [lia| |].
    { pose proof (DaysInMonth_range y (m - 1)). lia. }
    rewrite A, B, C. reflexivity.
  - replace m with 0 by lia. change (0 - 1) with (-1). rewrite MakeDay_underflow.
    destruct (fields_MakeDay (y - 1) 11 1) as (A & B & C); [lia| |].
    { pose proof (DaysInMonth_range (y - 1) 11). lia. }
    rewrite A, B, C. reflexivity.
Qed.

Lemma nextDay_shift d : nextDay d = d + 1.
Proof. apply setDate_shift. Qed.

Lemma nextWeek_shift d : nextWeek d = d + 7.
Proof. apply setDate_shift. Qed.

Lemma previousDay_shift d : previousDay d = d - 1.
Proof.
  unfold previousDay. replace (getDate d - 1) with (getDate d + -1) by lia.
  rewrite setDate_shift. lia.
Qed.

Lemma previousWeek_shift d : previousWeek d = d - 7.
Proof.
  unfold previousWeek. replace (getDate d - 7) with (getDate d + -7) by lia.
  rewrite setDate_shift. lia.
Qed.

Lemma getDay_shift d k : k mod 7 = 0 -> getDay (d + k) = getDay d.
Proof. intros Hk. unfold getDay, WeekDay. Z.div_mod_to_equations. lia. Qed.

Lemma getDay_next d : getDay (d + 1) = (getDay d + 1) mod 7.
Proof. unfold getDay, WeekDay. Z.div_mod_to_equations. lia. Qed.

Opaque nextDay nextWeek previousDay previousWeek getDay.

(** X13. The previous and next buttons of the day and week views move the
    current date by exactly one day and by exactly seven days, across the
    ends of months and years: each pair of buttons undoes each other, a
    week is seven days, and moving by a week keeps the day of the week. *)
Theorem day_and_week_navigation currentDate :
  supported currentDate ->
  nextDay currentDate = currentDate + 1 /\
  previousDay currentDate = currentDate - 1 /\
  nextWeek currentDate = currentDate + 7 /\
  previousWeek currentDate = currentDate - 7 /\
  previousDay (nextDay currentDate) = currentDate /\
  nextDay (previousDay currentDate) = currentDate /\
  previousWeek (nextWeek currentDate) = currentDate /\
  nextWeek (previousWeek currentDate) = currentDate /\
  nextDay (nextDay (nextDay (nextDay (nextDay (nextDay (nextDay currentDate))))))
  = nextWeek currentDate /\
  getDay (nextWeek currentDate) = getDay currentDate /\
  getDay (previousWeek currentDate) = getDay currentDate /\
  getDay (nextDay currentDate) = (getDay currentDate + 1) mod 7.
Proof.
  intros _.
  pose proof (nextDay_shift currentDate) as N.
  pose proof (previousDay_shift currentDate) as P.
  pose proof (nextWeek_shift currentDate) as W.
  pose proof (previousWeek_shift currentDate) as V.
  pose proof (previousDay_shift (nextDay currentDate)) as PN.
  pose proof (nextDay_shift (previousDay currentDate)) as NP.
  pose proof (previousWeek_shift (nextWeek currentDate)) as VW.
  pose proof (nextWeek_shift (previousWeek currentDate)) as WV.
  set (d1 := nextDay currentDate) in *.
  pose proof (nextDay_shift d1) as N1. set (d2 := nextDay d1) in *.
  pose proof (nextDay_shift d2) as N2. set (d3 := nextDay d2) in *.
  pose proof (nextDay_shift d3) as N3. set (d4 := nextDay d3) in *.
  pose proof (nextDay_shift d4) as N4. set (d5 := nextDay d4) in *.
  pose proof (nextDay_shift d5) as N5. set (d6 := nextDay d5) in *.
  pose proof (nextDay_shift d6) as N6. set (d7 := nextDay d6) in *.
  split; [exact N|]. split; [exact P|]. split; [exact W|]. split; [exact V|].
  split; [lia|]. split; [lia|]. split; [lia|]. split; [lia|]. split; [lia|].
  split; [rewrite W; apply getDay_shift; reflexivity|].
  split.
  - rewrite V. replace (currentDate - 7) with (currentDate + -7) by lia.
    apply getDay_shift. reflexivity.
  - rewrite N. apply getDay_next.
Qed.

Transparent nextDay nextWeek previousDay previousWeek getDay.

(** X14. The fields of the day after a day: the next date of the month, or the
    first of the next month, or the first of January of the next year. *)
Theorem nextDay_fields currentDate :
  supported currentDate ->
  let next := nextDay currentDate in
  let year := getFullYear currentDate in
  let month := getMonth currentDate in
  let date := getDate currentDate in
  (getFullYear next, getMonth next, getDate next)
  = if date <? DaysInMonth year month then (year, month, date + 1)
    else if month <? 11 then (year, month + 1, 1)
    else (year + 1, 0, 1).
Proof.
  intros _ next year month date. subst next year month date.
  unfold nextDay, getFullYear, getMonth, getDate, setDate.
  pose proof (MonthFromDay_range currentDate) as Hm.
  pose proof (DateFromDay_range currentDate) as Hd.
  destruct (Z.ltb_spec (DateFromDay currentDate)
              (DaysInMonth (YearFromDay currentDate) (MonthFromDay currentDate))).
  - destruct (fields_MakeDay (YearFromDay currentDate) (MonthFromDay currentDate)
                (DateFromDay currentDate + 1)) as (A & B & C); [lia|lia|].
    rewrite A, B, C. reflexivity.
  - assert (E : MakeDay (YearFromDay currentDate) (MonthFromDay currentDate)
                  (DateFromDay currentDate + 1)
                = MakeDay (YearFromDay currentDate)
                    (MonthFromDay currentDate + 1) 1).
    { pose proof (MakeDay_month_end (YearFromDay currentDate)
                    (MonthFromDay currentDate) Hm).
      pose proof (MakeDay_date (YearFromDay currentDate)
                    (MonthFromDay currentDate + 1) 1 0).
      pose proof (MakeDay_date (YearFromDay currentDate)
                    (MonthFromDay currentDate) (DateFromDay currentDate + 1)
                    (DaysInMonth (YearFromDay currentDate)
                       (MonthFromDay currentDate))).
      lia. }
    rewrite E. apply fields_next_month, Hm.
Qed.

(** X15. The previous and next buttons of the month view move the current date
    to the first day of the adjacent month, also from the last days of a
    long month and across the end of the year; going there and back gives
    the first day of the month one started in. *)
Theorem month_navigation currentDate :
  supported currentDate ->
  let year := getFullYear currentDate in
  let month := getMonth currentDate in
  let next := nextMonth currentDate in
  let previous := previousMonth currentDate in
  let first := currentDate - (getDate currentDate - 1) in
  (getFullYear next, getMonth next, getDate next)
  = (if month <? 11 then (year, month + 1, 1) else (year + 1, 0, 1)) /\
  (getFullYear previous, getMonth previous, getDate previous)
  = (if 0 <? month then (year, month - 1, 1) else (year - 1, 11, 1)) /\
  next = first + DaysInMonth year month /\
  previous < first /\ first <= currentDate < next /\
  previousMonth next = first /\
  nextMonth previous = first /\
  (getFullYear first, getMonth first, getDate first) = (year, month, 1).
Proof.
  intros Hs year month next previous first.
  pose proof (supported_year _ Hs) as Hy.
  pose proof (MonthFromDay_range currentDate) as Hm.
  pose proof (DateFromDay_range currentDate) as Hd.
  pose proof (DaysInMonth_range (YearFromDay currentDate)
                (MonthFromDay currentDate)) as Hl.
  assert (Ey : year = YearFromDay currentDate) by reflexivity.
  assert (Em : month = MonthFromDay currentDate) by reflexivity.
  assert (En : next = newDate year (month + 1) 1) by reflexivity.
  assert (Ep : previous = newDate year (month - 1) 1) by reflexivity.
  assert (Ef : first = currentDate - (DateFromDay currentDate - 1))
    by reflexivity.
  clearbody year month next previous first.
  rewrite newDate_modern in En, Ep by lia.
  rewrite <- first_of_month, <- Ey, <- Em in Ef.
  rewrite <- Em in Hm. rewrite <- Ey, <- Em in Hd, Hl.
  assert (Fn : (getFullYear next, getMonth next, getDate next)
               = (if month <? 11 then (year, month + 1, 1) else (year + 1, 0, 1))).
  { rewrite En. apply fields_next_month, Hm. }
  assert (Fp : (getFullYear previous, getMonth previous, getDate previous)
               = (if 0 <? month then (year, month - 1, 1) else (year - 1, 11, 1))).
  { rewrite Ep. apply fields_previous_month, Hm. }
  assert (Ff : (getFullYear first, getMonth first, getDate first)
               = (year, month, 1)).
  { rewrite Ef. unfold getFullYear, getMonth, getDate.
    destruct (fields_MakeDay year month 1) as (A & B & C); [exact Hm | lia |].
    rewrite A, B, C. reflexivity. }
  assert (Vn : next = first + DaysInMonth year month).
  { pose proof (first_of_next_month currentDate) as Q.
    pose proof (first_of_month currentDate) as R.
    rewrite <- Ey, <- Em in Q, R. lia. }
  assert (Vc : first <= currentDate).
  { pose proof (first_of_month currentDate) as R.
    rewrite <- Ey, <- Em in R. lia. }
  assert (Vp : previous < first).
  { pose proof (first_of_next_month previous) as Q.
    unfold getFullYear, getMonth, getDate in Fp.
    destruct (Z.ltb_spec 0 month) as [Hpos|Hz]; injection Fp as Py Pm Pd;
      rewrite Py, Pm, Pd in Q.
    - replace (month - 1 + 1) with month in Q by lia.
      rewrite <- Ef in Q.
      pose proof (DaysInMonth_range year (month - 1)). lia.
    - change (11 + 1) with 12 in Q. rewrite MakeDay_overflow in Q.
      replace (year - 1 + 1) with year in Q by lia.
      replace month with 0 in Ef by lia. rewrite <- Ef in Q.
      pose proof (DaysInMonth_range (year - 1) 11). lia. }
  split; [exact Fn|]. split; [exact Fp|]. split; [exact Vn|].
  split; [exact Vp|].
  split; [pose proof (first_of_month currentDate) as R;
          rewrite <- Ey, <- Em in R; lia|].
  split; [|split; [|exact Ff]].
  - unfold previousMonth. unfold getFullYear, getMonth, getDate in Fn.
    unfold getFullYear, getMonth.
    destruct (Z.ltb_spec month 11); injection Fn as Ny Nm Nd; rewrite Ny, Nm.
    + rewrite newDate_modern by lia.
      replace (month + 1 - 1) with month by lia. symmetry. exact Ef.
    + rewrite newDate_modern by lia.
      change (0 - 1) with (-1). rewrite MakeDay_underflow.
      replace (year + 1 - 1) with year by lia.
      replace 11 with month by lia. symmetry. exact Ef.
  - unfold nextMonth. unfold getFullYear, getMonth, getDate in Fp.
    unfold getFullYear, getMonth.
    destruct (Z.ltb_spec 0 month); injection Fp as Py Pm Pd; rewrite Py, Pm.
    + rewrite newDate_modern by lia.
      replace (month - 1 + 1) with month by lia. symmetry. exact Ef.
    + rewrite newDate_modern by lia.
      change (11 + 1) with 12. rewrite MakeDay_overflow.
      replace (year - 1 + 1) with year by lia.
      replace 0 with month by lia. symmetry. exact Ef.
Qed.

Transparent MakeDay YearFromDay MonthFromDay DateFromDay DaysInMonth.

Lemma day_and_week_navigation_witness :
  let currentDate := MakeDay 2024 1 29 in
  formatDate currentDate = "2024-02-29" /\
  formatDate (nextDay currentDate) = "2024-03-01" /\
  formatDate (previousWeek currentDate) = "2024-02-22" /\
  previousDay (nextDay currentDate) = currentDate /\
  getDay (nextWeek currentDate) = getDay currentDate.
Proof.
  intros currentDate.
  destruct (day_and_week_navigation currentDate)
    as (_ & _ & _ & _ & A & _ & _ & _ & _ & B & _).
  - unfold supported. vm_compute. split; discriminate.
  - split; [reflexivity|]. split; [reflexivity|]. split; [reflexivity|].
    split; [exact A | exact B].
Defined.

Lemma nextDay_fields_witness :
  let currentDate := MakeDay 2023 11 31 in
  let next := nextDay currentDate in
  (getFullYear currentDate, getMonth currentDate, getDate currentDate)
  = (2023, 11, 31) /\
  (getFullYear next, getMonth next, getDate next) = (2024, 0, 1).
Proof.
  intros currentDate next. split; [reflexivity|].
  apply (nextDay_fields currentDate).
  unfold supported. vm_compute. split; discriminate.
Defined.

Lemma month_navigation_witness :
  let currentDate := MakeDay 2024 0 31 in
  formatDate currentDate = "2024-01-31" /\
  formatDate (nextMonth currentDate) = "2024-02-01" /\
  formatDate (previousMonth currentDate) = "2023-12-01" /\
  previousMonth (nextMonth currentDate) = currentDate - 30.
Proof.
  intros currentDate.
  destruct (month_navigation currentDate) as (_ & _ & _ & _ & _ & A & _).
  - unfold supported. vm_compute. split; discriminate.
  - split; [reflexivity|]. split; [reflexivity|]. split; [reflexivity|].
    exact A.
Defined.

End NavigationFacts.

(** ** The week columns, the requested range and the month grid *)

Section WeekFacts.
Import JSText Calendar Navigation Formats.
Local Open Scope Z_scope.

Opaque MakeDay YearFromDay MonthFromDay DateFromDay DaysInMonth.

Lemma setDate_back d k : setDate (getDate d - k) d = d - k.
Proof.
  pose proof (setDate_shift d (- k)) as H.
  replace (getDate d + - k) with (getDate d - k) in H by lia. lia.
Qed.

Lemma startOfWeek_shift d : startOfWeek d = d - getDay d.
Proof. apply setDate_back. Qed.

Lemma weekDay_shift d i : weekDay d i = d - getDay d + i.
Proof.
  unfold weekDay. cbv zeta.
  rewrite (setDate_shift (startOfWeek d) i), (startOfWeek_shift d). reflexivity.
Qed.

Lemma getDay_week d i : 0 <= i <= 6 -> getDay (d - getDay d + i) = i.
Proof. intros Hi. unfold getDay, WeekDay. Z.div_mod_to_equations. lia. Qed.

Lemma dayDates_shift d :
  dayDates d
  = map (fun i => formatDate (d - getDay d + i)) [0; 1; 2; 3; 4; 5; 6].
Proof.
  unfold dayDates. cbn [map].
  rewrite (weekDay_shift d 0), (weekDay_shift d 1), (weekDay_shift d 2),
    (weekDay_shift d 3), (weekDay_shift d 4), (weekDay_shift d 5),
    (weekDay_shift d 6).
  reflexivity.
Qed.

Opaque formatDate getDay.

Lemma formatDate_eqb a b : String.eqb (formatDate a) (formatDate b) = (a =? b).
Proof.
  destruct (Z.eqb_spec a b) as [->|Hne]; [apply String.eqb_refl|].
  apply String.eqb_neq. intros E. apply Hne, formatDate_inj, E.
Qed.

Lemma indexOf_week s k :
  0 <= k <= 6 ->
  indexOf (map (fun i => formatDate (s + i)) [0; 1; 2; 3; 4; 5; 6])
          (formatDate (s + k))
  = Some (Z.to_nat k).
Proof.
  intros Hk. cbn [map indexOf]. rewrite !formatDate_eqb.
  assert (C : k = 0 \/ k = 1 \/ k = 2 \/ k = 3 \/ k = 4 \/ k = 5 \/ k = 6)
    by lia.
  destruct C as [->|[->|[->|[->|[->|[->| ->]]]]]];
    repeat match goal with |- context [?a =? ?b] =>
      destruct (Z.eqb_spec a b); [try lia | try lia] end;
    reflexivity.
Qed.

Lemma NoDup_week s :
  NoDup (map (fun i => formatDate (s + i)) [0; 1; 2; 3; 4; 5; 6]).
Proof.
  cbn [map].
  repeat (constructor;
          [cbn [In]; intros H;
           repeat (destruct H as [H|H]; [apply formatDate_inj in H; lia|]);
           exact H|]).
  constructor.
Qed.

(** X16. The week view has seven columns for seven different consecutive days
    that start on the Sunday on or before the current date; the current
    date is the column of its day of the week. *)
Theorem week_columns currentDate :
  supported currentDate ->
  let start := startOfWeek currentDate in
  start = currentDate - getDay currentDate /\
  0 <= getDay currentDate <= 6 /\
  getDay start = 0 /\
  dayDates currentDate
  = map (fun i => formatDate (start + i)) [0; 1; 2; 3; 4; 5; 6] /\
  (forall i, 0 <= i <= 6 -> getDay (start + i) = i) /\
  NoDup (dayDates currentDate) /\
  indexOf (dayDates currentDate) (formatDate currentDate)
  = Some (Z.to_nat (getDay currentDate)).
Proof.
  intros _ start.
  assert (Es : start = currentDate - getDay currentDate)
    by apply startOfWeek_shift.
  clearbody start. subst start.
  assert (Hr : 0 <= getDay currentDate <= 6) by apply WeekDay_range.
  split; [reflexivity|]. split; [exact Hr|].
  split.
  { pose proof (getDay_week currentDate 0) as H.
    rewrite Z.add_0_r in H. apply H. lia. }
  split; [apply dayDates_shift|].
  split; [intros i Hi; apply getDay_week, Hi|].
  rewrite dayDates_shift.
  split; [apply NoDup_week|].
  pose proof (indexOf_week (currentDate - getDay currentDate)
                (getDay currentDate) Hr) as H.
  replace (currentDate - getDay currentDate + getDay currentDate)
    with currentDate in H by lia.
  exact H.
Qed.

Transparent formatDate getDay.
Transparent MakeDay YearFromDay MonthFromDay DateFromDay DaysInMonth.

Lemma week_columns_witness :
  let currentDate := MakeDay 2024 5 5 in
  getDay currentDate = 3 /\
  dayDates currentDate
  = ["2024-06-02"; "2024-06-03"; "2024-06-04"; "2024-06-05"; "2024-06-06";
     "2024-06-07"; "2024-06-08"]%string /\
  NoDup (dayDates currentDate) /\
  indexOf (dayDates currentDate) "2024-06-05" = Some 3%nat.
Proof.
  intros currentDate.
  destruct (week_columns currentDate) as (_ & _ & _ & _ & _ & A & B).
  - unfold supported. vm_compute. split; discriminate.
  - split; [reflexivity|]. split; [vm_compute; reflexivity|].
    split; [exact A|]. vm_compute. reflexivity.
Defined.

End WeekFacts.

(** ** Overnight events in the week view *)

Section WeekViewFacts.
Import JS JSText TimelineLayout Formats Calendar Navigation WeekDates.
Local Open Scope Z_scope.

Variable LocalTZA : Z -> Z.
Variable otherDate : string -> string.

(** The digits that [formatDate] writes are read back. *)
Lemma digitValue_digitChar k : 0 <= k <= 9 -> digitValue (digitChar k) = Some k.
Proof.
  intros Hk.
  assert (H : (match digitValue (digitChar k) with
               | Some v => v =? k
               | None => false
               end) = true).
  { revert k Hk.
    apply (forallb_interval
             (fun k => match digitValue (digitChar k) with
                       | Some v => v =? k
                       | None => false
                       end)).
    vm_compute. reflexivity. }
  destruct (digitValue (digitChar k)) as [v|]; [|discriminate H].
  apply Z.eqb_eq in H. subst v. reflexivity.
Qed.

Lemma number2_pad2 n : 0 <= n <= 99 ->
  number2 (digitChar (n / 10)) (digitChar (n mod 10)) = Some n.
Proof.
  intros Hn. unfold number2.
  rewrite !digitValue_digitChar by (Z.div_mod_to_equations; lia).
  f_equal. Z.div_mod_to_equations. lia.
Qed.

Lemma year_digits y :
  1000 <= y <= 9999 ->
  exists a b c d,
    numberToString y = String a (String b (String c (String d EmptyString))) /\
    number4 a b c d = Some y.
Proof.
  intros Hy.
  assert (H : yearReadsBack y = true).
  { revert y Hy. apply (forallb_interval yearReadsBack). vm_compute. reflexivity. }
  unfold yearReadsBack in H.
  destruct (numberToString y) as [|a [|b [|c [|d [|x r]]]]]; try discriminate H.
  exists a, b, c, d. split; [reflexivity|].
  destruct (number4 a b c d) as [v|]; [|discriminate H].
  apply Z.eqb_eq in H. subst v. reflexivity.
Qed.

Lemma parseDateOnly_fields y m dt :
  1000 <= y <= 9999 -> 0 <= m <= 11 -> 1 <= dt <= DaysInMonth y m ->
  parseDateOnly
    (numberToString y ++ "-" ++ pad2 (m + 1) ++ "-" ++ pad2 dt)%string
  = Some (MakeDay y m dt).
Proof.
  intros Hy Hm Hd.
  pose proof (DaysInMonth_range y m) as Hr.
  destruct (year_digits y Hy) as (a & b & c & d & -> & Hv).
  unfold pad2, parseDateOnly. cbv [String.append].
  cbn [Ascii.eqb Bool.eqb andb]. rewrite Hv.
  rewrite !number2_pad2 by lia.
  replace (m + 1 - 1) with m by lia.
  replace ((1 <=? m + 1) && (m + 1 <=? 12) && (1 <=? dt)
           && (dt <=? DaysInMonth y m)) with true; [reflexivity|].
  symmetry. rewrite !andb_true_iff, !Z.leb_le. lia.
Qed.

Lemma parseDateOnly_formatDate day :
  1000 <= getFullYear day <= 9999 ->
  parseDateOnly (formatDate day) = Some day.
Proof.
  intros Hy. rewrite formatDate_shape.
  rewrite (parseDateOnly_fields (getFullYear day) (getMonth day) (getDate day) Hy
             (MonthFromDay_range day) (DateFromDay_range day)).
  f_equal. pose proof (MakeDay_fields day 0) as H.
  rewrite !Z.add_0_r in H. exact H.
Qed.


Opaque MakeDay YearFromDay MonthFromDay DateFromDay DaysInMonth.
Opaque formatDate getDay.

Lemma localDay_east day :
  0 <= LocalTZA day < 1440 -> localDay LocalTZA day = day.
Proof. intros H. unfold localDay. Z.div_mod_to_equations. lia. Qed.

Lemma localDay_west day :
  -1440 <= LocalTZA day < 0 -> localDay LocalTZA day = day - 1.
Proof. intros H. unfold localDay. Z.div_mod_to_equations. lia. Qed.

(** At or east of Greenwich the three lines give the following day; west
    of it they give the day itself. *)
Lemma nextDateStr_east day :
  1000 <= getFullYear day <= 9999 -> 0 <= LocalTZA day < 1440 ->
  nextDateStr LocalTZA otherDate (formatDate day) = formatDate (day + 1).
Proof.
  intros Hy Hz. unfold nextDateStr.
  rewrite (parseDateOnly_formatDate day Hy). cbv zeta.
  rewrite (localDay_east day Hz), (setDate_shift day 1). reflexivity.
Qed.

Lemma nextDateStr_west day :
  1000 <= getFullYear day <= 9999 -> -1440 <= LocalTZA day < 0 ->
  nextDateStr LocalTZA otherDate (formatDate day) = formatDate day.
Proof.
  intros Hy Hz. unfold nextDateStr.
  rewrite (parseDateOnly_formatDate day Hy). cbv zeta.
  rewrite (localDay_west day Hz), (setDate_shift (day - 1) 1).
  f_equal. lia.
Qed.

Lemma indexOf_outside s d :
  d < s \/ s + 6 < d ->
  indexOf (map (fun i => formatDate (s + i)) [0; 1; 2; 3; 4; 5; 6])
          (formatDate d)
  = None.
Proof.
  intros Hd. cbn [map indexOf].
  rewrite (formatDate_eqb (s + 0) d), (formatDate_eqb (s + 1) d),
    (formatDate_eqb (s + 2) d), (formatDate_eqb (s + 3) d),
    (formatDate_eqb (s + 4) d), (formatDate_eqb (s + 5) d),
    (formatDate_eqb (s + 6) d).
  repeat match goal with |- context [?a =? ?b] =>
    destruct (Z.eqb_spec a b); [lia|] end.
  reflexivity.
Qed.

Lemma indexOf_inside s d :
  s <= d <= s + 6 ->
  indexOf (map (fun i => formatDate (s + i)) [0; 1; 2; 3; 4; 5; 6])
          (formatDate d)
  = Some (Z.to_nat (d - s)).
Proof.
  intros Hd. pose proof (indexOf_week s (d - s)) as H.
  replace (s + (d - s)) with d in H by lia. apply H. lia.
Qed.

(** The blocks of one overnight event in the week view, by the columns
    that the two passes find for it. *)
Lemma week_blocks_of_overnight nextDate dayDates e sh sm eh em :
  validClock sh sm -> validClock eh em -> clockLt eh em sh sm ->
  event_time_range e = rangeString sh sm eh em ->
  exists own cont,
    calculateEventPosition (rangeString sh sm 24 0) = Some own /\
    calculateEventPosition (rangeString 0 0 eh em) = Some cont /\
    top cont = 30%float /\
    near (height cont) (exactContinuationHeight eh em) /\
    blocks (TimelineLayout.renderWeekView nextDate dayDates [e])
    = ((match indexOf dayDates (event_date e) with
        | Some i =>
            ownDayBlock e i own
            :: (if (i <? 6)%nat then [continuationBlock e (i + 1) cont] else [])
        | None => []
        end)
       ++ (match indexOf dayDates (nextDate (event_date e)) with
           | Some j => [continuationBlock e j cont]
           | None => []
           end))%list.
Proof.
  intros Hs He Hlt Hr.
  destruct (overnight_split_ranges _ _ _ _ Hs He Hlt) as (Hov & Hc & Hx).
  destruct (continuation_position _ _ He) as (cont & Hp & Ht & Hh).
  assert (Ho : exists own,
             calculateEventPosition (rangeString sh sm 24 0) = Some own).
  { eexists. apply calculateEventPosition_rangeString;
      [apply validClock_wide, Hs | unfold wideClock; lia]. }
  destruct Ho as (own & Ho).
  exists own, cont. split; [exact Ho|]. split; [exact Hp|].
  split; [exact Ht|]. split; [exact Hh|].
  cbn [blocks TimelineLayout.renderWeekView flat_map].
  unfold weekOwnDay, weekFollowingDay.
  rewrite Hr, Hov, Hc, Hx. cbn [negb andb calculateEventPositionOrNull].
  rewrite Ho, Hp. rewrite !app_nil_r.
  unfold ownDayBlock, continuationBlock. rewrite Hr.
  destruct (indexOf dayDates (event_date e)) as [i|];
    destruct (indexOf dayDates (nextDate (event_date e))) as [j|];
    try destruct (i <? 6)%nat; reflexivity.
Qed.

(** X4. In the week view an overnight event of one of the first six
    columns, from Sunday to Friday, gets its continuation twice: once in
    the next column, from the pass over the events of the week, and once
    more from the pass over the events whose following day is in the
    week. At or east of Greenwich the second continuation is in the next
    column too; west of Greenwich the date string of the event is read as
    the evening before, the following day computed from it is the day of
    the event itself, and the second continuation is in the event's own
    column. *)
Theorem week_view_repeats_the_continuation currentDate e day sh sm eh em :
  validClock sh sm -> validClock eh em -> clockLt eh em sh sm ->
  event_time_range e = rangeString sh sm eh em ->
  event_date e = formatDate day -> 1000 <= getFullYear day <= 9999 ->
  let start := currentDate - getDay currentDate in
  start <= day <= start + 5 ->
  let i := Z.to_nat (day - start) in
  let week := renderWeekView LocalTZA otherDate currentDate [e] in
  exists own cont,
    calculateEventPosition (rangeString sh sm 24 0) = Some own /\
    calculateEventPosition (rangeString 0 0 eh em) = Some cont /\
    (0 <= LocalTZA day < 1440 ->
     blocks week
     = [ownDayBlock e i own;
        continuationBlock e (i + 1) cont;
        continuationBlock e (i + 1) cont]) /\
    (-1440 <= LocalTZA day < 0 ->
     blocks week
     = [ownDayBlock e i own;
        continuationBlock e (i + 1) cont;
        continuationBlock e i cont]).
Proof.
  intros Hs He Hlt Hr Hd Hy start Hw i week.
  destruct (week_blocks_of_overnight (nextDateStr LocalTZA otherDate)
              (dayDates currentDate) e sh sm eh em Hs He Hlt Hr)
    as (own & cont & Ho & Hp & _ & _ & Hb).
  assert (Ew : blocks week
               = blocks (TimelineLayout.renderWeekView
                           (nextDateStr LocalTZA otherDate)
                           (map (fun i => formatDate (start + i))
                                [0; 1; 2; 3; 4; 5; 6]) [e])).
  { subst week start. unfold renderWeekView.
    rewrite (dayDates_shift currentDate). reflexivity. }
  rewrite Ew. clear Ew. clearbody week.
  exists own, cont. split; [exact Ho|]. split; [exact Hp|].
  rewrite Hd, (dayDates_shift currentDate) in Hb. fold start in Hb.
  rewrite (indexOf_inside start day) in Hb by lia. fold i in Hb.
  assert (Hi : (i <? 6)%nat = true) by (apply Nat.ltb_lt; subst i; lia).
  rewrite Hi in Hb.
  split; intros Hz.
  - rewrite (nextDateStr_east day Hy Hz) in Hb.
    rewrite (indexOf_inside start (day + 1)) in Hb by lia.
    replace (Z.to_nat (day + 1 - start)) with (i + 1)%nat in Hb
      by (subst i; lia).
    exact Hb.
  - rewrite (nextDateStr_west day Hy Hz) in Hb.
    rewrite (indexOf_inside start day) in Hb by lia. exact Hb.
Qed.

(** X5. At the borders of the week. An overnight event of the Saturday
    before the week is shown, at or east of Greenwich, by its continuation
    only, which starts at the top of the first column; west of Greenwich
    it is not shown at all. An overnight event of the last column is
    shown, at or east of Greenwich, on its own day only; west of Greenwich
    its continuation is added to its own column. *)
Theorem week_view_border_events currentDate e day sh sm eh em :
  validClock sh sm -> validClock eh em -> clockLt eh em sh sm ->
  event_time_range e = rangeString sh sm eh em ->
  event_date e = formatDate day -> 1000 <= getFullYear day <= 9999 ->
  let start := currentDate - getDay currentDate in
  let week := renderWeekView LocalTZA otherDate currentDate [e] in
  exists own cont,
    calculateEventPosition (rangeString sh sm 24 0) = Some own /\
    calculateEventPosition (rangeString 0 0 eh em) = Some cont /\
    top cont = 30%float /\
    near (height cont) (exactContinuationHeight eh em) /\
    (day = start - 1 ->
     (0 <= LocalTZA day < 1440 -> blocks week = [continuationBlock e 0 cont]) /\
     (-1440 <= LocalTZA day < 0 -> blocks week = [])) /\
    (day = start + 6 ->
     (0 <= LocalTZA day < 1440 -> blocks week = [ownDayBlock e 6 own]) /\
     (-1440 <= LocalTZA day < 0 ->
      blocks week = [ownDayBlock e 6 own; continuationBlock e 6 cont])).
Proof.
  intros Hs He Hlt Hr Hd Hy start week.
  destruct (week_blocks_of_overnight (nextDateStr LocalTZA otherDate)
              (dayDates currentDate) e sh sm eh em Hs He Hlt Hr)
    as (own & cont & Ho & Hp & Ht & Hh & Hb).
  assert (Ew : blocks week
               = blocks (TimelineLayout.renderWeekView
                           (nextDateStr LocalTZA otherDate)
                           (map (fun i => formatDate (start + i))
                                [0; 1; 2; 3; 4; 5; 6]) [e])).
  { subst week start. unfold renderWeekView.
    rewrite (dayDates_shift currentDate). reflexivity. }
  rewrite Ew. clear Ew. clearbody week.
  exists own, cont. split; [exact Ho|]. split; [exact Hp|].
  split; [exact Ht|]. split; [exact Hh|].
  rewrite Hd, (dayDates_shift currentDate) in Hb. fold start in Hb.
  split; intros Hday.
  - rewrite (indexOf_outside start day) in Hb by lia.
    split; intros Hz.
    + rewrite (nextDateStr_east day Hy Hz) in Hb.
      rewrite (indexOf_inside start (day + 1)) in Hb by lia.
      replace (Z.to_nat (day + 1 - start)) with 0%nat in Hb by lia.
      exact Hb.
    + rewrite (nextDateStr_west day Hy Hz) in Hb.
      rewrite (indexOf_outside start day) in Hb by lia. exact Hb.
  - rewrite (indexOf_inside start day) in Hb by lia.
    replace (Z.to_nat (day - start)) with 6%nat in Hb by lia.
    cbn [Nat.ltb Nat.leb] in Hb.
    split; intros Hz.
    + rewrite (nextDateStr_east day Hy Hz) in Hb.
      rewrite (indexOf_outside start (day + 1)) in Hb by lia. exact Hb.
    + rewrite (nextDateStr_west day Hy Hz) in Hb.
      rewrite (indexOf_inside start day) in Hb by lia.
      replace (Z.to_nat (day - start)) with 6%nat in Hb by lia.
      exact Hb.
Qed.

Transparent formatDate getDay.
Transparent MakeDay YearFromDay MonthFromDay DateFromDay DaysInMonth.

End WeekViewFacts.

Section WeekViewScenarios.
Import JS JSText TimelineLayout Formats Calendar Navigation WeekDates.
Local Open Scope Z_scope.

Lemma week_view_repeats_the_continuation_witness :
  let week offset :=
    renderWeekView (fun _ => offset) (fun date => date) june5 [mondayNight] in
  dayDates june5
  = ["2024-06-02"; "2024-06-03"; "2024-06-04"; "2024-06-05"; "2024-06-06";
     "2024-06-07"; "2024-06-08"]%string /\
  exists own cont,
    calculateEventPosition "22:00-24:00" = Some own /\
    calculateEventPosition "00:00-02:00" = Some cont /\
    blocks (week 120)
    = [ownDayBlock mondayNight 1 own;
       continuationBlock mondayNight 2 cont;
       continuationBlock mondayNight 2 cont] /\
    blocks (week (-240))
    = [ownDayBlock mondayNight 1 own;
       continuationBlock mondayNight 2 cont;
       continuationBlock mondayNight 1 cont].
Proof.
  intros week. split; [vm_compute; reflexivity|].
  destruct (week_view_repeats_the_continuation (fun _ => 120) (fun date => date)
              june5 mondayNight (MakeDay 2024 5 3) 22 0 2 0)
    as (own & cont & Ho & Hp & E & _);
    [unfold validClock; lia | unfold validClock; lia | unfold clockLt; lia
    | reflexivity | vm_compute; reflexivity | vm_compute; split; discriminate
    | vm_compute; split; discriminate |].
  destruct (week_view_repeats_the_continuation (fun _ => -240) (fun date => date)
              june5 mondayNight (MakeDay 2024 5 3) 22 0 2 0)
    as (own' & cont' & Ho' & Hp' & _ & W);
    [unfold validClock; lia | unfold validClock; lia | unfold clockLt; lia
    | reflexivity | vm_compute; reflexivity | vm_compute; split; discriminate
    | vm_compute; split; discriminate |].
  rewrite Ho in Ho'. injection Ho' as <-.
  rewrite Hp in Hp'. injection Hp' as <-.
  exists own, cont. split; [exact Ho|]. split; [exact Hp|].
  split; [apply E; lia | apply W; lia].
Defined.

Lemma week_view_border_events_witness :
  let week offset date :=
    renderWeekView (fun _ => offset) (fun d => d) june5 [saturdayNight date] in
  exists own cont,
    calculateEventPosition "23:00-24:00" = Some own /\
    calculateEventPosition "00:00-01:30" = Some cont /\
    blocks (week 120 "2024-06-01"%string)
    = [continuationBlock (saturdayNight "2024-06-01") 0 cont] /\
    blocks (week (-240) "2024-06-01"%string) = [] /\
    blocks (week 120 "2024-06-08"%string)
    = [ownDayBlock (saturdayNight "2024-06-08") 6 own] /\
    blocks (week (-240) "2024-06-08"%string)
    = [ownDayBlock (saturdayNight "2024-06-08") 6 own;
       continuationBlock (saturdayNight "2024-06-08") 6 cont].
Proof.
  intros week.
  destruct (week_view_border_events (fun _ => 120) (fun d => d) june5
              (saturdayNight "2024-06-01") (MakeDay 2024 5 1) 23 0 1 30)
    as (own & cont & Ho & Hp & _ & _ & A & _);
    [unfold validClock; lia | unfold validClock; lia | unfold clockLt; lia
    | reflexivity | vm_compute; reflexivity | vm_compute; split; discriminate |].
  destruct (week_view_border_events (fun _ => -240) (fun d => d) june5
              (saturdayNight "2024-06-01") (MakeDay 2024 5 1) 23 0 1 30)
    as (own1 & cont1 & Ho1 & Hp1 & _ & _ & B & _);
    [unfold validClock; lia | unfold validClock; lia | unfold clockLt; lia
    | reflexivity | vm_compute; reflexivity | vm_compute; split; discriminate |].
  destruct (week_view_border_events (fun _ => 120) (fun d => d) june5
              (saturdayNight "2024-06-08") (MakeDay 2024 5 8) 23 0 1 30)
    as (own2 & cont2 & Ho2 & Hp2 & _ & _ & _ & C);
    [unfold validClock; lia | unfold validClock; lia | unfold clockLt; lia
    | reflexivity | vm_compute; reflexivity | vm_compute; split; discriminate |].
  destruct (week_view_border_events (fun _ => -240) (fun d => d) june5
              (saturdayNight "2024-06-08") (MakeDay 2024 5 8) 23 0 1 30)
    as (own3 & cont3 & Ho3 & Hp3 & _ & _ & _ & D);
    [unfold validClock; lia | unfold validClock; lia | unfold clockLt; lia
    | reflexivity | vm_compute; reflexivity | vm_compute; split; discriminate |].
  rewrite Ho in Ho1, Ho2, Ho3. injection Ho1 as <-. injection Ho2 as <-.
  injection Ho3 as <-.
  rewrite Hp in Hp1, Hp2, Hp3. injection Hp1 as <-. injection Hp2 as <-.
  injection Hp3 as <-.
  exists own, cont. split; [exact Ho|]. split; [exact Hp|].
  split; [apply A; [vm_compute; reflexivity | lia]|].
  split; [apply B; [vm_compute; reflexivity | lia]|].
  split; [apply C; [vm_compute; reflexivity | lia]|].
  apply D; [vm_compute; reflexivity | lia].
Defined.

End WeekViewScenarios.

(** ** The requested date range and the month grid *)

Section RangeFacts.
Import JSText Calendar Navigation Formats MutationGuard MonthView.
Local Open Scope Z_scope.

Opaque MakeDay YearFromDay MonthFromDay DateFromDay DaysInMonth.

(** The first and the last day of the month of a date, as [loadEvents] and
    [renderMonthView] make them. *)
Lemma month_bounds d :
  supported d ->
  let firstDay := newDate (getFullYear d) (getMonth d) 1 in
  let lastDay := newDate (getFullYear d) (getMonth d + 1) 0 in
  firstDay = d - (getDate d - 1) /\
  lastDay = firstDay + DaysInMonth (getFullYear d) (getMonth d) - 1 /\
  getDate lastDay = DaysInMonth (getFullYear d) (getMonth d) /\
  forall day,
    1 <= day <= DaysInMonth (getFullYear d) (getMonth d) ->
    firstDay + (day - 1) = MakeDay (getFullYear d) (getMonth d) day /\
    getFullYear (firstDay + (day - 1)) = getFullYear d /\
    getMonth (firstDay + (day - 1)) = getMonth d /\
    getDate (firstDay + (day - 1)) = day.
Proof.
  intros Hs firstDay lastDay.
  pose proof (supported_year _ Hs) as Hy.
  pose proof (MonthFromDay_range d) as Hm.
  pose proof (DaysInMonth_range (YearFromDay d) (MonthFromDay d)) as Hl.
  unfold getFullYear, getMonth, getDate in *.
  assert (Ef : firstDay = MakeDay (YearFromDay d) (MonthFromDay d) 1)
    by (apply newDate_modern; lia).
  assert (El : lastDay = MakeDay (YearFromDay d) (MonthFromDay d + 1) 0)
    by (apply newDate_modern; lia).
  clearbody firstDay lastDay.
  pose proof (first_of_month d) as F.
  pose proof (MakeDay_month_end (YearFromDay d) (MonthFromDay d) Hm) as E.
  pose proof (MakeDay_date (YearFromDay d) (MonthFromDay d)
                (DaysInMonth (YearFromDay d) (MonthFromDay d)) 1) as D.
  split; [lia|]. split; [lia|]. split.
  - rewrite El, E.
    apply (fields_MakeDay (YearFromDay d) (MonthFromDay d)); lia.
  - intros day Hd.
    pose proof (MakeDay_date (YearFromDay d) (MonthFromDay d) day 1) as D'.
    assert (Ed : firstDay + (day - 1)
                 = MakeDay (YearFromDay d) (MonthFromDay d) day) by lia.
    split; [exact Ed|]. rewrite Ed.
    apply (fields_MakeDay (YearFromDay d) (MonthFromDay d)); lia.
Qed.

Opaque formatDate getDay newDate setDate startOfWeek.

Lemma dateRange_other view d :
  existsb (String.eqb view) Page.knownViews = false ->
  dateRange view d = (None, None).
Proof.
  unfold Page.knownViews. cbn [existsb]. intros H.
  repeat (apply orb_false_iff in H as [? H]).
  unfold dateRange.
  repeat match goal with E : String.eqb view _ = false |- _ =>
    rewrite E; clear E end.
  reflexivity.
Qed.

(** X17. The range of dates that [loadEvents] asks for covers the days of the
    view and the day before them: the Saturday before the week up to its
    last day, the day before the current date up to it, the last day of
    the previous month up to the last day of the month. In any other view
    (the time review, the query view) the two dates are undefined and the
    request is sent with the text "undefined" for both. *)
Theorem requested_date_range currentDate view :
  supported currentDate ->
  let start := currentDate - getDay currentDate in
  let first := currentDate - (getDate currentDate - 1) in
  let last :=
    first + DaysInMonth (getFullYear currentDate) (getMonth currentDate) - 1 in
  dateRange "week" currentDate
  = (Some (formatDate (start - 1)), Some (formatDate (start + 6))) /\
  dateRange "day" currentDate
  = (Some (formatDate (currentDate - 1)), Some (formatDate currentDate)) /\
  dateRange "month" currentDate
  = (Some (formatDate (first - 1)), Some (formatDate last)) /\
  dateRange "list" currentDate = dateRange "month" currentDate /\
  dateRange "completed" currentDate = dateRange "month" currentDate /\
  apiUrl "day" currentDate
  = "/api/events?date_from=" ++ formatDate (currentDate - 1)
    ++ "&date_to=" ++ formatDate currentDate /\
  (existsb (String.eqb view) Page.knownViews = false ->
   dateRange view currentDate = (None, None) /\
   apiUrl view currentDate
   = "/api/events?date_from=undefined&date_to=undefined").
Proof.
  intros Hs start first last.
  destruct (month_bounds currentDate Hs) as (Bf & Bl & _ & _).
  assert (Ew : dateRange "week" currentDate
               = (Some (formatDate (start - 1)), Some (formatDate (start + 6)))).
  { change (dateRange "week" currentDate)
      with (Some (formatDate
                    (setDate (getDate (startOfWeek currentDate) - 1)
                       (startOfWeek currentDate))),
            Some (formatDate
                    (setDate (getDate (startOfWeek currentDate) + 6)
                       (startOfWeek currentDate)))).
    rewrite (setDate_back (startOfWeek currentDate) 1),
      (setDate_shift (startOfWeek currentDate) 6),
      (startOfWeek_shift currentDate).
    reflexivity. }
  assert (Ed : dateRange "day" currentDate
               = (Some (formatDate (currentDate - 1)),
                  Some (formatDate currentDate))).
  { change (dateRange "day" currentDate)
      with (Some (formatDate (setDate (getDate currentDate - 1) currentDate)),
            Some (formatDate currentDate)).
    rewrite (setDate_back currentDate 1). reflexivity. }
  assert (Em : dateRange "month" currentDate
               = (Some (formatDate (first - 1)), Some (formatDate last))).
  { change (dateRange "month" currentDate)
      with (Some (formatDate
                    (setDate
                       (getDate (newDate (getFullYear currentDate)
                                         (getMonth currentDate) 1) - 1)
                       (newDate (getFullYear currentDate)
                                (getMonth currentDate) 1))),
            Some (formatDate (newDate (getFullYear currentDate)
                                      (getMonth currentDate + 1) 0))).
    rewrite (setDate_back (newDate (getFullYear currentDate)
                                   (getMonth currentDate) 1) 1).
    cbv zeta in Bf, Bl. rewrite Bl, Bf. reflexivity. }
  split; [exact Ew|]. split; [exact Ed|]. split; [exact Em|].
  split; [reflexivity|]. split; [reflexivity|].
  split; [unfold apiUrl; rewrite Ed; reflexivity|].
  intros Hv. pose proof (dateRange_other view currentDate Hv) as Eo.
  split; [exact Eo|]. unfold apiUrl. rewrite Eo. reflexivity.
Qed.

Transparent formatDate getDay newDate setDate startOfWeek.

(** *** The month grid *)

Lemma In_interval a b z : In z (interval a b) -> a <= z <= b.
Proof.
  unfold interval. rewrite in_map_iff. intros (i & <- & Hi).
  apply in_seq in Hi. lia.
Qed.

Lemma length_interval a b : List.length (interval a b) = Z.to_nat (b - a + 1).
Proof. unfold interval. rewrite length_map, length_seq. reflexivity. Qed.

Opaque formatDate getDay newDate.

(** X18. The month grid always has the seven headers and 42 cells: as many
    empty cells as the day of the week of the first of the month, one cell
    for each day of the month, and at least five empty cells after them.
    The cell of a day holds the items of exactly the events whose date is
    that day, in the order of the event list, so the events of other
    months that were loaded are not shown. *)
Theorem month_grid currentDate events :
  supported currentDate ->
  let first := currentDate - (getDate currentDate - 1) in
  let days := DaysInMonth (getFullYear currentDate) (getMonth currentDate) in
  let cells := renderMonthView currentDate events in
  firstDayOfWeek currentDate = getDay first /\
  daysInMonth currentDate = days /\
  cells
  = (map HeaderCell (seq 0 7)
     ++ repeat EmptyCell (Z.to_nat (getDay first))
     ++ map (fun day =>
               DayCell day
                 (map (fun e => renderEventItem e false)
                      (List.filter (onDate (formatDate (first + (day - 1))))
                                   events)))
            (interval 1 days)
     ++ repeat EmptyCell (Z.to_nat (42 - (getDay first + days))))%list /\
  List.length cells = 49%nat /\
  0 <= getDay first <= 6 /\ 28 <= days <= 31 /\
  5 <= 42 - (getDay first + days).
Proof.
  intros Hs first days cells.
  destruct (month_bounds currentDate Hs) as (Bf & Bl & Bd & Bk).
  cbv zeta in Bf, Bl, Bd, Bk.
  assert (E1 : firstDayOfWeek currentDate = getDay first).
  { unfold firstDayOfWeek. rewrite Bf. reflexivity. }
  assert (E2 : daysInMonth currentDate = days) by exact Bd.
  assert (Hw : 0 <= getDay first <= 6).
  { Transparent getDay. apply WeekDay_range. Opaque getDay. }
  assert (Hl : 28 <= days <= 31) by apply DaysInMonth_range.
  assert (Ec : cells
               = (map HeaderCell (seq 0 7)
                  ++ repeat EmptyCell (Z.to_nat (getDay first))
                  ++ map (fun day =>
                            DayCell day
                              (map (fun e => renderEventItem e false)
                                   (List.filter
                                      (onDate (formatDate (first + (day - 1))))
                                      events)))
                         (interval 1 days)
                  ++ repeat EmptyCell
                       (Z.to_nat (42 - (getDay first + days))))%list).
  { subst cells. unfold renderMonthView. cbv zeta. rewrite E1, E2.
    f_equal. f_equal. f_equal. apply map_ext_in. intros day Hday.
    apply In_interval in Hday. unfold dayCell. cbv zeta. do 2 f_equal.
    apply List.filter_ext. intros e. unfold onDate. f_equal.
    destruct (Bk day Hday) as (_ & Ky & Km & Kd).
    rewrite Bf in Ky, Km, Kd. fold first in Ky, Km, Kd.
    Transparent formatDate.
    unfold cellDateStr, formatDate. cbv zeta. rewrite Ky, Km, Kd.
    Opaque formatDate.
    reflexivity. }
  split; [exact E1|]. split; [exact E2|]. split; [exact Ec|].
  split; [|split; [exact Hw|split; [exact Hl|lia]]].
  rewrite Ec, !List.length_app, !length_map, !repeat_length, length_seq,
    length_interval.
  lia.
Qed.

Transparent formatDate getDay newDate.
Transparent MakeDay YearFromDay MonthFromDay DateFromDay DaysInMonth.

Lemma requested_date_range_witness :
  let currentDate := MakeDay 2024 5 5 in
  dateRange "week" currentDate = (Some "2024-06-01", Some "2024-06-08") /\
  dateRange "day" currentDate = (Some "2024-06-04", Some "2024-06-05") /\
  dateRange "month" currentDate = (Some "2024-05-31", Some "2024-06-30") /\
  apiUrl "time-review" currentDate
  = "/api/events?date_from=undefined&date_to=undefined".
Proof.
  intros currentDate.
  destruct (requested_date_range currentDate "time-review")
    as (A & B & C & _ & _ & _ & D).
  - unfold supported. vm_compute. split; discriminate.
  - split; [rewrite A; vm_compute; reflexivity|].
    split; [rewrite B; vm_compute; reflexivity|].
    split; [rewrite C; vm_compute; reflexivity|].
    apply D. reflexivity.
Defined.

Lemma month_grid_witness :
  let currentDate := MakeDay 2024 4 15 in
  let party := {| event_id := "9"; event_date := "2024-05-31";
                  event_time_range := "20:00-23:00"; event_title := "Party";
                  event_is_completed := false; event_source := "backend" |} in
  let cells := renderMonthView currentDate [party] in
  firstDayOfWeek currentDate = 3 /\ daysInMonth currentDate = 31 /\
  List.length cells = 49%nat /\
  nth_error cells (7 + 3 + 30) = Some (DayCell 31 [renderEventItem party false]).
Proof.
  intros currentDate party cells.
  destruct (month_grid currentDate [party]) as (_ & _ & _ & A & _).
  - unfold supported. vm_compute. split; discriminate.
  - split; [vm_compute; reflexivity|]. split; [vm_compute; reflexivity|].
    split; [exact A|]. vm_compute. reflexivity.
Defined.

End RangeFacts.

(** ** Navigation and loading together *)

Section PageFacts.
Import Calendar EventLoader Page.

Lemma fetchedUrls_issue e pg :
  fetchedUrls (setLoader (issue e) pg)
  = (fetchedUrls pg ++ match e with Fetch url => [url] | _ => [] end)%list.
Proof.
  unfold fetchedUrls. cbn [loading setLoader effects issue].
  rewrite flat_map_app. cbn [flat_map]. rewrite app_nil_r. reflexivity.
Qed.

Lemma loadEvents_ignored url st :
  isLoadingEvents st = true -> EventLoader.loadEvents url false st = st.
Proof. intros H. unfold EventLoader.loadEvents. rewrite H. reflexivity. Qed.

Lemma navigate_while_loading f pg :
  isLoadingEvents (loading pg) = true ->
  navigate f pg = setLoader hideDetails (Page.setDate f pg).
Proof.
  intros H. unfold navigate, loadEvents. cbv zeta.
  set (pg1 := setLoader hideDetails (Page.setDate f pg)).
  unfold setLoader at 1. rewrite loadEvents_ignored by exact H. reflexivity.
Qed.

(** X19. A navigation button pressed while the events are being loaded changes
    the current date and asks for nothing. When the outstanding fetch then
    delivers its events, they are stored and shown for the new date
    although they were asked for with the old one, and no request for the
    new date follows. When the fetch fails and is retried instead, the
    retry asks for the range of the new date. *)
Theorem navigation_during_a_load pg button f data :
  In (button, f) navigationButtons ->
  isLoadingEvents (loading pg) = true ->
  let pg' := button pg in
  currentDate pg' = f (currentDate pg) /\
  currentView pg' = currentView pg /\
  isLoadingEvents (loading pg') = true /\
  effects (loading pg') = effects (loading pg) /\
  (let arrived := loadEvents_then data pg' in
   currentDate arrived = f (currentDate pg) /\
   events (loading arrived) = data /\
   isLoadingEvents (loading arrived) = false /\
   fetchedUrls arrived
   = (fetchedUrls pg
      ++ (if String.eqb (currentView pg) "completed"
          then ["/api/events/completed"] else []))%list) /\
  (0 <= loadEventsRetryCount (loading pg) < MAX_RETRY_COUNT ->
   fetchedUrls (retryTimer pg')
   = (fetchedUrls pg
      ++ [Navigation.apiUrl (currentView pg) (f (currentDate pg))])%list).
Proof.
  intros Hb Hl pg'.
  assert (E : pg' = setLoader hideDetails (Page.setDate f pg)).
  { subst pg'. unfold navigationButtons in Hb. cbn [In] in Hb.
    repeat (destruct Hb as [Hb|Hb];
            [injection Hb as <- <-; apply navigate_while_loading, Hl|]).
    contradiction. }
  clearbody pg'. subst pg'.
  split; [reflexivity|]. split; [reflexivity|]. split; [exact Hl|].
  split; [reflexivity|]. split.
  - unfold loadEvents_then.
    cbn [currentView setLoader Page.setDate currentDate loading].
    destruct (String.eqb (currentView pg) "completed").
    + repeat split. unfold renderCompletedView, fetchedUrls.
      cbn [loading setLoader effects EventLoader.loadEvents_then setRetryCount
           setLoading hideLoadingIndicator setIndicator setEvents issue
           hideDetails].
      rewrite flat_map_app. reflexivity.
    + repeat split. rewrite app_nil_r. reflexivity.
  - intros Hc. unfold retryTimer, loadEvents, fetchedUrls.
    cbn [currentView setLoader Page.setDate currentDate loading].
    rewrite loadEvents_retry. cbn [loadEventsRetryCount hideDetails].
    unfold MAX_RETRY_COUNT in *.
    assert (Hgt : (loadEventsRetryCount (loading pg) + 1 >? 3) = false)
      by (rewrite Z.gtb_ltb; apply Z.ltb_ge; lia).
    rewrite Hgt.
    cbn [loading effects issue showLoadingIndicator setIndicator hideDetails
         setRetryCount setLoading].
    rewrite !flat_map_app. cbn [flat_map]. rewrite !app_nil_r. reflexivity.
Qed.

(** X20. What a change of view asks for. The completed view fetches the
    completed events whether or not a load is outstanding, and fetches
    them again each time a load of the events completes in that view; the
    query view asks for nothing; every other view asks for its events
    unless a load is outstanding, the time review with both dates
    undefined. *)
Theorem view_switch_requests pg viewType :
  let switched := switchView viewType pg in
  currentView switched = viewType /\
  currentDate switched = currentDate pg /\
  (viewType = "completed" ->
   fetchedUrls switched = (fetchedUrls pg ++ ["/api/events/completed"])%list /\
   isLoadingEvents (loading switched) = isLoadingEvents (loading pg) /\
   forall data,
     fetchedUrls (loadEvents_then data switched)
     = (fetchedUrls pg
        ++ ["/api/events/completed"; "/api/events/completed"])%list) /\
  (viewType = "llm" -> loading switched = loading pg) /\
  (viewType <> "completed" -> viewType <> "llm" ->
   (isLoadingEvents (loading pg) = true -> loading switched = loading pg) /\
   (isLoadingEvents (loading pg) = false ->
    isLoadingEvents (loading switched) = true /\
    fetchedUrls switched
    = (fetchedUrls pg
       ++ [Navigation.apiUrl viewType (currentDate pg)])%list)) /\
  (viewType = "time-review" ->
   Navigation.apiUrl viewType (currentDate pg)
   = "/api/events?date_from=undefined&date_to=undefined").
Proof.
  intros switched. subst switched. unfold switchView.
  split; [|split; [|split; [|split; [|split]]]].
  - destruct (String.eqb viewType "completed"); [reflexivity|].
    destruct (negb (String.eqb viewType "llm")); reflexivity.
  - destruct (String.eqb viewType "completed"); [reflexivity|].
    destruct (negb (String.eqb viewType "llm")); reflexivity.
  - intros ->. cbn [String.eqb Ascii.eqb Bool.eqb].
    split; [|split; [reflexivity|]].
    + unfold renderCompletedView. rewrite fetchedUrls_issue. reflexivity.
    + intros data. unfold loadEvents_then, renderCompletedView.
      cbn [currentView setLoader setView String.eqb Ascii.eqb Bool.eqb].
      unfold fetchedUrls.
      cbn [loading setLoader setView effects EventLoader.loadEvents_then
           setRetryCount setLoading hideLoadingIndicator setIndicator
           setEvents issue].
      rewrite !flat_map_app. cbn [flat_map]. rewrite <- !app_assoc.
      reflexivity.
  - intros ->. reflexivity.
  - intros Hc Hq. apply String.eqb_neq in Hc, Hq. rewrite Hc, Hq. cbn [negb].
    unfold loadEvents, fetchedUrls.
    cbn [loading setLoader setView currentView currentDate].
    split; intros Hl.
    + apply loadEvents_ignored, Hl.
    + assert (E : EventLoader.loadEvents
                    (Navigation.apiUrl viewType (currentDate pg)) false
                    (loading pg)
                  = issue (Fetch (Navigation.apiUrl viewType (currentDate pg)))
                      (issue (SetTimeout Abort 10000)
                         (showLoadingIndicator
                            (hideDetails
                               (setRetryCount 0
                                  (setLoading true (loading pg))))))).
      { unfold EventLoader.loadEvents. rewrite Hl. reflexivity. }
      rewrite E. split; [reflexivity|].
      cbn [loading effects issue showLoadingIndicator setIndicator hideDetails
           setRetryCount setLoading].
      rewrite !flat_map_app. cbn [flat_map]. rewrite !app_nil_r. reflexivity.
  - intros ->. reflexivity.
Qed.

Lemma navigation_during_a_load_witness :
  let pg := Page.loadEvents false june5 in
  let pg' := Page.nextMonth pg in
  fetchedUrls pg = ["/api/events?date_from=2024-05-31&date_to=2024-06-30"] /\
  Navigation.formatDate (currentDate pg') = "2024-07-01" /\
  fetchedUrls (loadEvents_then [] pg') = fetchedUrls pg /\
  fetchedUrls (retryTimer pg')
  = ["/api/events?date_from=2024-05-31&date_to=2024-06-30";
     "/api/events?date_from=2024-06-30&date_to=2024-07-31"].
Proof.
  intros pg pg'.
  destruct (navigation_during_a_load pg Page.nextMonth Navigation.nextMonth [])
    as (_ & _ & _ & _ & (_ & _ & _ & A) & B).
  - right. left. reflexivity.
  - reflexivity.
  - split; [vm_compute; reflexivity|]. split; [vm_compute; reflexivity|].
    split.
    + fold pg' in A. rewrite A. apply app_nil_r.
    + fold pg' in B. rewrite B; [vm_compute; reflexivity|].
      vm_compute. split; [discriminate | reflexivity].
Defined.

Lemma view_switch_requests_witness :
  fetchedUrls (switchView "time-review" june5)
  = ["/api/events?date_from=undefined&date_to=undefined"] /\
  fetchedUrls (switchView "completed" (Page.loadEvents false june5))
  = ["/api/events?date_from=2024-05-31&date_to=2024-06-30";
     "/api/events/completed"].
Proof.
  split.
  - destruct (view_switch_requests june5 "time-review")
      as (_ & _ & _ & _ & A & _).
    destruct A as [_ A]; [discriminate | discriminate |].
    destruct (A eq_refl) as [_ ->]. reflexivity.
  - destruct (view_switch_requests (Page.loadEvents false june5) "completed")
      as (_ & _ & A & _).
    destruct (A eq_refl) as [-> _]. vm_compute. reflexivity.
Defined.

End PageFacts.

(** ** The list view and the completed view *)

Section ListFacts.
Import MutationGuard ListViews.

(** *** Sorting *)

Lemma insert_perm x l : Permutation (insert x l) (x :: l).
Proof.
  induction l as [|y r IH]; cbn [insert]; [reflexivity|].
  destruct (String.leb x y); [reflexivity|].
  rewrite IH. apply perm_swap.
Qed.

Lemma sortStrings_perm l : Permutation (sortStrings l) l.
Proof.
  induction l as [|x r IH]; cbn [sortStrings fold_right]; [reflexivity|].
  rewrite insert_perm. apply perm_skip, IH.
Qed.

Lemma insert_sorted x l : Sorted ascending l -> Sorted ascending (insert x l).
Proof.
  induction 1 as [|y r Hr IH Hd]; cbn [insert].
  - repeat constructor.
  - destruct (String.leb x y) eqn:E.
    + constructor; [constructor; assumption|]. constructor. exact E.
    + constructor; [exact IH|].
      assert (Hyx : ascending y x).
      { destruct (String.leb_total x y) as [H|H]; [congruence | exact H]. }
      destruct r as [|z r']; cbn [insert]; [constructor; exact Hyx|].
      destruct (String.leb x z); constructor; [exact Hyx|].
      inversion Hd. assumption.
Qed.

Lemma sortStrings_sorted l : Sorted ascending (sortStrings l).
Proof.
  induction l as [|x r IH]; cbn [sortStrings fold_right]; [constructor|].
  apply insert_sorted, IH.
Qed.

(** *** Grouping *)

Lemma own_None key g : own key g = None <-> ~ In key (map fst g).
Proof.
  induction g as [|[k es] r IH]; cbn [own map fst In]; [tauto|].
  destruct (String.eqb_spec k key) as [->|Hne].
  - split; [discriminate | intros H; exfalso; apply H; left; reflexivity].
  - rewrite IH. tauto.
Qed.

Lemma push_keys key e g : map fst (push key e g) = map fst g.
Proof.
  induction g as [|[k es] r IH]; cbn [push map fst]; [reflexivity|].
  destruct (String.eqb k key); cbn [map fst]; [reflexivity|].
  rewrite IH. reflexivity.
Qed.

Lemma push_events key e g es :
  own key g = Some es ->
  Permutation (flat_map snd (push key e g)) (flat_map snd g ++ [e])%list.
Proof.
  induction g as [|[k l] r IH]; cbn [own push flat_map snd]; [discriminate|].
  destruct (String.eqb k key); cbn [flat_map snd].
  - intros _. rewrite <- !app_assoc. apply Permutation_app_head.
    apply Permutation_app_comm.
  - intros H. rewrite <- app_assoc. apply Permutation_app_head, IH, H.
Qed.

Lemma push_wellGrouped e g es :
  own (event_date e) g = Some es ->
  wellGrouped g -> wellGrouped (push (event_date e) e g).
Proof.
  intros Ho [Hn Hf]. split; [rewrite push_keys; exact Hn|].
  clear Hn. revert Ho. induction Hf as [|[k l] r [Hne Hd] Hr IH];
    cbn [own push]; [discriminate|].
  destruct (String.eqb_spec k (event_date e)) as [->|Hk].
  - intros _. constructor; [|exact Hr]. cbn [fst snd] in *. split.
    + destruct l; discriminate.
    + apply Forall_app. split; [exact Hd|]. constructor; [reflexivity|constructor].
  - intros Ho. constructor; [split; assumption | apply IH, Ho].
Qed.

Lemma append_wellGrouped e g :
  own (event_date e) g = None ->
  wellGrouped g -> wellGrouped (g ++ [(event_date e, [e])])%list.
Proof.
  intros Ho [Hn Hf]. apply own_None in Ho. split.
  - rewrite map_app. cbn [map fst].
    apply NoDup_app; [exact Hn | repeat constructor; intros [] | ].
    intros k Hk [<-|[]]. contradiction.
  - apply Forall_app. split; [exact Hf|].
    constructor; [|constructor]. cbn [fst snd].
    split; [discriminate|]. constructor; [reflexivity|constructor].
Qed.

Lemma addEvent_spec g e :
  wellGrouped g ->
  Forall (fun k => inherited k = false) (map fst g) ->
  if inherited (event_date e)
  then addEvent (Some g) e = None
  else exists g',
         addEvent (Some g) e = Some g' /\ wellGrouped g' /\
         Forall (fun k => inherited k = false) (map fst g') /\
         Permutation (flat_map snd g') (flat_map snd g ++ [e])%list.
Proof.
  intros Hw Hk. cbn [addEvent].
  destruct (own (event_date e) g) as [es|] eqn:Ho.
  - assert (Hin : In (event_date e) (map fst g)).
    { destruct (in_dec string_dec (event_date e) (map fst g)) as [H|H];
        [exact H|]. apply own_None in H. congruence. }
    rewrite Forall_forall in Hk. rewrite (Hk _ Hin).
    eexists. split; [reflexivity|]. split; [eapply push_wellGrouped; eassumption|].
    split; [rewrite push_keys; apply Forall_forall, Hk|].
    eapply push_events, Ho.
  - destruct (inherited (event_date e)) eqn:Hi; [reflexivity|].
    eexists. split; [reflexivity|]. split; [apply append_wellGrouped; assumption|].
    split.
    + rewrite map_app. apply Forall_app. split; [exact Hk|].
      constructor; [exact Hi|constructor].
    + rewrite flat_map_app. cbn [flat_map snd]. rewrite app_nil_r. reflexivity.
Qed.

Lemma fold_addEvent_None events : fold_left addEvent events None = None.
Proof. induction events as [|e r IH]; [reflexivity | exact IH]. Qed.

Lemma groupByDate_from events : forall g,
  wellGrouped g ->
  Forall (fun k => inherited k = false) (map fst g) ->
  if forallb (fun e => negb (inherited (event_date e))) events
  then exists g',
         fold_left addEvent events (Some g) = Some g' /\ wellGrouped g' /\
         Permutation (flat_map snd g') (flat_map snd g ++ events)%list
  else fold_left addEvent events (Some g) = None.
Proof.
  induction events as [|e r IH]; intros g Hw Hk; cbn [forallb fold_left].
  - exists g. rewrite app_nil_r. repeat split; try apply Hw. reflexivity.
  - pose proof (addEvent_spec g e Hw Hk) as H.
    destruct (inherited (event_date e)); cbn [negb andb].
    + rewrite H. apply fold_addEvent_None.
    + destruct H as (g1 & -> & Hw1 & Hk1 & Hp1).
      specialize (IH g1 Hw1 Hk1).
      destruct (forallb (fun e => negb (inherited (event_date e))) r);
        [|exact IH].
      destruct IH as (g' & E & Hw' & Hp').
      exists g'. split; [exact E|]. split; [exact Hw'|].
      rewrite Hp', Hp1, <- app_assoc. reflexivity.
Qed.

Lemma groupByDate_spec events :
  if forallb (fun e => negb (inherited (event_date e))) events
  then exists g,
         groupByDate events = Some g /\ wellGrouped g /\
         Permutation (flat_map snd g) events
  else groupByDate events = None.
Proof.
  unfold groupByDate.
  apply (groupByDate_from events []); [split; constructor | constructor].
Qed.

Lemma flat_map_agree {A B} (f h : A -> list B) l :
  (forall a, In a l -> f a = h a) -> flat_map f l = flat_map h l.
Proof.
  induction l as [|x r IH]; intros H; cbn [flat_map]; [reflexivity|].
  rewrite (H x), IH; [reflexivity | | left; reflexivity].
  intros a Ha. apply H. right. exact Ha.
Qed.

Lemma eventsOf_keys g :
  NoDup (map fst g) -> flat_map (eventsOf g) (map fst g) = flat_map snd g.
Proof.
  induction g as [|[k es] r IH]; cbn [map fst flat_map snd]; [reflexivity|].
  intros Hn. inversion Hn as [|? ? Hk Hr]; subst.
  unfold eventsOf at 1. cbn [own]. rewrite String.eqb_refl. f_equal.
  rewrite <- (IH Hr). apply flat_map_agree. intros k' Hk'.
  unfold eventsOf. cbn [own].
  destruct (String.eqb_spec k k') as [->|Hne]; [contradiction|reflexivity].
Qed.

Lemma eventsOf_grouped g date :
  wellGrouped g -> In date (map fst g) ->
  eventsOf g date <> [] /\
  Forall (fun e => event_date e = date) (eventsOf g date).
Proof.
  intros [_ Hf]. induction Hf as [|[k es] r [Hne Hd] Hr IH];
    cbn [map fst In]; [contradiction|].
  unfold eventsOf. cbn [own].
  destruct (String.eqb_spec k date) as [->|Hk].
  - intros _. split; assumption.
  - intros [E|Hin]; [contradiction|]. apply IH, Hin.
Qed.

(** The events under the sorted keys, whatever is done to each array, as
    long as it keeps its events. *)
Lemma sorted_groups_perm (f : list event -> list event) g keys :
  (forall l, Permutation (f l) l) ->
  NoDup (map fst g) -> Permutation keys (map fst g) ->
  Permutation (flat_map (fun date => f (eventsOf g date)) keys)
              (flat_map snd g).
Proof.
  intros Hf Hn Hp. rewrite <- (eventsOf_keys g Hn).
  rewrite (Permutation_flat_map (fun date => f (eventsOf g date)) Hp).
  clear Hp Hn. generalize (map fst g) as l.
  induction l as [|k r IH]; cbn [flat_map]; [reflexivity|].
  apply Permutation_app; [apply Hf | exact IH].
Qed.

Lemma flat_map_map_groups {A} (f : A -> dateGroup) (h : dateGroup -> list event)
    (l : list A) :
  flat_map h (map f l) = flat_map (fun a => h (f a)) l.
Proof.
  induction l as [|x r IH]; cbn [map flat_map]; [reflexivity|].
  rewrite IH. reflexivity.
Qed.

Lemma items_of_groups (shown : list dateGroup) :
  Forall (fun gr =>
            group_items gr
            = map (fun e => renderEventItem e false) (group_events gr)) shown ->
  flat_map group_items shown
  = map (fun e => renderEventItem e false) (flat_map group_events shown).
Proof.
  induction 1 as [|gr r Hg Hr IH]; cbn [flat_map]; [reflexivity|].
  rewrite map_app, Hg, IH. reflexivity.
Qed.

Lemma map_flat_map {A B C} (f : B -> C) (h : A -> list B) (l : list A) :
  flat_map (fun a => map f (h a)) l = map f (flat_map h l).
Proof.
  induction l as [|x r IH]; cbn [flat_map]; [reflexivity|].
  rewrite map_app, IH. reflexivity.
Qed.

(** X21. The completed view shows every completed event that the server
    returns exactly once, in the group of its date, each marked as
    completed and therefore rendered with an enabled delete button; the
    groups are in descending order of their date strings. *)
Theorem completed_view_shows_every_task_with_a_delete_button completedEvents :
  completedEvents <> [] ->
  forallb (fun e => negb (inherited (event_date e))) completedEvents = true ->
  exists shown,
    renderCompletedView_then completedEvents = Some (DateGroups shown) /\
    Permutation (flat_map group_events shown)
                (map markCompleted completedEvents) /\
    flat_map group_items shown
    = map (fun e => renderEventItem e false) (flat_map group_events shown) /\
    Forall (fun item =>
              el_button item
              = Some {| button_kind := DeleteButton; button_disabled := false;
                        button_text := Cross |})
           (flat_map group_items shown) /\
    Sorted ascending (rev (map group_date shown)) /\
    NoDup (map group_date shown).
Proof.
  intros Hne Hok. pose proof (groupByDate_spec completedEvents) as Hg.
  rewrite Hok in Hg. destruct Hg as (g & Eg & Hw & Hp).
  assert (Hk : Permutation (rev (sortStrings (map fst g))) (map fst g)).
  { rewrite <- Permutation_rev. apply sortStrings_perm. }
  exists (map (completedGroup g) (rev (sortStrings (map fst g)))).
  assert (Hi : flat_map group_items
                 (map (completedGroup g) (rev (sortStrings (map fst g))))
               = map (fun e => renderEventItem e false)
                     (flat_map group_events
                        (map (completedGroup g)
                             (rev (sortStrings (map fst g)))))).
  { apply items_of_groups, Forall_forall. intros gr Hin.
    apply in_map_iff in Hin as (date & <- & _). reflexivity. }
  assert (He : flat_map group_events
                 (map (completedGroup g) (rev (sortStrings (map fst g))))
               = map markCompleted
                     (flat_map (eventsOf g) (rev (sortStrings (map fst g))))).
  { rewrite flat_map_map_groups. cbn [completedGroup group_events].
    apply map_flat_map. }
  split.
  { destruct completedEvents as [|e r]; [contradiction Hne; reflexivity|].
    cbn [renderCompletedView_then]. rewrite Eg. reflexivity. }
  split.
  { rewrite He. apply Permutation_map.
    rewrite (sorted_groups_perm (fun l => l) g _
               (fun l => Permutation_refl l) (proj1 Hw) Hk).
    exact Hp. }
  split; [exact Hi|].
  split.
  { rewrite Hi, He. apply Forall_forall. intros item Hin.
    apply in_map_iff in Hin as (e & <- & He').
    apply in_map_iff in He' as (e0 & <- & _). reflexivity. }
  rewrite map_map. cbn [completedGroup group_date]. rewrite map_id.
  split; [rewrite rev_involutive; apply sortStrings_sorted|].
  apply (Permutation_NoDup (symmetry Hk)), Hw.
Qed.

End ListFacts.

Section ListOrderFacts.
Import MutationGuard ListViews.

Variable localeCompare : string -> string -> Z.

Lemma insertEvent_perm x l :
  Permutation (insertEvent localeCompare x l) (x :: l).
Proof.
  induction l as [|y r IH]; cbn [insertEvent]; [reflexivity|].
  destruct (compareEvents localeCompare x y <=? 0)%Z; [reflexivity|].
  rewrite IH. apply perm_swap.
Qed.

Lemma sortEvents_perm l : Permutation (sortEvents localeCompare l) l.
Proof.
  induction l as [|x r IH]; cbn [sortEvents fold_right]; [reflexivity|].
  rewrite insertEvent_perm. apply perm_skip, IH.
Qed.

(** X22. The list view shows every loaded event exactly once, in the group of
    its date. The groups are in ascending order of their date strings and
    no date occurs twice, no group is empty, and every item is rendered
    from its event with a button. With no event the view shows its
    message for the empty list. If the date of some event is the name of
    a property that objects inherit (["constructor"], ["toString"], ...),
    the grouping throws and nothing is shown. *)
Theorem list_view_shows_every_event_once events :
  (events = [] <->
   renderListView localeCompare events = Some EmptyMessage) /\
  (events <> [] ->
   forallb (fun e => negb (inherited (event_date e))) events = true ->
   exists shown,
     renderListView localeCompare events = Some (DateGroups shown) /\
     Permutation (flat_map group_events shown) events /\
     flat_map group_items shown
     = map (fun e => renderEventItem e false) (flat_map group_events shown) /\
     Sorted ascending (map group_date shown) /\
     NoDup (map group_date shown) /\
     Forall (fun gr =>
               group_events gr <> [] /\
               Forall (fun e => event_date e = group_date gr)
                      (group_events gr)) shown) /\
  (forallb (fun e => negb (inherited (event_date e))) events = false ->
   renderListView localeCompare events = None).
Proof.
  pose proof (groupByDate_spec events) as Hg.
  split; [|split].
  - split; [intros ->; reflexivity|].
    destruct events as [|e r]; [reflexivity|]. cbn [renderListView].
    destruct (groupByDate (e :: r)); discriminate.
  - intros Hne Hok. rewrite Hok in Hg. destruct Hg as (g & Eg & Hw & Hp).
    pose proof (sortStrings_perm (map fst g)) as Hk.
    exists (map (listGroup localeCompare g) (sortStrings (map fst g))).
    split.
    { destruct events as [|e r]; [contradiction Hne; reflexivity|].
      cbn [renderListView]. rewrite Eg. reflexivity. }
    split.
    { rewrite flat_map_map_groups. cbn [listGroup group_events].
      rewrite (sorted_groups_perm (sortEvents localeCompare) g _
                 (sortEvents_perm) (proj1 Hw) Hk).
      exact Hp. }
    split.
    { apply items_of_groups, Forall_forall. intros gr Hin.
      apply in_map_iff in Hin as (date & <- & _). reflexivity. }
    rewrite map_map. cbn [listGroup group_date]. rewrite map_id.
    split; [apply sortStrings_sorted|].
    split; [apply (Permutation_NoDup (symmetry Hk)), Hw|].
    apply Forall_forall. intros gr Hin.
    apply in_map_iff in Hin as (date & <- & Hd).
    cbn [listGroup group_events group_date].
    apply (Permutation_in _ Hk) in Hd.
    destruct (eventsOf_grouped g date Hw Hd) as [Hn Hf].
    pose proof (sortEvents_perm (eventsOf g date)) as Hs.
    split.
    + intros E. rewrite E in Hs. apply Permutation_nil in Hs. contradiction.
    + apply (Permutation_Forall (symmetry Hs)), Hf.
  - intros Hbad. rewrite Hbad in Hg.
    destruct events as [|e r]; [discriminate Hbad|].
    cbn [renderListView]. rewrite Hg. reflexivity.
Qed.

End ListOrderFacts.

Section ListScenarios.
Import MutationGuard ListViews.

Lemma list_view_shows_every_event_once_witness :
  let byCodeUnits a b :=
    match String.compare a b with Lt => -1 | Eq => 0 | Gt => 1 end in
  let late := {| event_id := "1"; event_date := "2024-06-04";
                 event_time_range := "15:00-16:00"; event_title := "Review";
                 event_is_completed := false; event_source := "backend" |} in
  let early := {| event_id := "2"; event_date := "2024-06-04";
                  event_time_range := "09:00-10:00"; event_title := "Standup";
                  event_is_completed := false; event_source := "backend" |} in
  let before := {| event_id := "3"; event_date := "2024-06-03";
                   event_time_range := "12:00-13:00"; event_title := "Lunch";
                   event_is_completed := true; event_source := "backend" |} in
  let broken := {| event_id := "4"; event_date := "constructor";
                   event_time_range := "12:00-13:00"; event_title := "Lunch";
                   event_is_completed := false; event_source := "backend" |} in
  (exists shown,
     renderListView byCodeUnits [late; early; before] = Some (DateGroups shown) /\
     map group_date shown = ["2024-06-03"; "2024-06-04"] /\
     flat_map group_events shown = [before; early; late] /\
     Permutation (flat_map group_events shown) [late; early; before]) /\
  renderListView byCodeUnits [late; broken] = None.
Proof.
  intros byCodeUnits late early before broken.
  destruct (list_view_shows_every_event_once byCodeUnits [late; early; before])
    as (_ & A & _).
  destruct A as (shown & E & P & _); [discriminate | reflexivity |].
  split.
  - exists shown. split; [exact E|].
    vm_compute in E. injection E as <-.
    split; [reflexivity|]. split; [reflexivity | exact P].
  - destruct (list_view_shows_every_event_once byCodeUnits [late; broken])
      as (_ & _ & B).
    apply B. reflexivity.
Defined.

Lemma completed_view_shows_every_task_with_a_delete_button_witness :
  let first := {| event_id := "1"; event_date := "2024-06-03";
                  event_time_range := "15:00-16:00"; event_title := "Review";
                  event_is_completed := false; event_source := "backend" |} in
  let second := {| event_id := "2"; event_date := "2024-06-04";
                   event_time_range := "09:00-10:00"; event_title := "Standup";
                   event_is_completed := false; event_source := "backend" |} in
  exists shown,
    renderCompletedView_then [first; second] = Some (DateGroups shown) /\
    map group_date shown = ["2024-06-04"; "2024-06-03"] /\
    Forall (fun item =>
              el_button item
              = Some {| button_kind := DeleteButton; button_disabled := false;
                        button_text := Cross |})
           (flat_map group_items shown).
Proof.
  intros first second.
  destruct (completed_view_shows_every_task_with_a_delete_button [first; second])
    as (shown & E & _ & _ & B & _); [discriminate | reflexivity |].
  exists shown. split; [exact E|]. split; [|exact B].
  vm_compute in E. injection E as <-. reflexivity.
Defined.

End ListScenarios.
